(** * Steering engine of the molecular-design demo

    A shallow embedding of the notebooks of the demo: the steering logic of
    the Colmena notebook (class [RandomThinker], the queue demonstration
    cell and the cells that save the results), the loops of the notebook
    [0_molecular-design-with-parsl] (the replacement loop and the
    model-in-the-loop search) and the analysis of the notebook
    [2_contrast-performance]; together with models of the Colmena classes
    these cells call ([ResourceCounter], [PipeQueues], [Result], the agent
    decorators), which are imported from the [colmena] package and are
    not part of the notebooks.

    Python integers are [Z]; slot counts passed to the resource counter are
    [nat] (a count of slots); times and energies, which are numbers in the
    notebooks, are [Z] as well; dictionaries are [gmap], sets are [gset];
    exceptions are the [Raise] outcome of an operation. *)

From Stdlib Require Import ZArith Lia Ascii DecimalString DecimalZ DecimalPos Sorted.
From stdpp Require Import gmap strings list fin_maps.

Open Scope Z_scope.

(** ** Outcomes of an operation *)

(** The exceptions the modelled code can raise. *)
Inductive fault : Type :=
  | AccountingFault (label : string) (held : Z) (requested : Z)
  | UnallocatedFault (held : Z) (requested : Z)
  | UnknownLabel (label : string)
  | IndexError (msg : string).

(** An operation returns, blocks its caller, or raises. *)
Inductive outcome (A : Type) : Type :=
  | Done (a : A)
  | Blocked
  | Raise (e : fault).
Arguments Done {A} a.
Arguments Blocked {A}.
Arguments Raise {A} e.

Definition is_done {A} (o : outcome A) : bool :=
  match o with Done _ => true | _ => false end.

Definition is_raise {A} (o : outcome A) : bool :=
  match o with Raise _ => true | _ => false end.

(** ** ResourceCounter *)

Module ResourceCounter.

(** Modelled from the spec: class [ResourceCounter] of
    [colmena.thinker.resources], of which the notebooks only hold the
    calls.  The state follows sections 2 and 3 of the specification: per
    label the slots allocated to it and, of these, the slots available
    to be acquired; and one pool of unallocated slots. *)
Record t : Type := mk {
  total_slots : Z;
  allocated : gmap string Z;
  available : gmap string Z;
  unallocated : Z
}.

(** Modelled from the spec: the constructor [ResourceCounter(total,
    task_types)]; every slot starts in the unallocated pool. *)
Definition new (total : nat) (task_types : list string) : t :=
  let zero : gmap string Z := gset_to_gmap 0 (list_to_set task_types) in
  mk (Z.of_nat total) zero zero (Z.of_nat total).

(** Slots currently allocated to a label. *)
Definition allocated_to (rc : t) (label : string) : Z :=
  default 0 (allocated rc !! label).

(** Slots of a label that are acquired and not yet released. *)
Definition in_use (rc : t) (label : string) : Z :=
  default 0 (allocated rc !! label) - default 0 (available rc !! label).

(** Sum of the slots allocated across all labels. *)
Definition sum_slots (m : gmap string Z) : Z :=
  map_fold (fun _ v acc => v + acc) 0 m.

(** Modelled from the spec: [acquire(label, n)] waits until [n] slots are
    available under [label] and takes them. *)
Definition acquire (rc : t) (label : string) (n : nat) : outcome t :=
  match allocated rc !! label, available rc !! label with
  | Some _, Some free =>
      if Z.of_nat n <=? free
      then Done (mk (total_slots rc) (allocated rc)
                    (<[label := free - Z.of_nat n]> (available rc))
                    (unallocated rc))
      else Blocked
  | _, _ => Raise (UnknownLabel label)
  end.

(** Modelled from the spec: [release(label, n)] frees [n] slots that were
    acquired under [label]; they become available to the next [acquire]
    on that label.  Releasing more than the label holds is the
    resource-accounting fault of section 7 (b). *)
Definition release (rc : t) (label : string) (n : nat) : outcome t :=
  match allocated rc !! label, available rc !! label with
  | Some held, Some free =>
      if Z.of_nat n <=? held - free
      then Done (mk (total_slots rc) (allocated rc)
                    (<[label := free + Z.of_nat n]> (available rc))
                    (unallocated rc))
      else Raise (AccountingFault label (held - free) (Z.of_nat n))
  | _, _ => Raise (UnknownLabel label)
  end.

(** Modelled from the spec: [reallocate(from, to, n)] moves [n] slots
    from the label [from], or from the unallocated pool when [from] is
    [None], to the label [to], where they become available.  It fails
    when the source does not hold [n] slots, and waits while the source
    holds them but they are in use. *)
Definition reallocate (rc : t) (from : option string) (to : string) (n : nat)
    : outcome t :=
  match allocated rc !! to, available rc !! to with
  | Some to_held, Some to_free =>
      match from with
      | None =>
          if Z.of_nat n <=? unallocated rc
          then Done (mk (total_slots rc)
                        (<[to := to_held + Z.of_nat n]> (allocated rc))
                        (<[to := to_free + Z.of_nat n]> (available rc))
                        (unallocated rc - Z.of_nat n))
          else Raise (UnallocatedFault (unallocated rc) (Z.of_nat n))
      | Some src =>
          match allocated rc !! src, available rc !! src with
          | Some held, Some free =>
              if negb (Z.of_nat n <=? held)
              then Raise (AccountingFault src held (Z.of_nat n))
              else if negb (Z.of_nat n <=? free) then Blocked
              else if String.eqb src to then Done rc
              else Done (mk (total_slots rc)
                     (<[to := to_held + Z.of_nat n]>
                        (<[src := held - Z.of_nat n]> (allocated rc)))
                     (<[to := to_free + Z.of_nat n]>
                        (<[src := free - Z.of_nat n]> (available rc)))
                     (unallocated rc))
          | _, _ => Raise (UnknownLabel src)
          end
      end
  | _, _ => Raise (UnknownLabel to)
  end.

(** The three operations as data, to speak of sequences of calls. *)
Inductive op : Type :=
  | Acquire (label : string) (n : nat)
  | Release (label : string) (n : nat)
  | Reallocate (from : option string) (to : string) (n : nat).

Definition apply (rc : t) (o : op) : outcome t :=
  match o with
  | Acquire l n => acquire rc l n
  | Release l n => release rc l n
  | Reallocate f d n => reallocate rc f d n
  end.

(** A call that blocks or raises leaves the counter as it was. *)
Definition after (rc : t) (o : op) : t :=
  match apply rc o with Done rc' => rc' | _ => rc end.

Definition run (rc : t) (ops : list op) : t := fold_left after ops rc.

(** The states reached from a fresh pool of [total] slots. *)
Inductive reachable (total : nat) (task_types : list string) : t -> Prop :=
  | reach_new : reachable total task_types (new total task_types)
  | reach_step rc o rc' :
      reachable total task_types rc ->
      apply rc o = Done rc' ->
      reachable total task_types rc'.

(** The accounting invariant of section 4.1. *)
Record invariant (rc : t) : Prop := {
  inv_total : sum_slots (allocated rc) + unallocated rc = total_slots rc;
  inv_unallocated : 0 <= unallocated rc;
  inv_dom : dom (available rc) = dom (allocated rc);
  inv_free : forall l held free,
      allocated rc !! l = Some held -> available rc !! l = Some free ->
      0 <= free <= held
}.

End ResourceCounter.

(** ** Task results *)

(** Modelled from the spec: class [Result] of [colmena.models], with the
    fields of the Task Result of section 3 under the names the notebooks
    read them by.  Times and values are numbers; they are integers here,
    the steering logic never computes with them. *)
Record Result : Type := mkResult {
  method : string;
  args : list string;
  topic : string;
  success : bool;
  value : option Z;
  failure_info : option string;
  time_created : Z;
  time_compute_started : Z;
  time_compute_ended : Z;
  time_result_received : Z
}.

(** ** PipeQueues *)

Module PipeQueues.

(** A task request: method, positional inputs and topic. *)
Record task : Type := mkTask {
  task_method : string;
  task_args : list string;
  task_topic : string
}.

(** What the execution backend reports for a task it ran. *)
Record report : Type := mkReport {
  rep_success : bool;
  rep_value : option Z;
  rep_failure : option string;
  rep_created : Z;
  rep_started : Z;
  rep_ended : Z;
  rep_received : Z
}.

(** Modelled from the spec: class [PipeQueues] of [colmena.queue.python]
    (the Topic Task Queue of section 4.2): the requests handed to the
    backend and not yet completed, and one first-in first-out buffer of
    results per topic. *)
Record t : Type := mk {
  topics : gset string;
  active : list task;
  results : gmap string (list Result)
}.

Definition new (names : list string) : t :=
  mk ({["default"%string]} ∪ list_to_set names) [] ∅.

Definition buffer (q : t) (name : string) : list Result :=
  default [] (results q !! name).

(** Modelled from the spec: [send_inputs(inputs, method, topic)], the
    [submit] of section 4.2; it returns at once. *)
Definition send_inputs (q : t) (inputs : list string) (meth : string)
    (name : string) : t :=
  mk (topics q) (active q ++ [mkTask meth inputs name]) (results q).

(** The result the backend builds for a task: method, inputs and topic are
    echoed. *)
Definition result_of (tk : task) (rp : report) : Result :=
  mkResult (task_method tk) (task_args tk) (task_topic tk)
           (rep_success rp) (rep_value rp) (rep_failure rp)
           (rep_created rp) (rep_started rp) (rep_ended rp) (rep_received rp).

(** Arrival of a result: it joins the end of the buffer of its topic. *)
Definition deliver (q : t) (r : Result) : t :=
  mk (topics q) (active q) (<[topic r := buffer q (topic r) ++ [r]]> (results q)).

(** Modelled from the spec: the backend of section 6 completes the
    [i]-th outstanding request with report [rp]; nothing happens when
    there is no such request. *)
Definition complete (q : t) (i : nat) (rp : report) : t :=
  match active q !! i with
  | Some tk =>
      deliver (mk (topics q) (delete i (active q)) (results q)) (result_of tk rp)
  | None => q
  end.

(** Take the oldest buffered result of a topic, if there is one. *)
Definition poll (q : t) (name : string) : option (Result * t) :=
  match buffer q name with
  | r :: rest => Some (r, mk (topics q) (active q) (<[name := rest]> (results q)))
  | [] => None
  end.

(** What a call of [get_result] yields: a result, or the no-result
    outcome of a timeout, which reaches the caller as the exception its
    [except] clause handles. *)
Inductive received : Type :=
  | Got (r : Result)
  | NoResult.

(** One tick of the clock: the completions the backend performs in it. *)
Definition tick : Type := list (nat * report).

Definition advance (q : t) (tk : tick) : t :=
  fold_left (fun q c => complete q (fst c) (snd c)) tk q.

(** Modelled from the spec: [get_result(topic, timeout)], the [receive]
    of section 4.2, with the time-out counted in ticks of the clock.  The
    call returns as soon as a result of the topic is buffered, and with
    [NoResult] once [timeout] ticks have passed.  It also returns the
    ticks it waited and the schedule that remains. *)
Fixpoint get_result (q : t) (name : string) (timeout : nat) (env : list tick)
    : received * t * nat * list tick :=
  match poll q name with
  | Some (r, q') => (Got r, q', 0%nat, env)
  | None =>
      match timeout with
      | O => (NoResult, q, 0%nat, env)
      | S timeout' =>
          let '(out, q', waited, env') :=
            get_result (advance q (hd [] env)) name timeout' (tl env) in
          (out, q', S waited, env')
      end
  end.

(** Modelled from the spec: [get_result(topic)] without a time-out waits
    for a result as long as it takes; [Blocked] when the schedule ends
    with none. *)
Definition get_result_blocking (q : t) (name : string) (env : list tick)
    : outcome Result * t * list tick :=
  match get_result q name (length env) env with
  | (Got r, q', _, env') => (Done r, q', env')
  | (NoResult, q', _, env') => (Blocked, q', env')
  end.

(** The queue after [k] ticks of the schedule, when nobody receives. *)
Fixpoint elapse (q : t) (env : list tick) (k : nat) : t :=
  match k with
  | O => q
  | S k' => elapse (advance q (hd [] env)) (tl env) k'
  end.

(** The operations as data, to speak of interleaved sequences of calls. *)
Inductive op : Type :=
  | Send (inputs : list string) (meth : string) (name : string)
  | Complete (i : nat) (rp : report)
  | Receive (name : string) (timeout : nat) (env : list tick).

Definition apply (q : t) (o : op) : t :=
  match o with
  | Send inputs meth name => send_inputs q inputs meth name
  | Complete i rp => complete q i rp
  | Receive name timeout env =>
      let '(_, q', _, _) := get_result q name timeout env in q'
  end.

Definition run (q : t) (ops : list op) : t := fold_left apply ops q.

Definition receives_on (name : string) (o : op) : bool :=
  match o with
  | Receive name' _ _ => bool_decide (name' = name)
  | _ => false
  end.

(** Every buffer holds results of its own topic only. *)
Definition sorted_by_topic (q : t) : Prop :=
  forall name r, r ∈ buffer q name -> topic r = name.

(** The topic of what a call returned, when it returned a result. *)
Definition on_topic (name : string) (out : received) : Prop :=
  match out with
  | Got r => topic r = name
  | NoResult => True
  end.

End PipeQueues.

(** ** The cell that demonstrates the topics *)

Module QueueDemo.

(** The cell of the notebook that sends a task on topic [simulate], asks
    for a result on topic [infer] with a time-out of 15 inside
    [try ... except], and then asks on topic [simulate].  It yields what
    was printed, the last value of [result] and the queue. *)
Definition cell (q : PipeQueues.t) (env : list PipeQueues.tick)
    : list string * outcome Result * PipeQueues.t :=
  let q1 := PipeQueues.send_inputs q ["C"%string] "compute_vertical" "simulate" in
  let '(got, q2, _, env2) := PipeQueues.get_result q1 "infer" 15 env in
  let printed :=
    match got with
    | PipeQueues.NoResult => ["Timed out, as expected"%string]
    | PipeQueues.Got _ => []
    end in
  let '(result, q3, _) := PipeQueues.get_result_blocking q2 "simulate" env2 in
  (printed, result, q3).

(** The task the cell sends. *)
Definition the_task : PipeQueues.task :=
  PipeQueues.mkTask "compute_vertical" ["C"%string] "simulate".

(** The queue of the cell before and after the backend ran the task. *)
Definition waiting (q : PipeQueues.t) : Prop :=
  PipeQueues.active q = [the_task] /\ forall name, PipeQueues.buffer q name = [].
Definition served (rp : PipeQueues.report) (q : PipeQueues.t) : Prop :=
  PipeQueues.active q = [] /\
  PipeQueues.buffer q "simulate" = [PipeQueues.result_of the_task rp] /\
  PipeQueues.buffer q "infer" = [].

End QueueDemo.

(** ** RandomThinker *)

(** [list.pop()]: the last element and the elements before it; [None] on an
    empty list, where Python raises [IndexError]. *)
Fixpoint pop {A : Type} (l : list A) : option (list A * A) :=
  match l with
  | [] => None
  | x :: l' =>
      match pop l' with
      | Some (front, y) => Some (x :: front, y)
      | None => Some ([], x)
      end
  end.

Module RandomThinker.

(** The effects of the agents, in the order they happen. *)
Inductive event : Type :=
  | EvReallocate (from : option string) (to : string) (n : nat)
  | EvAcquire (label : string) (n : nat)
  | EvRelease (label : string) (n : nat)
  | EvPop (mol : string)
  | EvSend (meth : string) (inputs : list string) (name : string)
  | EvStore (key : string) (v : option Z)
  | EvProgress (bar : string) (n : Z)
  | EvSetDone
  | EvWarning (msg : string)
  | EvAppend (r : Result).

(** The attributes of the thinker.  [queues], [rec], [done] and [logger]
    are those of [BaseThinker]; [history] is a ghost field that lists the
    effects performed so far. *)
Record t : Type := mk {
  queues : PipeQueues.t;
  rec : ResourceCounter.t;
  done : bool;
  logger : list string;
  molecule_list : gset string;
  n_to_evaluate : Z;
  database : gmap string (option Z);
  simulation_results : list Result;
  priority_list : list string;
  priority_list_lock : bool;
  rec_progbar : Z;
  sent_progbar : Z;
  history : list event
}.

Definition set_queues (q : PipeQueues.t) (st : t) : t :=
  mk q (rec st) (done st) (logger st) (molecule_list st) (n_to_evaluate st)
     (database st) (simulation_results st) (priority_list st)
     (priority_list_lock st) (rec_progbar st) (sent_progbar st) (history st).
Definition set_rec (rc : ResourceCounter.t) (st : t) : t :=
  mk (queues st) rc (done st) (logger st) (molecule_list st) (n_to_evaluate st)
     (database st) (simulation_results st) (priority_list st)
     (priority_list_lock st) (rec_progbar st) (sent_progbar st) (history st).
Definition set_done (b : bool) (st : t) : t :=
  mk (queues st) (rec st) b (logger st) (molecule_list st) (n_to_evaluate st)
     (database st) (simulation_results st) (priority_list st)
     (priority_list_lock st) (rec_progbar st) (sent_progbar st) (history st).
Definition set_logger (l : list string) (st : t) : t :=
  mk (queues st) (rec st) (done st) l (molecule_list st) (n_to_evaluate st)
     (database st) (simulation_results st) (priority_list st)
     (priority_list_lock st) (rec_progbar st) (sent_progbar st) (history st).
Definition set_database (d : gmap string (option Z)) (st : t) : t :=
  mk (queues st) (rec st) (done st) (logger st) (molecule_list st) (n_to_evaluate st)
     d (simulation_results st) (priority_list st)
     (priority_list_lock st) (rec_progbar st) (sent_progbar st) (history st).
Definition set_simulation_results (l : list Result) (st : t) : t :=
  mk (queues st) (rec st) (done st) (logger st) (molecule_list st) (n_to_evaluate st)
     (database st) l (priority_list st)
     (priority_list_lock st) (rec_progbar st) (sent_progbar st) (history st).
Definition set_priority_list (l : list string) (st : t) : t :=
  mk (queues st) (rec st) (done st) (logger st) (molecule_list st) (n_to_evaluate st)
     (database st) (simulation_results st) l
     (priority_list_lock st) (rec_progbar st) (sent_progbar st) (history st).
Definition set_priority_list_lock (b : bool) (st : t) : t :=
  mk (queues st) (rec st) (done st) (logger st) (molecule_list st) (n_to_evaluate st)
     (database st) (simulation_results st) (priority_list st)
     b (rec_progbar st) (sent_progbar st) (history st).
Definition set_rec_progbar (n : Z) (st : t) : t :=
  mk (queues st) (rec st) (done st) (logger st) (molecule_list st) (n_to_evaluate st)
     (database st) (simulation_results st) (priority_list st)
     (priority_list_lock st) n (sent_progbar st) (history st).
Definition set_sent_progbar (n : Z) (st : t) : t :=
  mk (queues st) (rec st) (done st) (logger st) (molecule_list st) (n_to_evaluate st)
     (database st) (simulation_results st) (priority_list st)
     (priority_list_lock st) (rec_progbar st) n (history st).
Definition note (e : event) (st : t) : t :=
  mk (queues st) (rec st) (done st) (logger st) (molecule_list st) (n_to_evaluate st)
     (database st) (simulation_results st) (priority_list st)
     (priority_list_lock st) (rec_progbar st) (sent_progbar st) (history st ++ [e]).

(** Methods run in a state monad with exceptions: a raised exception
    keeps the changes made before it. *)
Definition M (A : Type) : Type := t -> outcome A * t.

Definition ret {A : Type} (a : A) : M A := fun st => (Done a, st).

Definition bind {A B : Type} (m : M A) (k : A -> M B) : M B :=
  fun st =>
    match m st with
    | (Done a, st') => k a st'
    | (Blocked, st') => (Blocked, st')
    | (Raise e, st') => (Raise e, st')
    end.

Definition raise {A : Type} (e : fault) : M A := fun st => (Raise e, st).

Declare Scope thinker_scope.
Delimit Scope thinker_scope with thinker.
Notation "'do' x <- m 'in' k" := (bind m (fun x => k))
  (at level 10, x name, m at level 100, k at level 200) : thinker_scope.
Notation "m1 '>>' m2" := (bind m1 (fun _ => m2))
  (at level 100, m2 at level 200, right associativity) : thinker_scope.
Local Open Scope thinker_scope.

(** Calls on the resource counter [self.rec]. *)
Definition lift_rec (f : ResourceCounter.t -> outcome ResourceCounter.t)
    (e : event) : M unit :=
  fun st =>
    match f (rec st) with
    | Done rc => (Done tt, note e (set_rec rc st))
    | Blocked => (Blocked, st)
    | Raise x => (Raise x, st)
    end.

Definition rec_reallocate (from : option string) (to : string) (n : nat) : M unit :=
  lift_rec (fun rc => ResourceCounter.reallocate rc from to n) (EvReallocate from to n).
Definition rec_acquire (label : string) (n : nat) : M unit :=
  lift_rec (fun rc => ResourceCounter.acquire rc label n) (EvAcquire label n).
Definition rec_release (label : string) (n : nat) : M unit :=
  lift_rec (fun rc => ResourceCounter.release rc label n) (EvRelease label n).

(** [with self.priority_list_lock: body]: the lock is taken, and given
    back however the body ends. *)
Definition with_priority_list_lock {A : Type} (body : M A) : M A :=
  fun st =>
    if priority_list_lock st then (Blocked, st)
    else
      let '(out, st') := body (set_priority_list_lock true st) in
      (out, set_priority_list_lock false st').

(** [self.priority_list.pop()]. *)
Definition priority_list_pop : M string :=
  fun st =>
    match pop (priority_list st) with
    | Some (front, mol) => (Done mol, note (EvPop mol) (set_priority_list front st))
    | None => (Raise (IndexError "pop from empty list"), st)
    end.

(** [self.queues.send_inputs(mol, method=meth)], on the default topic. *)
Definition queues_send_inputs (mol : string) (meth : string) : M unit :=
  fun st =>
    (Done tt,
     note (EvSend meth [mol] "default")
          (set_queues (PipeQueues.send_inputs (queues st) [mol] meth "default") st)).

Definition rec_progbar_update (n : Z) : M unit :=
  fun st => (Done tt, note (EvProgress "started" n) (set_rec_progbar (rec_progbar st + n) st)).
Definition sent_progbar_update (n : Z) : M unit :=
  fun st => (Done tt, note (EvProgress "successful" n) (set_sent_progbar (sent_progbar st + n) st)).

(** [result.args[0]]. *)
Definition result_arg0 (r : Result) : M string :=
  match args r with
  | a :: _ => ret a
  | [] => raise (IndexError "tuple index out of range")
  end.

(** [self.database[key] = v]. *)
Definition database_store (key : string) (v : option Z) : M unit :=
  fun st => (Done tt, note (EvStore key v) (set_database (<[key := v]> (database st)) st)).

(** [len(self.database)]. *)
Definition database_len : M Z :=
  fun st => (Done (Z.of_nat (size (database st))), st).

Definition get_n_to_evaluate : M Z := fun st => (Done (n_to_evaluate st), st).

(** [self.done.set()]. *)
Definition done_set : M unit :=
  fun st => (Done tt, note EvSetDone (set_done true st)).

(** [self.logger.warning(msg)]. *)
Definition logger_warning (msg : string) : M unit :=
  fun st => (Done tt, note (EvWarning msg) (set_logger (logger st ++ [msg]) st)).

(** [self.simulation_results.append(result)]. *)
Definition simulation_results_append (r : Result) : M unit :=
  fun st =>
    (Done tt, note (EvAppend r)
                   (set_simulation_results (simulation_results st ++ [r]) st)).

(** [RandomThinker.__init__].  [shuffle] stands for [random.shuffle]; the
    list it is given is [list(self.molecule_list)]. *)
Definition init (shuffle : list string -> list string) (q : PipeQueues.t)
    (n_to_evaluate : Z) (n_parallel : nat) (molecules : list string)
    : outcome unit * t :=
  let mols : gset string := list_to_set molecules in
  let st :=
    mk q (ResourceCounter.new n_parallel ["simulate"; "train"; "infer"]%string)
       false [] mols n_to_evaluate ∅ [] (shuffle (elements mols)) false 0 0 [] in
  rec_reallocate None "simulate" n_parallel st.

(** [RandomThinker.submit_calc]. *)
Definition submit_calc : M unit :=
  do next_mol <- with_priority_list_lock priority_list_pop in
  queues_send_inputs next_mol "compute_vertical" >>
  rec_progbar_update 1.

(** [RandomThinker.receive_calc]. *)
Definition receive_calc (result : Result) : M unit :=
  rec_release "simulate" 1 >>
  (if success result then
     do key <- result_arg0 result in
     database_store key (value result) >>
     sent_progbar_update 1 >>
     do n <- database_len in
     do target <- get_n_to_evaluate in
     if target <=? n then done_set else ret tt
   else
     logger_warning ("Simulation failure: " +:+ default "None" (failure_info result))) >>
  simulation_results_append result.

End RandomThinker.

(** ** The agents of the thinker *)

Module Agents.

(** The submitting agent waits for a slot, or holds one and is about to
    call its method, or has stopped on an exception. *)
Inductive submitter_state : Type :=
  | Waiting
  | Holding
  | SubmitterStopped (e : fault).

Inductive processor_state : Type :=
  | Listening
  | ProcessorStopped (e : fault).

(** The thinker with its two agents.  [consumed] is a ghost field: the
    results handed to [receive_calc] so far. *)
Record t : Type := mk {
  thinker : RandomThinker.t;
  submitter : submitter_state;
  processor : processor_state;
  consumed : list Result
}.

(** The arguments of the decorators: [@task_submitter(task_type='simulate',
    n_slots=1)] and [@result_processor] on the default topic. *)
Definition task_type : string := "simulate".
Definition n_slots : nat := 1.
Definition result_topic : string := "default".

Inductive action : Type :=
  | SubmitterAcquire
  | SubmitterCall
  | BackendComplete (i : nat) (rp : PipeQueues.report)
  | ProcessorResult
  | ProcessorTimeout.

(** Modelled from the spec: the agent loops of section 4.3, one atomic
    step of one agent (or of the backend) at a time.  The submitting agent
    loops while termination is unset: acquire the slots, then call the
    method.  The result-processing agent loops while termination is
    unset: receive on its topic, call the method on a real result, loop
    again on a time-out.  An exception stops the agent.  [None]: the step
    cannot be taken in this state.  What the runtime does with results
    that are still in flight when termination is set is not part of
    this model. *)
Definition step (s : t) (a : action) : option t :=
  let st := thinker s in
  match a with
  | SubmitterAcquire =>
      match submitter s with
      | Waiting =>
          if RandomThinker.done st then None
          else
            match RandomThinker.rec_acquire task_type n_slots st with
            | (Done _, st') => Some (mk st' Holding (processor s) (consumed s))
            | (Blocked, _) => None
            | (Raise e, st') =>
                Some (mk st' (SubmitterStopped e) (processor s) (consumed s))
            end
      | _ => None
      end
  | SubmitterCall =>
      match submitter s with
      | Holding =>
          match RandomThinker.submit_calc st with
          | (Done _, st') => Some (mk st' Waiting (processor s) (consumed s))
          | (Blocked, _) => None
          | (Raise e, st') =>
              Some (mk st' (SubmitterStopped e) (processor s) (consumed s))
          end
      | _ => None
      end
  | BackendComplete i rp =>
      if decide (i < length (PipeQueues.active (RandomThinker.queues st)))%nat
      then Some (mk (RandomThinker.set_queues
                       (PipeQueues.complete (RandomThinker.queues st) i rp) st)
                    (submitter s) (processor s) (consumed s))
      else None
  | ProcessorResult =>
      match processor s with
      | Listening =>
          if RandomThinker.done st then None
          else
            match PipeQueues.poll (RandomThinker.queues st) result_topic with
            | Some (r, q') =>
                match RandomThinker.receive_calc r (RandomThinker.set_queues q' st) with
                | (Done _, st') =>
                    Some (mk st' (submitter s) Listening (consumed s ++ [r]))
                | (Blocked, _) => None
                | (Raise e, st') =>
                    Some (mk st' (submitter s) (ProcessorStopped e) (consumed s ++ [r]))
                end
            | None => None
            end
      | _ => None
      end
  | ProcessorTimeout =>
      match processor s with
      | Listening =>
          if RandomThinker.done st then None
          else
            match PipeQueues.poll (RandomThinker.queues st) result_topic with
            | Some _ => None
            | None => Some s
            end
      | _ => None
      end
  end.

(** The thinker as [RandomThinker(queues, n_to_evaluate, n_parallel,
    molecules)] builds it, on a fresh queue, before [run()] starts its
    agents. *)
Definition start (shuffle : list string -> list string) (names : list string)
    (n_to_evaluate : Z) (n_parallel : nat) (molecules : list string) : option t :=
  match RandomThinker.init shuffle (PipeQueues.new names)
                           n_to_evaluate n_parallel molecules with
  | (Done _, st) => Some (mk st Waiting Listening [])
  | _ => None
  end.

(** A schedule of steps; a step that cannot be taken is skipped. *)
Definition run (s : t) (sched : list action) : t :=
  fold_left (fun s a => default s (step s a)) sched s.

Inductive reachable (s0 : t) : t -> Prop :=
  | reach_start : reachable s0 s0
  | reach_step s a s' : reachable s0 s -> step s a = Some s' -> reachable s0 s'.

(** Tasks submitted whose result has not been processed yet. *)
Definition outstanding (s : t) : nat :=
  let q := RandomThinker.queues (thinker s) in
  (length (PipeQueues.active q) + length (PipeQueues.buffer q result_topic))%nat.

(** The molecules popped from the priority list so far, oldest first. *)
Definition sent (st : RandomThinker.t) : list string :=
  omap (fun e => match e with RandomThinker.EvPop mol => Some mol | _ => None end)
       (RandomThinker.history st).

(** The slot the submitting agent holds between [acquire] and the end of
    its method; an agent stopped by an exception keeps it. *)
Definition holding (p : submitter_state) : nat :=
  match p with Waiting => 0 | _ => 1 end.

(** How often an effect occurs in the history. *)
Definition count (p : RandomThinker.event -> bool) (st : RandomThinker.t) : nat :=
  length (List.filter p (RandomThinker.history st)).

Definition is_acquire (e : RandomThinker.event) : bool :=
  match e with RandomThinker.EvAcquire _ _ => true | _ => false end.
Definition is_release (e : RandomThinker.event) : bool :=
  match e with RandomThinker.EvRelease _ _ => true | _ => false end.
Definition is_send (e : RandomThinker.event) : bool :=
  match e with RandomThinker.EvSend _ _ _ => true | _ => false end.
Definition is_set_done (e : RandomThinker.event) : bool :=
  match e with RandomThinker.EvSetDone => true | _ => false end.

(** The keys under which the results of a list are stored. *)
Definition stored (rs : list Result) : list string :=
  omap (fun r => if success r then head (args r) else None) rs.

(** What holds of the thinker and its agents in every state of a run:
    [n_parallel] slots, [pl0] the priority list at the start, [target] the
    number of molecules to evaluate. *)
Record invariant (n_parallel : nat) (pl0 : list string) (target : Z) (s : t)
    : Prop := {
  inv_rec : ResourceCounter.invariant (RandomThinker.rec (thinker s));
  inv_pool :
    ResourceCounter.allocated (RandomThinker.rec (thinker s)) !! task_type =
      Some (Z.of_nat n_parallel);
  inv_in_use :
    ResourceCounter.in_use (RandomThinker.rec (thinker s)) task_type =
      Z.of_nat (outstanding s + holding (submitter s));
  inv_lock : RandomThinker.priority_list_lock (thinker s) = false;
  inv_topics :
    Forall (fun tk => PipeQueues.task_topic tk = result_topic)
           (PipeQueues.active (RandomThinker.queues (thinker s)));
  inv_tasks :
    (PipeQueues.task_args <$> PipeQueues.active (RandomThinker.queues (thinker s)))
      ++ (args <$> PipeQueues.buffer (RandomThinker.queues (thinker s)) result_topic)
      ++ (args <$> consumed s)
    ≡ₚ (fun mol => [mol]) <$> sent (thinker s);
  inv_priority :
    RandomThinker.priority_list (thinker s) ++ reverse (sent (thinker s)) = pl0;
  inv_log : RandomThinker.simulation_results (thinker s) = consumed s;
  inv_processor : processor s = Listening;
  inv_submitter :
    forall e, submitter s = SubmitterStopped e ->
      e = IndexError "pop from empty list" /\
      RandomThinker.priority_list (thinker s) = [];
  inv_database :
    dom (RandomThinker.database (thinker s)) = list_to_set (stored (consumed s));
  inv_done :
    0 < target ->
    RandomThinker.done (thinker s) =
      bool_decide (target <= Z.of_nat (size (RandomThinker.database (thinker s))));
  inv_size :
    0 < target -> Z.of_nat (size (RandomThinker.database (thinker s))) <= target;
  inv_target : RandomThinker.n_to_evaluate (thinker s) = target;
  inv_acquired : count is_acquire (thinker s) =
                 (length (sent (thinker s)) + holding (submitter s))%nat;
  inv_sent : count is_send (thinker s) = length (sent (thinker s));
  inv_released : count is_release (thinker s) = length (consumed s);
  inv_set_done :
    count is_set_done (thinker s) =
      if RandomThinker.done (thinker s) then 1%nat else 0%nat
}.

(** The priority list [__init__] builds: the molecules without
    duplicates, shuffled. *)
Definition initial_priority_list (shuffle : list string -> list string)
    (molecules : list string) : list string :=
  shuffle (elements (list_to_set molecules : gset string)).

(** The warning [receive_calc] logs for a failed result. *)
Definition failure_message (r : Result) : string :=
  "Simulation failure: " +:+ default "None" (failure_info r).

(** The effects of [receive_calc] after the release of the slot. *)
Definition after_release (target : Z) (db : gmap string (option Z))
    (mol : string) (r : Result) : list RandomThinker.event :=
  if success r then
    [RandomThinker.EvStore mol (value r); RandomThinker.EvProgress "successful" 1] ++
    (if target <=? Z.of_nat (size (<[mol := value r]> db))
     then [RandomThinker.EvSetDone] else []) ++
    [RandomThinker.EvAppend r]
  else [RandomThinker.EvWarning (failure_message r); RandomThinker.EvAppend r].

(** The tasks handed to the queue so far, oldest first: one for every
    [send_inputs] the thinker performed. *)
Definition submitted (st : RandomThinker.t) : list PipeQueues.task :=
  omap (fun e => match e with
                 | RandomThinker.EvSend meth inputs name =>
                     Some (PipeQueues.mkTask meth inputs name)
                 | _ => None
                 end)
       (RandomThinker.history st).

(** The task [submit_calc] sends for a molecule. *)
Definition simulation_task (mol : string) : PipeQueues.task :=
  PipeQueues.mkTask "compute_vertical" [mol] "default".

(** The termination signal is set by the processing of a result exactly
    when the result is a success and the size of the database is then
    [n_to_evaluate], whatever [n_to_evaluate] is. *)
Definition signal_exactly_at_target : Prop :=
  forall shuffle names n_to_evaluate n_parallel molecules s0 s r q1,
    (forall l, shuffle l ≡ₚ l) ->
    start shuffle names n_to_evaluate n_parallel molecules = Some s0 ->
    reachable s0 s ->
    RandomThinker.done (thinker s) = false ->
    PipeQueues.poll (RandomThinker.queues (thinker s)) result_topic = Some (r, q1) ->
    exists s',
      step s ProcessorResult = Some s' /\
      (RandomThinker.done (thinker s') = true <->
       success r = true /\
       Z.of_nat (size (RandomThinker.database (thinker s'))) = n_to_evaluate).

End Agents.

(** ** The replacement loop of the Parsl notebook *)

Module ParslLoop.

(** A future of [compute_vertical_app(smiles)]; [fut_id] tells the
    objects apart. *)
Record future : Type := mkFuture { fut_id : nat; fut_smiles : string }.

Record row : Type := mkRow { smiles : string; ie : Z; batch : Z; time : Z }.

Record t : Type := mk {
  futures : list future;
  train_data : list row;
  printed : list string;
  launched : nat
}.

(** What the surroundings decide in one turn of the loop: the future that
    completes next, its exception or value, the row [sample(1)] draws,
    and the clock. *)
Record turn : Type := mkTurn {
  completes : nat;
  exception : option string;
  energy : Z;
  sampled : nat;
  now : Z
}.

(** The body of [while len(futures) > 0] of the first loop of the
    notebook.  [None]: the turn names no future of the list, or the search
    space has no row to sample. *)
Definition iteration (search_space : list string) (st : t) (tn : turn) : option t :=
  match futures st !! completes tn with
  | None => None
  | Some fut =>
      let rest := delete (completes tn) (futures st) in
      let mol := fut_smiles fut in
      match exception tn with
      | Some _ =>
          match search_space !! sampled tn with
          | None => None
          | Some new_mol =>
              Some (mk (rest ++ [mkFuture (launched st) new_mol])
                       (train_data st)
                       (printed st ++
                          ["Computation for " +:+ mol +:+
                           " failed, submitting a replacement computation"])
                       (S (launched st)))
          end
      | None =>
          Some (mk rest
                   (train_data st ++ [mkRow mol (energy tn) 0 (now tn)])
                   (printed st ++ ["Computation for " +:+ mol +:+ " succeeded"])
                   (launched st))
      end
  end.

(** The loop over a schedule of turns; it ends when no future is left. *)
Fixpoint loop (search_space : list string) (st : t) (turns : list turn) : option t :=
  match futures st, turns with
  | [], _ => Some st
  | _, [] => Some st
  | _, tn :: turns' =>
      match iteration search_space st tn with
      | Some st' => loop search_space st' turns'
      | None => None
      end
  end.

End ParslLoop.

(** ** Saved results *)

Module Json.

(** The JSON values a saved result holds: [null], a boolean, a number, a
    string, and the value of [inputs], the positional arguments followed
    by the (empty) keyword arguments. *)
Inductive value : Type :=
  | Null
  | Bool (b : bool)
  | Num (z : Z)
  | Str (s : string)
  | Inputs (args : list string).

(** An object: its members in the order they are written. *)
Definition object : Type := list (string * value).

Definition dquote : ascii := "034"%char.
Definition backslash : ascii := "092"%char.
Definition lf : ascii := "010"%char.
Definition cr : ascii := "013"%char.
Definition tab : ascii := "009"%char.

(** The body of a string literal: quotes, backslashes, line feeds,
    carriage returns and tabs are escaped. *)
Fixpoint escape (s : string) : string :=
  match s with
  | EmptyString => EmptyString
  | String c s' =>
      if Ascii.eqb c dquote then String backslash (String dquote (escape s'))
      else if Ascii.eqb c backslash then String backslash (String backslash (escape s'))
      else if Ascii.eqb c lf then String backslash (String "n" (escape s'))
      else if Ascii.eqb c cr then String backslash (String "r" (escape s'))
      else if Ascii.eqb c tab then String backslash (String "t" (escape s'))
      else String c (escape s')
  end.

Definition dumps_string (s : string) : string :=
  String dquote (escape s +:+ String dquote EmptyString).

Definition dumps_Z (z : Z) : string := NilEmpty.string_of_int (Z.to_int z).

Fixpoint dumps_strings (l : list string) : string :=
  match l with
  | [] => EmptyString
  | [s] => dumps_string s
  | s :: l' => dumps_string s +:+ ", " +:+ dumps_strings l'
  end.

Definition dumps_value (v : value) : string :=
  match v with
  | Null => "null"
  | Bool true => "true"
  | Bool false => "false"
  | Num z => dumps_Z z
  | Str s => dumps_string s
  | Inputs args => "[[" +:+ dumps_strings args +:+ "], {}]"
  end.

Definition dumps_member (kv : string * value) : string :=
  dumps_string (fst kv) +:+ ": " +:+ dumps_value (snd kv).

Fixpoint dumps_members (o : object) : string :=
  match o with
  | [] => EmptyString
  | [kv] => dumps_member kv
  | kv :: o' => dumps_member kv +:+ ", " +:+ dumps_members o'
  end.

(** The text of an object, on one line. *)
Definition dumps (o : object) : string := "{" +:+ dumps_members o +:+ "}".

(** Reading: strip a literal from the front of the text. *)
Fixpoint expect (lit s : string) : option string :=
  match lit, s with
  | EmptyString, _ => Some s
  | String a lit', String b s' => if Ascii.eqb a b then expect lit' s' else None
  | String _ _, EmptyString => None
  end.

Definition unescape_char (e : ascii) : option ascii :=
  if Ascii.eqb e dquote then Some dquote
  else if Ascii.eqb e backslash then Some backslash
  else if Ascii.eqb e "n" then Some lf
  else if Ascii.eqb e "r" then Some cr
  else if Ascii.eqb e "t" then Some tab
  else None.

(** The body of a string literal and the text after its closing quote. *)
Fixpoint parse_body (s : string) : option (string * string) :=
  match s with
  | EmptyString => None
  | String c s' =>
      if Ascii.eqb c dquote then Some (EmptyString, s')
      else if Ascii.eqb c backslash then
        match s' with
        | String e s'' =>
            match unescape_char e, parse_body s'' with
            | Some c', Some (body, rest) => Some (String c' body, rest)
            | _, _ => None
            end
        | EmptyString => None
        end
      else
        match parse_body s' with
        | Some (body, rest) => Some (String c body, rest)
        | None => None
        end
  end.

Definition parse_string (s : string) : option (string * string) :=
  match s with
  | String c s' => if Ascii.eqb c dquote then parse_body s' else None
  | EmptyString => None
  end.

Definition number_char (c : ascii) : bool :=
  Ascii.eqb c "-" || ((48 <=? nat_of_ascii c)%nat && (nat_of_ascii c <=? 57)%nat).

(** The longest prefix made of digits and signs, and the rest. *)
Fixpoint span_number (s : string) : string * string :=
  match s with
  | String c s' =>
      if number_char c
      then let '(digits, rest) := span_number s' in (String c digits, rest)
      else (EmptyString, s)
  | EmptyString => (EmptyString, EmptyString)
  end.

Definition parse_Z (s : string) : option (Z * string) :=
  match span_number s with
  | (EmptyString, _) => None
  | (digits, rest) =>
      match NilEmpty.int_of_string digits with
      | Some d => Some (Z.of_int d, rest)
      | None => None
      end
  end.

Fixpoint parse_strings (fuel : nat) (s : string) : option (list string * string) :=
  match fuel with
  | O => None
  | S fuel' =>
      match parse_string s with
      | Some (x, rest) =>
          match expect ", " rest with
          | Some rest' =>
              match parse_strings fuel' rest' with
              | Some (xs, rest'') => Some (x :: xs, rest'')
              | None => None
              end
          | None => Some ([x], rest)
          end
      | None => None
      end
  end.

Definition parse_inputs (s : string) : option (list string * string) :=
  match expect "[[" s with
  | Some rest =>
      match expect "], {}]" rest with
      | Some rest' => Some ([], rest')
      | None =>
          match parse_strings (String.length rest) rest with
          | Some (xs, rest') =>
              match expect "], {}]" rest' with
              | Some rest'' => Some (xs, rest'')
              | None => None
              end
          | None => None
          end
      end
  | None => None
  end.

Definition parse_value (s : string) : option (value * string) :=
  match s with
  | EmptyString => None
  | String c _ =>
      if Ascii.eqb c "n" then option_map (pair Null) (expect "null" s)
      else if Ascii.eqb c "t" then option_map (pair (Bool true)) (expect "true" s)
      else if Ascii.eqb c "f" then option_map (pair (Bool false)) (expect "false" s)
      else if Ascii.eqb c dquote then
        match parse_string s with
        | Some (x, rest) => Some (Str x, rest)
        | None => None
        end
      else if Ascii.eqb c "[" then
        match parse_inputs s with
        | Some (xs, rest) => Some (Inputs xs, rest)
        | None => None
        end
      else
        match parse_Z s with
        | Some (z, rest) => Some (Num z, rest)
        | None => None
        end
  end.

Definition parse_member (s : string) : option ((string * value) * string) :=
  match parse_string s with
  | Some (k, rest) =>
      match expect ": " rest with
      | Some rest' =>
          match parse_value rest' with
          | Some (v, rest'') => Some ((k, v), rest'')
          | None => None
          end
      | None => None
      end
  | None => None
  end.

Fixpoint parse_members (fuel : nat) (s : string) : option (object * string) :=
  match fuel with
  | O => None
  | S fuel' =>
      match parse_member s with
      | Some (kv, rest) =>
          match expect ", " rest with
          | Some rest' =>
              match parse_members fuel' rest' with
              | Some (o, rest'') => Some (kv :: o, rest'')
              | None => None
              end
          | None => Some ([kv], rest)
          end
      | None => None
      end
  end.

(** The object a line of text holds; [None] when the line is not the
    text of one object. *)
Definition loads (s : string) : option object :=
  match expect "{" s with
  | Some rest =>
      match expect "}" rest with
      | Some EmptyString => Some []
      | Some _ => None
      | None =>
          match parse_members (String.length rest) rest with
          | Some (o, rest') =>
              match expect "}" rest' with
              | Some EmptyString => Some o
              | _ => None
              end
          | None => None
          end
      end
  | None => None
  end.

(** Whether a text holds a line feed. *)
Fixpoint has_lf (s : string) : bool :=
  match s with
  | EmptyString => false
  | String c s' => Ascii.eqb c lf || has_lf s'
  end.

(** The lines of a text; a line ends at a line feed or at the end. *)
Fixpoint split_lines (s : string) : list string :=
  match s with
  | EmptyString => []
  | String c s' =>
      if Ascii.eqb c lf then EmptyString :: split_lines s'
      else
        match split_lines s' with
        | [] => [String c EmptyString]
        | l :: ls => String c l :: ls
        end
  end.

(** Texts made of the characters of a number only. *)
Definition starts_number (s : string) : bool :=
  match s with String c _ => number_char c | EmptyString => false end.

Fixpoint all_number (s : string) : bool :=
  match s with String c s' => number_char c && all_number s' | EmptyString => true end.

End Json.

Module Persist.

Definition optional {A : Type} (f : A -> Json.value) (o : option A) : Json.value :=
  match o with Some a => f a | None => Json.Null end.

(** Modelled from the spec: the members of a saved result, the record
    schema of section 6 under the names the notebooks read them by. *)
Definition fields (r : Result) : Json.object :=
  [("inputs"%string, Json.Inputs (args r));
   ("value"%string, optional Json.Num (value r));
   ("method"%string, Json.Str (method r));
   ("success"%string, Json.Bool (success r));
   ("failure_info"%string, optional Json.Str (failure_info r));
   ("topic"%string, Json.Str (topic r));
   ("time_created"%string, Json.Num (time_created r));
   ("time_compute_started"%string, Json.Num (time_compute_started r));
   ("time_compute_ended"%string, Json.Num (time_compute_ended r));
   ("time_result_received"%string, Json.Num (time_result_received r))].

(** The members left when those named in [exclude] are dropped. *)
Definition without (exclude : gset string) (o : Json.object) : Json.object :=
  List.filter (fun kv => negb (bool_decide (fst kv ∈ exclude))) o.

(** Modelled from the spec: [Result.json(exclude=...)]. *)
Definition json (exclude : gset string) (r : Result) : string :=
  Json.dumps (without exclude (fields r)).

(** [print(line, file=fp)]. *)
Definition print_to (fp : string) (line : string) : string :=
  fp +:+ line +:+ String Json.lf EmptyString.

(** The cell that saves [random_thinker.simulation_results]. *)
Definition save_random (simulation_results : list Result) : string :=
  fold_left (fun fp result => print_to fp (json ∅ result)) simulation_results
            EmptyString.

(** The cell that saves the results of the batched thinker: the
    simulation results, then the learning results without their inputs
    and values. *)
Definition save_batched (simulation_results learning_results : list Result)
    : string :=
  fold_left
    (fun fp result => print_to fp (json {["inputs"%string; "value"%string]} result))
    learning_results
    (fold_left (fun fp result => print_to fp (json ∅ result)) simulation_results
               EmptyString).

(** Modelled from the spec: [pd.read_json(path, lines=True)], one object
    per line of the file. *)
Definition read_json (text : string) : option (list Json.object) :=
  mapM Json.loads (Json.split_lines text).

Definition lookup_member (k : string) (o : Json.object) : option Json.value :=
  snd <$> List.find (fun kv => String.eqb (fst kv) k) o.

Definition get_Z (k : string) (o : Json.object) : option Z :=
  match lookup_member k o with Some (Json.Num z) => Some z | _ => None end.
Definition get_string (k : string) (o : Json.object) : option string :=
  match lookup_member k o with Some (Json.Str s) => Some s | _ => None end.
Definition get_bool (k : string) (o : Json.object) : option bool :=
  match lookup_member k o with Some (Json.Bool b) => Some b | _ => None end.
Definition get_inputs (k : string) (o : Json.object) : option (list string) :=
  match lookup_member k o with Some (Json.Inputs l) => Some l | _ => None end.
Definition get_optional {A : Type} (get : string -> Json.object -> option A)
    (k : string) (o : Json.object) : option (option A) :=
  match lookup_member k o with
  | Some Json.Null => Some None
  | Some _ => Some <$> get k o
  | None => None
  end.

(** The result a full record stands for. *)
Definition result_of (o : Json.object) : option Result :=
  m ← get_string "method" o;
  a ← get_inputs "inputs" o;
  tp ← get_string "topic" o;
  ok ← get_bool "success" o;
  v ← get_optional get_Z "value" o;
  f ← get_optional get_string "failure_info" o;
  t1 ← get_Z "time_created" o;
  t2 ← get_Z "time_compute_started" o;
  t3 ← get_Z "time_compute_ended" o;
  t4 ← get_Z "time_result_received" o;
  Some (mkResult m a tp ok v f t1 t2 t3 t4).

(** The members the record schema asks of every saved result: method,
    input, success flag, value or failure, and the three times. *)
Definition required : list string :=
  ["method"; "inputs"; "success"; "value"; "failure_info";
   "time_created"; "time_compute_started"; "time_compute_ended"]%string.

Definition carries (keys : list string) (o : Json.object) : bool :=
  forallb (fun k => bool_decide (is_Some (lookup_member k o))) keys.

(** The text made of lines, each ended by a line feed. *)
Definition lines_text (ls : list string) : string :=
  fold_right (fun l acc => l +:+ String Json.lf acc) EmptyString ls.

(** What the cell leaves out of a learning result, and the members of
    the record schema that remain. *)
Definition learning_exclude : gset string := {["inputs"%string; "value"%string]}.

Definition learning_keys : list string :=
  ["method"; "success"; "failure_info";
   "time_created"; "time_compute_started"; "time_compute_ended"]%string.

(** Every record of the file of the batched run carries every member of
    the record schema. *)
Definition every_record_complete : Prop :=
  forall sims learns,
  exists records,
    read_json (save_batched sims learns) = Some records /\
    Forall (fun o => carries required o = true) records.

Definition a_learning_result : Result :=
  mkResult "train_model" ["training set"%string] "train" true (Some 1) None 0 1 2 3.

End Persist.

(** ** The model-in-the-loop search of the Parsl notebook *)

Module ParslSearch.

(** The variables of the cell.  [prog_bar] counts the updates of the
    progress bar. *)
Record t : Type := mk {
  sim_futures : list ParslLoop.future;
  train_data : list ParslLoop.row;
  already_ran : gset string;
  prog_bar : Z;
  batch : Z;
  launched : nat
}.

(** The body of [while len(sim_futures) > 0], the loop that populates the
    initial set.  The molecule of the completed future joins [already_ran]
    whether it failed or not; the molecule sampled as a replacement is not
    looked up there. *)
Definition initial_iteration (search_space : list string) (start_time : Z)
    (st : t) (tn : ParslLoop.turn) : option t :=
  match sim_futures st !! ParslLoop.completes tn with
  | None => None
  | Some fut =>
      let rest := delete (ParslLoop.completes tn) (sim_futures st) in
      let mol := ParslLoop.fut_smiles fut in
      let ran := {[mol]} ∪ already_ran st in
      match ParslLoop.exception tn with
      | Some _ =>
          match search_space !! ParslLoop.sampled tn with
          | None => None
          | Some new_mol =>
              Some (mk (rest ++ [ParslLoop.mkFuture (launched st) new_mol])
                       (train_data st) ran (prog_bar st) (batch st) (S (launched st)))
          end
      | None =>
          Some (mk rest
                   (train_data st ++
                      [ParslLoop.mkRow mol (ParslLoop.energy tn) 0
                                       (ParslLoop.now tn - start_time)])
                   ran (prog_bar st + 1) (batch st) (launched st))
      end
  end.

Fixpoint initial_loop (search_space : list string) (start_time : Z) (st : t)
    (turns : list ParslLoop.turn) : option t :=
  match sim_futures st, turns with
  | [], _ => Some st
  | _, [] => Some st
  | _, tn :: turns' =>
      match initial_iteration search_space start_time st tn with
      | Some st' => initial_loop search_space start_time st' turns'
      | None => None
      end
  end.

(** [for smiles in predictions['smiles']]: submit the molecules that did
    not run yet, in the order of the predictions, and leave the loop once
    [batch_size] futures are held.  The test comes after the append. *)
Fixpoint select (batch_size : Z) (predictions : list string)
    (futures : list ParslLoop.future) (ran : gset string) (count : nat)
    : list ParslLoop.future * gset string * nat :=
  match predictions with
  | [] => (futures, ran, count)
  | smiles :: predictions' =>
      if decide (smiles ∈ ran) then select batch_size predictions' futures ran count
      else
        let futures' := futures ++ [ParslLoop.mkFuture count smiles] in
        let ran' := {[smiles]} ∪ ran in
        if batch_size <=? Z.of_nat (length futures')
        then (futures', ran', S count)
        else select batch_size predictions' futures' ran' (S count)
  end.

(** [for future in as_completed(sim_futures)]: a row for every future
    that raised no exception, in the order of completion.  [outcome] is
    the value of a future, [None] when it raised; [clock] is what
    [monotonic()] reads when its row is built. *)
Definition collect (outcome : ParslLoop.future -> option Z)
    (clock : ParslLoop.future -> Z) (start_time : Z) (batch : Z)
    (completed : list ParslLoop.future) : list ParslLoop.row :=
  omap (fun fut =>
          match outcome fut with
          | Some ie =>
              Some (ParslLoop.mkRow (ParslLoop.fut_smiles fut) ie batch
                                    (clock fut - start_time))
          | None => None
          end) completed.

(** What surrounds the loop: the molecules of the search space ranked by
    the model trained on the data so far, best first; the order in which
    futures complete; their values; and the clock. *)
Record world : Type := mkWorld {
  ranked : list ParslLoop.row -> list string;
  as_completed : list ParslLoop.future -> list ParslLoop.future;
  outcome : ParslLoop.future -> option Z;
  clock : ParslLoop.future -> Z
}.

(** The body of [while len(train_data) < search_count]. *)
Definition round (w : world) (batch_size : Z) (start_time : Z) (st : t) : t :=
  let predictions := ranked w (train_data st) in
  let '(futures, ran, count) :=
    select batch_size predictions [] (already_ran st) (launched st) in
  let new_results :=
    collect (outcome w) (clock w) start_time (batch st) (as_completed w futures) in
  mk futures (train_data st ++ new_results) ran
     (prog_bar st + Z.of_nat (length new_results)) (batch st + 1) count.

(** The loop, with a bound on the number of rounds; [None] when the bound
    is reached before the loop ends. *)
Fixpoint search (w : world) (search_count batch_size start_time : Z) (fuel : nat)
    (st : t) : option t :=
  if search_count <=? Z.of_nat (length (train_data st)) then Some st
  else
    match fuel with
    | O => None
    | S fuel' =>
        search w search_count batch_size start_time fuel'
               (round w batch_size start_time st)
    end.

(** The molecules of a list of futures. *)
Definition molecules (futures : list ParslLoop.future) : list string :=
  ParslLoop.fut_smiles <$> futures.

End ParslSearch.

(** ** The comparison of the runs *)

Module Contrast.

(** [sorted(...)] on strings: insertion into a sorted list. *)
Fixpoint insert_sorted (x : string) (l : list string) : list string :=
  match l with
  | [] => [x]
  | y :: l' => if String.leb x y then x :: l else y :: insert_sorted x l'
  end.

Definition sorted (l : list string) : list string :=
  foldr insert_sorted [] l.

(** [l.index(x)]: the position of the first element equal to [x]; [None]
    where Python raises [ValueError]. *)
Fixpoint index (l : list string) (x : string) : option nat :=
  match l with
  | [] => None
  | y :: l' => if String.eqb y x then Some 0%nat else S <$> index l' x
  end.

(** [unique_workers = sorted(set(results['worker_name']))]. *)
Definition unique_workers (worker_name : list string) : list string :=
  sorted (elements (list_to_set worker_name : gset string)).

(** [results['worker_name'].apply(unique_workers.index)]. *)
Definition worker_id (worker_name : list string) : list (option nat) :=
  index (unique_workers worker_name) <$> worker_name.

Definition n_workers (worker_name : list string) : nat :=
  length (unique_workers worker_name).

(** The wall times.  The times of a run are floating-point numbers in the
    notebook; the columns are computed here over any type of numbers with
    a comparison, a subtraction and an addition, so that what is proved of
    them rests on stated properties of these operations only. *)
Section Walltimes.

Variable number : Type.
Variable leb : number -> number -> bool.
Variables (sub add : number -> number -> number).

(** The columns of [results] the wall times are computed from. *)
Record timing : Type := mkTiming {
  time_compute_started : number;
  time_running : number;
  time_result_received : number
}.

Record walltime : Type := mkWalltime {
  walltime_start : number;
  walltime_finish : number;
  walltime_received : number
}.

(** The smaller of two numbers. *)
Definition smaller (a b : number) : number := if leb a b then a else b.

(** [column.min()]: [None] for an empty column. *)
Definition column_min (column : list number) : option number :=
  match column with
  | [] => None
  | x :: column' => Some (foldr smaller x column')
  end.

(** The three columns added to [results]. *)
Definition walltimes (results : list timing) : list walltime :=
  match column_min (time_compute_started <$> results) with
  | None => []
  | Some start_time =>
      (fun r =>
         let start := sub (time_compute_started r) start_time in
         mkWalltime start (add start (time_running r))
                    (sub (time_result_received r) start_time)) <$> results
  end.

End Walltimes.

Arguments mkTiming {number} _ _ _.
Arguments time_compute_started {number} _.
Arguments time_running {number} _.
Arguments time_result_received {number} _.
Arguments mkWalltime {number} _ _ _.
Arguments walltime_start {number} _.
Arguments walltime_finish {number} _.
Arguments walltime_received {number} _.
Arguments smaller {number} leb a b.
Arguments column_min {number} leb column.
Arguments walltimes {number} leb sub add results.

(** [results.query('method==compute_vertical and success')] on the records
    read from the file. *)
Definition is_simulation (o : Json.object) : bool :=
  match Persist.get_string "method" o, Persist.get_bool "success" o with
  | Some m, Some ok => String.eqb m "compute_vertical" && ok
  | _, _ => false
  end.

Definition colmena_mols (results : list Json.object) : list Json.object :=
  List.filter is_simulation results.

(** The results the query is about: successful runs of
    [compute_vertical]. *)
Definition simulated (r : Result) : bool :=
  String.eqb (method r) "compute_vertical" && success r.

(** [colmena_mols['inputs'].apply(lambda x: x[0][0])]: the first
    positional argument; [None] where the record has no inputs or no
    positional argument. *)
Definition smiles_of (o : Json.object) : option string :=
  match Persist.get_inputs "inputs" o with
  | Some (mol :: _) => Some mol
  | _ => None
  end.

(** [(mols['ie'] > thr).cumsum()]. *)
Fixpoint cumsum (acc : Z) (flags : list bool) : list Z :=
  match flags with
  | [] => []
  | b :: flags' =>
      let acc' := acc + (if b then 1 else 0) in acc' :: cumsum acc' flags'
  end.

Definition best_found (thr : Z) (ie : list Z) : list Z :=
  cumsum 0 ((fun x => thr <? x) <$> ie).

End Contrast.

(** ** Example runs *)

Module Example.

(** The topics of the notebook's queue. *)
Definition names : list string := ["simulate"; "train"; "infer"]%string.

(** Reports of the backend: a success with its value, and a failure. *)
Definition ok (v : Z) : PipeQueues.report :=
  PipeQueues.mkReport true (Some v) None 0 1 2 3.
Definition failed (why : string) : PipeQueues.report :=
  PipeQueues.mkReport false None (Some why) 0 1 2 3.

(** A shuffle that leaves the list as it is. *)
Definition keep (l : list string) : list string := l.

(** A thinker over three molecules that evaluates two of them on two
    slots, as [__init__] leaves it. *)
Definition molecules : list string := ["C"; "CC"; "CCC"]%string.
Definition thinker0 : Agents.t :=
  Agents.mk (snd (RandomThinker.init keep (PipeQueues.new names) 2 2 molecules))
            Agents.Waiting Agents.Listening [].

(** Both slots are taken by submitted tasks. *)
Definition both_sent : Agents.t :=
  Agents.run thinker0
    [Agents.SubmitterAcquire; Agents.SubmitterCall;
     Agents.SubmitterAcquire; Agents.SubmitterCall].

(** One task has succeeded and waits to be processed. *)
Definition one_succeeded : Agents.t :=
  Agents.run both_sent [Agents.BackendComplete 0 (ok 11)].

(** The first result is processed and the second task has succeeded. *)
Definition second_succeeded : Agents.t :=
  Agents.run one_succeeded [Agents.ProcessorResult; Agents.BackendComplete 0 (ok 12)].

(** One task has failed and waits to be processed. *)
Definition one_failed : Agents.t :=
  Agents.run both_sent [Agents.BackendComplete 0 (failed "no convergence")].

(** The results the backend builds in these runs: the molecule [C] is
    popped first, then [CC]. *)
Definition first_result : Result :=
  PipeQueues.result_of (PipeQueues.mkTask "compute_vertical" ["C"%string] "default") (ok 11).
Definition second_result : Result :=
  PipeQueues.result_of (PipeQueues.mkTask "compute_vertical" ["CC"%string] "default") (ok 12).
Definition failed_result : Result :=
  PipeQueues.result_of (PipeQueues.mkTask "compute_vertical" ["C"%string] "default")
                       (failed "no convergence").

(** The queue of a thinker once the oldest result of the default topic is
    taken. *)
Definition polled (s : Agents.t) : PipeQueues.t :=
  let q := RandomThinker.queues (Agents.thinker s) in
  PipeQueues.mk (PipeQueues.topics q) (PipeQueues.active q)
                (<["default"%string := tail (PipeQueues.buffer q "default")]>
                   (PipeQueues.results q)).

(** A thinker with a single molecule and two slots; the submitting agent
    holds the second slot when the priority list is empty. *)
Definition single0 : Agents.t :=
  Agents.mk (snd (RandomThinker.init keep (PipeQueues.new names) 2 2 ["C"%string]))
            Agents.Waiting Agents.Listening [].
Definition single_exhausted : Agents.t :=
  Agents.run single0
    [Agents.SubmitterAcquire; Agents.SubmitterCall; Agents.SubmitterAcquire].

(** A counter with two slots for [simulate], one of them acquired. *)
Definition counter_ops : list ResourceCounter.op :=
  [ResourceCounter.Reallocate None "simulate" 2; ResourceCounter.Acquire "simulate" 1].

(** A queue with one result buffered on each of two topics. *)
Definition queue_ops : list PipeQueues.op :=
  [PipeQueues.Send ["C"%string] "compute_vertical" "simulate";
   PipeQueues.Send ["CC"%string] "run_model" "infer";
   PipeQueues.Complete 1 (ok 7);
   PipeQueues.Complete 0 (ok 9)].

(** The queue of the demonstration cell after its task is sent, and a
    schedule in which the backend does nothing. *)
Definition sent_queue : PipeQueues.t :=
  PipeQueues.send_inputs (PipeQueues.new names) ["C"%string] "compute_vertical" "simulate".
Definition idle : list PipeQueues.tick := replicate 5 [].

(** The counter of [both_sent] after one slot is released. *)
Definition released : ResourceCounter.t :=
  ResourceCounter.after (RandomThinker.rec (Agents.thinker both_sent))
                        (ResourceCounter.Release "simulate" 1).

(** A thinker asked to evaluate no molecule at all, with the result of
    its first task waiting to be processed. *)
Definition target_zero0 : Agents.t :=
  Agents.mk (snd (RandomThinker.init keep (PipeQueues.new names) 0 2 molecules))
            Agents.Waiting Agents.Listening [].
Definition target_zero_ready : Agents.t :=
  Agents.run target_zero0
    [Agents.SubmitterAcquire; Agents.SubmitterCall; Agents.BackendComplete 0 (ok 11)].

(** The start, running time and receipt of three computations. *)
Definition timings : list (Contrast.timing Z) :=
  [Contrast.mkTiming 12 5 18; Contrast.mkTiming 10 3 14; Contrast.mkTiming 13 4 19].

(** The replacement loop on two futures: the second one fails and is
    replaced, then all three succeed. *)
Definition search_space : list string := ["N"; "O"]%string.
Definition loop_start : ParslLoop.t :=
  ParslLoop.mk [ParslLoop.mkFuture 0 "C"; ParslLoop.mkFuture 1 "CC"] [] [] 2.
Definition loop_turns : list ParslLoop.turn :=
  [ParslLoop.mkTurn 1 (Some "no convergence"%string) 0 1 5;
   ParslLoop.mkTurn 0 None 7 0 6;
   ParslLoop.mkTurn 0 None 8 0 9].
Definition loop_end : ParslLoop.t :=
  default loop_start (ParslLoop.loop search_space loop_start loop_turns).

(** The same turns in the loop that populates the initial set. *)
Definition initial_start : ParslSearch.t :=
  ParslSearch.mk [ParslLoop.mkFuture 0 "C"; ParslLoop.mkFuture 1 "CC"] [] ∅ 0 0 2.
Definition initial_end : ParslSearch.t :=
  default initial_start (ParslSearch.initial_loop search_space 0 initial_start loop_turns).

(** A world in which the model always ranks the same four molecules,
    futures complete in the order they were submitted, and the
    computation of [CC] fails. *)
Definition world0 : ParslSearch.world :=
  ParslSearch.mkWorld
    (fun _ => ["C"; "CC"; "CCC"; "N"]%string)
    (fun futures => futures)
    (fun fut => if String.eqb (ParslLoop.fut_smiles fut) "CC" then None else Some 5)
    (fun _ => 10).

(** The search after an initial set of one molecule. *)
Definition search0 : ParslSearch.t :=
  ParslSearch.mk [] [ParslLoop.mkRow "C" 3 0 1] {["C"%string]} 1 1 1.
Definition search_end : ParslSearch.t :=
  default search0 (ParslSearch.search world0 2 2 0 3 search0).

(** A world in which the model can only rank a molecule that has run. *)
Definition world1 : ParslSearch.world :=
  ParslSearch.mkWorld (fun _ => ["C"%string]) (fun futures => futures)
                      (fun _ => Some 5) (fun _ => 10).

End Example.

(** ** Proof tools *)

(** Reduce the projections and setters of the thinker's record. *)
Ltac fields :=
  cbn [Agents.thinker Agents.submitter Agents.processor Agents.consumed Agents.holding
       RandomThinker.queues RandomThinker.rec RandomThinker.done
       RandomThinker.logger RandomThinker.molecule_list
       RandomThinker.n_to_evaluate RandomThinker.database
       RandomThinker.simulation_results RandomThinker.priority_list
       RandomThinker.priority_list_lock RandomThinker.rec_progbar
       RandomThinker.sent_progbar RandomThinker.history
       RandomThinker.note RandomThinker.set_rec RandomThinker.set_queues
       RandomThinker.set_priority_list_lock] in *.

(** * Theorems *)

#[local] Set Warnings "-clear-no-such-hyp".

(** ** Facts about the resource counter *)

Section ResourceCounterFacts.
Import ResourceCounter.

Lemma sum_slots_empty : sum_slots ∅ = 0.
Proof. reflexivity. Qed.

Lemma sum_slots_insert_fresh (m : gmap string Z) k v :
  m !! k = None -> sum_slots (<[k := v]> m) = v + sum_slots m.
Proof.
  intros Hk. unfold sum_slots.
  rewrite map_fold_insert_L; [reflexivity | | exact Hk].
  intros; lia.
Qed.

Lemma sum_slots_delete (m : gmap string Z) k v :
  m !! k = Some v -> sum_slots m = v + sum_slots (delete k m).
Proof.
  intros Hk. unfold sum_slots.
  rewrite (map_fold_delete_L _ _ k v m); [reflexivity | | exact Hk].
  intros; lia.
Qed.

Lemma sum_slots_update (m : gmap string Z) k v v' :
  m !! k = Some v -> sum_slots (<[k := v']> m) = sum_slots m - v + v'.
Proof.
  intros Hk. rewrite (sum_slots_delete m k v Hk).
  rewrite <- (insert_delete_eq m k v').
  rewrite sum_slots_insert_fresh by apply lookup_delete_eq. lia.
Qed.

Lemma sum_slots_zero (X : gset string) : sum_slots (gset_to_gmap 0 X) = 0.
Proof.
  induction X as [|x X Hx IH] using set_ind_L.
  - rewrite gset_to_gmap_empty. reflexivity.
  - rewrite gset_to_gmap_union_singleton.
    rewrite sum_slots_insert_fresh; [lia|].
    apply lookup_gset_to_gmap_None. exact Hx.
Qed.

Lemma new_invariant total task_types : invariant (new total task_types).
Proof.
  split; simpl.
  - rewrite sum_slots_zero. lia.
  - lia.
  - reflexivity.
  - intros l held free Ha Hv.
    apply lookup_gset_to_gmap_Some in Ha.
    apply lookup_gset_to_gmap_Some in Hv. lia.
Qed.

Lemma dom_insert_present (m : gmap string Z) k v :
  is_Some (m !! k) -> dom (<[k := v]> m) = dom m.
Proof.
  apply dom_insert_lookup_L.
Qed.

Lemma acquire_invariant rc l n rc' :
  invariant rc -> acquire rc l n = Done rc' -> invariant rc'.
Proof.
  intros [Ht Hu Hd Hf]. unfold acquire.
  destruct (allocated rc !! l) as [held|] eqn:Ha; [|discriminate].
  destruct (available rc !! l) as [free|] eqn:Hv; [|discriminate].
  destruct (Z.leb_spec (Z.of_nat n) free) as [Hle|]; [|discriminate].
  intros [= <-]. split; simpl; [exact Ht | exact Hu | |].
  - rewrite dom_insert_present by eauto. exact Hd.
  - intros k h f Hk. destruct (decide (l = k)) as [<-|Hne].
    + rewrite lookup_insert_eq. intros [= <-].
      assert (h = held) as -> by congruence.
      specialize (Hf l held free Ha Hv). lia.
    + rewrite lookup_insert_ne by exact Hne. apply Hf. exact Hk.
Qed.

Lemma release_invariant rc l n rc' :
  invariant rc -> release rc l n = Done rc' -> invariant rc'.
Proof.
  intros [Ht Hu Hd Hf]. unfold release.
  destruct (allocated rc !! l) as [held|] eqn:Ha; [|discriminate].
  destruct (available rc !! l) as [free|] eqn:Hv; [|discriminate].
  destruct (Z.leb_spec (Z.of_nat n) (held - free)) as [Hle|]; [|discriminate].
  intros [= <-]. split; simpl; [exact Ht | exact Hu | |].
  - rewrite dom_insert_present by eauto. exact Hd.
  - intros k h f Hk. destruct (decide (l = k)) as [<-|Hne].
    + rewrite lookup_insert_eq. intros [= <-].
      assert (h = held) as -> by congruence.
      specialize (Hf l held free Ha Hv). lia.
    + rewrite lookup_insert_ne by exact Hne. apply Hf. exact Hk.
Qed.

Lemma reallocate_invariant rc from to n rc' :
  invariant rc -> reallocate rc from to n = Done rc' -> invariant rc'.
Proof.
  intros [Ht Hu Hd Hf]. unfold reallocate.
  destruct (allocated rc !! to) as [to_held|] eqn:Hta; [|discriminate].
  destruct (available rc !! to) as [to_free|] eqn:Htv; [|discriminate].
  destruct from as [src|].
  - destruct (allocated rc !! src) as [held|] eqn:Ha; [|discriminate].
    destruct (available rc !! src) as [free|] eqn:Hv; [|discriminate].
    destruct (Z.leb_spec (Z.of_nat n) held) as [Hle|]; [|discriminate]. simpl.
    destruct (Z.leb_spec (Z.of_nat n) free) as [Hle'|]; [|discriminate]. simpl.
    destruct (String.eqb_spec src to) as [->|Hne].
    { intros [= <-]. split; assumption. }
    intros [= <-]. split; simpl.
    + rewrite (sum_slots_update _ to to_held).
      2:{ rewrite lookup_insert_ne by exact Hne. exact Hta. }
      rewrite (sum_slots_update _ src held) by exact Ha. lia.
    + exact Hu.
    + rewrite !dom_insert_present; [exact Hd|eauto..].
      * rewrite lookup_insert_ne by exact Hne. eauto.
      * rewrite lookup_insert_ne by exact Hne. eauto.
    + intros k h f.
      destruct (decide (to = k)) as [<-|Hk1].
      { rewrite !lookup_insert_eq. intros [= <-] [= <-].
        specialize (Hf to to_held to_free Hta Htv). lia. }
      rewrite !(lookup_insert_ne _ to) by exact Hk1.
      destruct (decide (src = k)) as [<-|Hk2].
      { rewrite !lookup_insert_eq. intros [= <-] [= <-].
        specialize (Hf src held free Ha Hv). lia. }
      rewrite !lookup_insert_ne by exact Hk2. apply Hf.
  - destruct (Z.leb_spec (Z.of_nat n) (unallocated rc)) as [Hle|]; [|discriminate].
    intros [= <-]. split; simpl.
    + rewrite (sum_slots_update _ to to_held) by exact Hta. lia.
    + lia.
    + rewrite !dom_insert_present by eauto. exact Hd.
    + intros k h f.
      destruct (decide (to = k)) as [<-|Hk1].
      { rewrite !lookup_insert_eq. intros [= <-] [= <-].
        specialize (Hf to to_held to_free Hta Htv). lia. }
      rewrite !lookup_insert_ne by exact Hk1. apply Hf.
Qed.

Lemma apply_invariant rc o rc' :
  invariant rc -> apply rc o = Done rc' -> invariant rc'.
Proof.
  destruct o; simpl; eauto using acquire_invariant, release_invariant, reallocate_invariant.
Qed.

Lemma after_invariant rc o : invariant rc -> invariant (after rc o).
Proof.
  intros Hi. unfold after. destruct (apply rc o) eqn:Ho; try exact Hi.
  eapply apply_invariant; eassumption.
Qed.

Lemma run_invariant ops : forall rc, invariant rc -> invariant (run rc ops).
Proof.
  induction ops as [|o ops IH]; intros rc Hi; simpl; [exact Hi|].
  apply IH, after_invariant, Hi.
Qed.

Lemma apply_total_slots rc o rc' :
  apply rc o = Done rc' -> total_slots rc' = total_slots rc.
Proof.
  destruct o; simpl; unfold acquire, release, reallocate;
    repeat (case_match; try discriminate); intros [= <-]; reflexivity.
Qed.

Lemma run_total_slots ops : forall rc, total_slots (run rc ops) = total_slots rc.
Proof.
  induction ops as [|o ops IH]; intros rc; simpl; [reflexivity|].
  rewrite IH. unfold after. destruct (apply rc o) eqn:Ho; try reflexivity.
  eapply apply_total_slots; eassumption.
Qed.

Lemma run_snoc rc ops o : run rc (ops ++ [o]) = after (run rc ops) o.
Proof. unfold run. rewrite fold_left_app. reflexivity. Qed.

Lemma reachable_run total task_types rc :
  reachable total task_types rc <-> exists ops, rc = run (new total task_types) ops.
Proof.
  split.
  - induction 1 as [|rc o rc' _ [ops ->] Ho].
    + exists []. reflexivity.
    + exists (ops ++ [o]). rewrite run_snoc. unfold after. rewrite Ho. reflexivity.
  - intros [ops ->]. induction ops as [|o ops IH] using rev_ind.
    + constructor.
    + rewrite run_snoc. unfold after.
      destruct (apply _ o) eqn:Ho; try exact IH.
      econstructor; eassumption.
Qed.

(** C1.  After any sequence of acquire, release and reallocate calls on a
    counter created with [total] slots, the slots allocated across all
    labels plus the unallocated slots equal [total]; the unallocated pool
    and every label's allocated count are never negative, and no label has
    a negative number of slots in use. *)
Theorem slots_conserved (total : nat) (task_types : list string) (ops : list op) :
  let rc := run (new total task_types) ops in
  sum_slots (allocated rc) + unallocated rc = Z.of_nat total /\
  0 <= unallocated rc /\
  (forall l held, allocated rc !! l = Some held -> 0 <= held) /\
  (forall l, 0 <= in_use rc l).
Proof.
  intros rc.
  assert (Hi : invariant rc) by apply run_invariant, new_invariant.
  destruct Hi as [Ht Hu Hd Hf].
  split; [|split; [exact Hu|split]].
  - rewrite Ht. unfold rc. rewrite run_total_slots. reflexivity.
  - intros l held Ha.
    assert (is_Some (available rc !! l)) as [free Hv].
    { apply elem_of_dom. rewrite Hd. apply elem_of_dom. eauto. }
    specialize (Hf l held free Ha Hv). lia.
  - intros l. unfold in_use.
    destruct (allocated rc !! l) as [held|] eqn:Ha;
      destruct (available rc !! l) as [free|] eqn:Hv; simpl.
    + specialize (Hf l held free Ha Hv). lia.
    + exfalso. apply (not_elem_of_dom (available rc) l) in Hv. apply Hv.
      rewrite Hd. apply elem_of_dom. eauto.
    + exfalso. apply (not_elem_of_dom (allocated rc) l) in Ha. apply Ha.
      rewrite <- Hd. apply elem_of_dom. eauto.
    + lia.
Qed.

Lemma release_in_use rc l n rc' :
  release rc l n = Done rc' ->
  Z.of_nat n <= in_use rc l /\ in_use rc' l = in_use rc l - Z.of_nat n.
Proof.
  unfold release, in_use.
  destruct (allocated rc !! l) as [held|] eqn:Ha; [|discriminate].
  destruct (available rc !! l) as [free|] eqn:Hv; [|discriminate].
  destruct (Z.leb_spec (Z.of_nat n) (held - free)) as [Hle|]; [|discriminate].
  intros [= <-]. simpl. rewrite Ha, lookup_insert_eq. simpl. lia.
Qed.

Lemma release_short rc l n :
  in_use rc l < Z.of_nat n ->
  release rc l n = Raise (AccountingFault l (in_use rc l) (Z.of_nat n)) \/
  release rc l n = Raise (UnknownLabel l).
Proof.
  unfold release, in_use. intros Hlt.
  destruct (allocated rc !! l) as [held|] eqn:Ha; [|right; reflexivity].
  destruct (available rc !! l) as [free|] eqn:Hv; [|right; reflexivity].
  simpl in *. destruct (Z.leb_spec (Z.of_nat n) (held - free)); [lia|].
  left. reflexivity.
Qed.

Lemma acquire_in_use rc l n rc' :
  acquire rc l n = Done rc' -> in_use rc' l = in_use rc l + Z.of_nat n.
Proof.
  unfold acquire, in_use.
  destruct (allocated rc !! l) as [held|] eqn:Ha; [|discriminate].
  destruct (available rc !! l) as [free|] eqn:Hv; [|discriminate].
  destruct (Z.leb_spec (Z.of_nat n) free) as [Hle|]; [|discriminate].
  intros [= <-]. simpl. rewrite Ha, lookup_insert_eq. simpl. lia.
Qed.

Lemma release_after_acquire rc l n rc' :
  invariant rc -> acquire rc l n = Done rc' -> is_done (release rc' l n) = true.
Proof.
  intros Hi Ha. pose proof (acquire_in_use _ _ _ _ Ha) as Hu.
  assert (Hnn : 0 <= in_use rc l).
  { destruct Hi as [_ _ _ Hf]. revert Ha. unfold acquire, in_use.
    destruct (allocated rc !! l) as [held|] eqn:Ha'; [|discriminate].
    destruct (available rc !! l) as [free|] eqn:Hv; [|discriminate].
    intros _. specialize (Hf l held free Ha' Hv). simpl. lia. }
  revert Ha Hu. unfold acquire, release, in_use.
  destruct (allocated rc !! l) as [held|] eqn:Ha'; [|discriminate].
  destruct (available rc !! l) as [free|] eqn:Hv; [|discriminate].
  destruct (Z.leb_spec (Z.of_nat n) free) as [Hle|]; [|discriminate].
  intros [= <-]. simpl. rewrite Ha', lookup_insert_eq. simpl. intros Hu.
  destruct (Z.leb_spec (Z.of_nat n) (held - (free - Z.of_nat n))); [reflexivity|].
  unfold in_use in Hnn. rewrite Ha', Hv in Hnn. simpl in Hnn. lia.
Qed.

(** C5.  After any sequence of calls, releasing [n] slots of a label that
    has fewer than [n] allocated, or fewer than [n] in use, raises the
    accounting fault that names the label and both counts (or the
    unknown-label fault) and leaves the counter unchanged.  A successful
    release lowers the slots in use by what was released; once everything
    in use is released, releasing again raises the fault, until an acquire
    makes a release possible again. *)
Theorem release_beyond_held_raises (total : nat) (task_types : list string)
    (ops : list op) (L : string) (n : nat) :
  let rc := run (new total task_types) ops in
  allocated_to rc L < Z.of_nat n \/ in_use rc L < Z.of_nat n ->
  (release rc L n = Raise (AccountingFault L (in_use rc L) (Z.of_nat n)) \/
   release rc L n = Raise (UnknownLabel L)) /\
  after rc (Release L n) = rc /\
  (forall k rc1, release rc L k = Done rc1 ->
     in_use rc1 L = in_use rc L - Z.of_nat k /\
     (in_use rc L = Z.of_nat k -> (0 < n)%nat ->
      release rc1 L n = Raise (AccountingFault L 0 (Z.of_nat n)) /\
      forall rc2, acquire rc1 L n = Done rc2 -> is_done (release rc2 L n) = true)).
Proof.
  intros rc Hshort.
  assert (Hi : invariant rc) by apply run_invariant, new_invariant.
  assert (Hlt : in_use rc L < Z.of_nat n).
  { destruct Hshort as [Hlt|Hlt]; [|exact Hlt].
    revert Hlt. unfold allocated_to, in_use. destruct Hi as [_ _ Hd Hf].
    destruct (allocated rc !! L) as [held|] eqn:Ha;
      destruct (available rc !! L) as [free|] eqn:Hv; simpl; try lia.
    - specialize (Hf L held free Ha Hv). lia.
    - exfalso. apply (not_elem_of_dom (allocated rc) L) in Ha. apply Ha.
      rewrite <- Hd. apply elem_of_dom. eauto. }
  pose proof (release_short rc L n Hlt) as Hr.
  split; [exact Hr|]. split.
  { unfold after. simpl. destruct Hr as [-> | ->]; reflexivity. }
  intros k rc1 Hk. destruct (release_in_use _ _ _ _ Hk) as [Hle Hu].
  split; [exact Hu|]. intros Hall Hpos.
  assert (Hi1 : invariant rc1) by (eapply release_invariant; eassumption).
  split.
  - assert (Hz : in_use rc1 L = 0) by lia.
    destruct (release_short rc1 L n) as [Hf|Hf]; [lia| |].
    + rewrite Hf, Hz. reflexivity.
    + exfalso. revert Hk Hf. unfold release.
      destruct (allocated rc !! L) as [held|] eqn:Ha; [|discriminate].
      destruct (available rc !! L) as [free|] eqn:Hv; [|discriminate].
      destruct (Z.leb_spec (Z.of_nat k) (held - free)); [|discriminate].
      intros [= <-]. simpl. rewrite Ha, lookup_insert_eq.
      destruct (_ <=? _); discriminate.
  - intros rc2 Ha. eapply release_after_acquire; eassumption.
Qed.

End ResourceCounterFacts.

(** ** Facts about the queues *)

Section PipeQueuesFacts.
Import PipeQueues.

Lemma buffer_send q inputs meth name other :
  buffer (send_inputs q inputs meth name) other = buffer q other.
Proof. reflexivity. Qed.

Lemma buffer_deliver q r name :
  buffer (deliver q r) name =
  if decide (topic r = name) then buffer q name ++ [r] else buffer q name.
Proof.
  unfold deliver, buffer at 1. simpl. case_decide as Hn.
  - subst name. rewrite lookup_insert_eq. reflexivity.
  - rewrite lookup_insert_ne by exact Hn. reflexivity.
Qed.

Lemma buffer_complete q i rp name :
  buffer q name `prefix_of` buffer (complete q i rp) name.
Proof.
  unfold complete. destruct (active q !! i) as [tk|]; [|reflexivity].
  rewrite buffer_deliver. case_decide.
  - apply prefix_app_r. reflexivity.
  - reflexivity.
Qed.

Lemma sorted_complete q i rp :
  sorted_by_topic q -> sorted_by_topic (complete q i rp).
Proof.
  intros Hs name r. unfold complete.
  destruct (active q !! i) as [tk|]; [|apply Hs].
  rewrite buffer_deliver. case_decide as Hn.
  - intros [Hin | ->%list_elem_of_singleton]%elem_of_app; [|exact Hn].
    apply Hs. exact Hin.
  - apply Hs.
Qed.

Lemma buffer_advance tk : forall q name,
  buffer q name `prefix_of` buffer (advance q tk) name.
Proof.
  induction tk as [|c tk IH]; intros q name; simpl; [reflexivity|].
  etransitivity; [apply buffer_complete | apply IH].
Qed.

Lemma sorted_advance tk : forall q,
  sorted_by_topic q -> sorted_by_topic (advance q tk).
Proof.
  induction tk as [|c tk IH]; intros q Hs; simpl; [exact Hs|].
  apply IH, sorted_complete, Hs.
Qed.

Lemma poll_Some q name r q' :
  poll q name = Some (r, q') ->
  buffer q name = r :: buffer q' name /\
  (forall other, other <> name -> buffer q' other = buffer q other) /\
  active q' = active q.
Proof.
  unfold poll. destruct (buffer q name) as [|r0 rest] eqn:Hb; [discriminate|].
  intros [= <- <-]. split; [|split; [|reflexivity]].
  - unfold buffer. simpl. rewrite lookup_insert_eq. reflexivity.
  - intros other Hne. unfold buffer. simpl.
    rewrite lookup_insert_ne by congruence. reflexivity.
Qed.

Lemma poll_None q name : poll q name = None <-> buffer q name = [].
Proof. unfold poll. destruct (buffer q name); split; congruence. Qed.

Lemma sorted_poll q name r q' :
  sorted_by_topic q -> poll q name = Some (r, q') ->
  sorted_by_topic q' /\ topic r = name.
Proof.
  intros Hs Hp. destruct (poll_Some _ _ _ _ Hp) as (Hb & Ho & _). split.
  - intros other x Hin. destruct (decide (other = name)) as [->|Hne].
    + apply Hs. rewrite Hb. right. exact Hin.
    + apply Hs. rewrite <- (Ho other Hne). exact Hin.
  - apply Hs. rewrite Hb. left.
Qed.

Lemma get_result_spec name timeout : forall q env out q' waited env',
  get_result q name timeout env = (out, q', waited, env') ->
  (waited <= timeout)%nat /\
  (sorted_by_topic q -> sorted_by_topic q' /\ on_topic name out) /\
  (forall other, other <> name -> buffer q other `prefix_of` buffer q' other).
Proof.
  induction timeout as [|timeout IH]; intros q env out q' waited env'; simpl.
  - destruct (poll q name) as [[r q1]|] eqn:Hp; intros [= <- <- <- <-].
    + split; [lia|]. split.
      * intros Hs. apply (sorted_poll _ _ _ _ Hs Hp).
      * intros other Hne. destruct (poll_Some _ _ _ _ Hp) as (_ & Ho & _).
        rewrite Ho by exact Hne. reflexivity.
    + split; [lia|]. split; [intros Hs; split; [exact Hs|exact I]|reflexivity].
  - destruct (poll q name) as [[r q1]|] eqn:Hp.
    + intros [= <- <- <- <-]. split; [lia|]. split.
      * intros Hs. apply (sorted_poll _ _ _ _ Hs Hp).
      * intros other Hne. destruct (poll_Some _ _ _ _ Hp) as (_ & Ho & _).
        rewrite Ho by exact Hne. reflexivity.
    + destruct (get_result (advance q (hd [] env)) name timeout (tl env))
        as [[[out1 q1] w1] env1] eqn:Hg.
      intros [= <- <- <- <-].
      destruct (IH _ _ _ _ _ _ Hg) as (Hw & Hs1 & Hpre).
      split; [lia|]. split.
      * intros Hs. apply Hs1, sorted_advance, Hs.
      * intros other Hne. etransitivity; [apply buffer_advance|apply Hpre, Hne].
Qed.

Lemma get_result_buffered q name r rest timeout env :
  buffer q name = r :: rest ->
  exists q', get_result q name timeout env = (Got r, q', 0%nat, env) /\
             buffer q' name = rest.
Proof.
  intros Hb.
  assert (Hp : poll q name =
            Some (r, mk (topics q) (active q) (<[name := rest]> (results q)))).
  { unfold poll. rewrite Hb. reflexivity. }
  eexists. split.
  - destruct timeout; simpl; rewrite Hp; reflexivity.
  - unfold buffer. simpl. rewrite lookup_insert_eq. reflexivity.
Qed.

Lemma get_result_timeout name timeout : forall q env,
  (forall k, (k <= timeout)%nat -> buffer (elapse q env k) name = []) ->
  get_result q name timeout env =
    (NoResult, elapse q env timeout, timeout, drop timeout env).
Proof.
  induction timeout as [|timeout IH]; intros q env Hnone; simpl.
  - assert (Hp : poll q name = None) by (apply poll_None, (Hnone 0%nat); lia).
    rewrite Hp, drop_0. reflexivity.
  - assert (Hp : poll q name = None) by (apply poll_None, (Hnone 0%nat); lia).
    rewrite Hp, IH.
    + destruct env; [simpl; rewrite !drop_nil|]; reflexivity.
    + intros k Hk. apply (Hnone (S k)). lia.
Qed.

Lemma new_sorted names : sorted_by_topic (new names).
Proof. intros name r. unfold buffer. simpl. rewrite lookup_empty. simpl. inversion 1. Qed.

Lemma apply_sorted q o : sorted_by_topic q -> sorted_by_topic (apply q o).
Proof.
  intros Hs. destruct o as [inputs meth name|i rp|name timeout env]; simpl.
  - exact Hs.
  - apply sorted_complete, Hs.
  - destruct (get_result q name timeout env) as [[[out q'] w] env'] eqn:Hg.
    destruct (get_result_spec _ _ _ _ _ _ _ _ Hg) as (_ & Hs' & _).
    apply Hs', Hs.
Qed.

Lemma run_sorted ops : forall q, sorted_by_topic q -> sorted_by_topic (run q ops).
Proof.
  induction ops as [|o ops IH]; intros q Hs; simpl; [exact Hs|].
  apply IH, apply_sorted, Hs.
Qed.

Lemma apply_keeps q o name :
  receives_on name o = false -> buffer q name `prefix_of` buffer (apply q o) name.
Proof.
  destruct o as [inputs meth n|i rp|n timeout env]; simpl; intros Hr.
  - reflexivity.
  - apply buffer_complete.
  - destruct (get_result q n timeout env) as [[[out q'] w] env'] eqn:Hg.
    destruct (get_result_spec _ _ _ _ _ _ _ _ Hg) as (_ & _ & Hpre).
    apply Hpre. apply bool_decide_eq_false in Hr. congruence.
Qed.

Lemma run_keeps ops name : forall q,
  forallb (fun o => negb (receives_on name o)) ops = true ->
  buffer q name `prefix_of` buffer (run q ops) name.
Proof.
  induction ops as [|o ops IH]; intros q Hall; simpl; [reflexivity|].
  simpl in Hall. apply andb_prop in Hall as [Ho Hall].
  etransitivity; [apply apply_keeps|apply IH, Hall].
  apply negb_true_iff, Ho.
Qed.

Lemma complete_delivers q i rp tk :
  active q !! i = Some tk ->
  buffer (complete q i rp) (task_topic tk) =
    buffer q (task_topic tk) ++ [result_of tk rp] /\
  (forall B, B <> task_topic tk -> buffer (complete q i rp) B = buffer q B) /\
  active (complete q i rp) = delete i (active q).
Proof.
  intros Htk. unfold complete. rewrite Htk. split; [|split; [|reflexivity]].
  - rewrite buffer_deliver. simpl. rewrite decide_True by reflexivity. reflexivity.
  - intros B Hne. rewrite buffer_deliver. simpl.
    rewrite decide_False by congruence. reflexivity.
Qed.

Lemma sent_task_delivered q inputs meth B rp later :
  forallb (fun o => negb (receives_on B o)) later = true ->
  buffer q B ++ [result_of (mkTask meth inputs B) rp]
    `prefix_of`
    buffer (run (complete (send_inputs q inputs meth B) (length (active q)) rp) later) B.
Proof.
  intros Hall.
  assert (Htk : active (send_inputs q inputs meth B) !! length (active q) =
                Some (mkTask meth inputs B)).
  { simpl. apply list_lookup_middle. reflexivity. }
  destruct (complete_delivers _ _ rp _ Htk) as (Hb & _).
  simpl in Hb. rewrite buffer_send in Hb. rewrite <- Hb.
  apply run_keeps, Hall.
Qed.

(** C2.  On a queue reached by any interleaving of submissions,
    completions and receives, a receive on topic [A] returns only a result
    whose topic is [A]; it leaves the buffer of every other topic [B] in
    place (the old buffer is a prefix of the new one); operations that do
    not receive on [B] never remove a result buffered for [B]; and a
    result buffered for [B] is what the next receive on [B] returns, at
    once.  The completion of a task puts its result at the end of the
    buffer of the topic of the task and changes no other buffer.  So the
    result of a task sent on [B] and completed is in the buffer of [B],
    behind the results that were there, whatever is sent, completed or
    received on other topics meanwhile, and when nothing was buffered for
    [B] it is what the next receive on [B] returns. *)
Theorem topic_isolation (names : list string) (ops : list op) (A : string)
    (timeout : nat) (env : list tick) :
  let q := run (new names) ops in
  forall out q' waited env',
    get_result q A timeout env = (out, q', waited, env') ->
    (forall r, out = Got r -> topic r = A) /\
    (forall B, B <> A -> buffer q B `prefix_of` buffer q' B) /\
    (forall B later,
       forallb (fun o => negb (receives_on B o)) later = true ->
       buffer q B `prefix_of` buffer (run q later) B) /\
    (forall B r rest t e,
       buffer q B = r :: rest ->
       exists q1, get_result q B t e = (Got r, q1, 0%nat, e) /\ buffer q1 B = rest) /\
    (forall i rp tk,
       active q !! i = Some tk ->
       buffer (complete q i rp) (task_topic tk) =
         buffer q (task_topic tk) ++ [result_of tk rp] /\
       (forall B, B <> task_topic tk -> buffer (complete q i rp) B = buffer q B) /\
       active (complete q i rp) = delete i (active q)) /\
    (forall inputs meth B rp later,
       forallb (fun o => negb (receives_on B o)) later = true ->
       buffer q B ++ [result_of (mkTask meth inputs B) rp]
         `prefix_of`
         buffer (run (complete (send_inputs q inputs meth B) (length (active q)) rp)
                     later) B /\
       (buffer q B = [] ->
        forall t e, exists q3,
          get_result (run (complete (send_inputs q inputs meth B) (length (active q)) rp)
                          later) B t e =
            (Got (result_of (mkTask meth inputs B) rp), q3, 0%nat, e))).
Proof.
  intros q out q' waited env' Hg.
  assert (Hs : sorted_by_topic q) by apply run_sorted, new_sorted.
  destruct (get_result_spec _ _ _ _ _ _ _ _ Hg) as (_ & Hs' & Hpre).
  destruct (Hs' Hs) as [_ Hon].
  split; [|split; [exact Hpre|split; [|split; [|split]]]].
  - intros r ->. exact Hon.
  - intros B later Hall. apply run_keeps, Hall.
  - intros B r rest t e Hb. apply get_result_buffered, Hb.
  - intros i rp tk Htk. apply complete_delivers, Htk.
  - intros inputs meth B rp later Hall.
    pose proof (sent_task_delivered q inputs meth B rp later Hall) as Hpre'.
    split; [exact Hpre'|]. intros Hnil t e. rewrite Hnil in Hpre'. simpl in Hpre'.
    destruct Hpre' as [rest Hrest].
    destruct (get_result_buffered _ _ _ _ t e Hrest) as (q3 & Hq3 & _). eauto.
Qed.

Lemma get_result_waited q name timeout env :
  let '(_, _, waited, _) := get_result q name timeout env in (waited <= timeout)%nat.
Proof.
  destruct (get_result q name timeout env) as [[[out q'] w] env'] eqn:Hg.
  apply (get_result_spec _ _ _ _ _ _ _ _ Hg).
Qed.

End PipeQueuesFacts.

Section QueueDemoFacts.
Import PipeQueues QueueDemo.

Lemma served_complete rp q i rp' : served rp q -> complete q i rp' = q.
Proof. intros (Ha & _). unfold complete. rewrite Ha. reflexivity. Qed.

Lemma served_advance rp tk : forall q, served rp q -> advance q tk = q.
Proof.
  induction tk as [|c tk IH]; intros q Hs; simpl; [reflexivity|].
  rewrite (served_complete rp) by exact Hs. apply IH, Hs.
Qed.

Lemma served_elapse rp k : forall q env, served rp q -> elapse q env k = q.
Proof.
  induction k as [|k IH]; intros q env Hs; simpl; [reflexivity|].
  rewrite (served_advance rp) by exact Hs. apply IH, Hs.
Qed.

Lemma waiting_advance rp more q :
  waiting q -> served rp (advance q ((0%nat, rp) :: more)).
Proof.
  intros (Ha & Hb). simpl.
  assert (Hs : served rp (complete q 0 rp)).
  { unfold complete. rewrite Ha. simpl. split; [reflexivity|].
    rewrite !buffer_deliver. simpl.
    change (buffer (mk (topics q) [] (results q))) with (buffer q).
    rewrite !Hb. split; reflexivity. }
  rewrite (served_advance rp) by exact Hs. exact Hs.
Qed.

Lemma waiting_elapse rp more env' k j q :
  waiting q ->
  elapse q (replicate k [] ++ ((0%nat, rp) :: more) :: env') j =
    if decide (k < j)%nat then advance q ((0%nat, rp) :: more) else q.
Proof.
  revert q j. induction k as [|k IH]; intros q j Hw; destruct j as [|j]; simpl;
    try reflexivity.
  - rewrite (served_elapse rp) by (apply waiting_advance; exact Hw).
    reflexivity.
  - rewrite IH by exact Hw.
    destruct (decide (k < j)%nat), (decide (S k < S j)%nat); try reflexivity; lia.
Qed.

Lemma waiting_get_result rp more env' k q timeout :
  waiting q -> (k < timeout)%nat ->
  exists q' w e, get_result q "simulate" timeout
                   (replicate k [] ++ ((0%nat, rp) :: more) :: env') =
                 (Got (result_of the_task rp), q', w, e).
Proof.
  revert q timeout. induction k as [|k IH]; intros q timeout Hw Hlt;
    (destruct timeout as [|timeout]; [lia|]); simpl.
  - assert (Hp : poll q "simulate" = None) by (apply poll_None, Hw).
    rewrite Hp.
    destruct (waiting_advance rp more q Hw) as (_ & Hb & _).
    simpl in Hb.
    destruct (get_result_buffered _ _ _ _ timeout env' Hb) as (q' & -> & _).
    eauto.
  - assert (Hp : poll q "simulate" = None) by (apply poll_None, Hw).
    rewrite Hp.
    destruct (IH q timeout Hw) as (q' & w & e & ->); [lia|]. eauto.
Qed.

Lemma demo_cell (names : list string) (k : nat) (rp : report)
    (more : tick) (env' : list tick) :
  let env := replicate k [] ++ ((0%nat, rp) :: more) :: env' in
  exists q3,
    QueueDemo.cell (new names) env =
      (["Timed out, as expected"%string], Done (result_of the_task rp), q3).
Proof.
  intros env. unfold QueueDemo.cell.
  set (q1 := send_inputs (new names) ["C"%string] "compute_vertical" "simulate").
  assert (Hw : waiting q1).
  { split; [reflexivity|]. intros name. unfold buffer. simpl.
    rewrite lookup_empty. reflexivity. }
  rewrite (get_result_timeout "infer" 15).
  2:{ intros j _. unfold env. rewrite (waiting_elapse rp) by exact Hw.
      case_decide; [|apply Hw].
      apply (waiting_advance rp more q1 Hw). }
  unfold get_result_blocking, env.
  rewrite (waiting_elapse rp) by exact Hw.
  case_decide as Hk.
  - destruct (waiting_advance rp more q1 Hw) as (_ & Hb & _).
    set (e := drop 15 _).
    destruct (get_result_buffered _ _ _ _ (length e) e Hb) as (q' & -> & _).
    eauto.
  - rewrite drop_app_le by (rewrite length_replicate; lia).
    rewrite drop_replicate.
    set (e := _ ++ _).
    destruct (waiting_get_result rp more env' (k - 15) q1 (length e) Hw)
      as (q' & w & e' & Hq).
    { unfold e. rewrite length_app, length_replicate. simpl. lia. }
    change (get_result q1 "simulate" (length e) e =
            (Got (result_of the_task rp), q', w, e')) in Hq.
    rewrite Hq. eauto.
Qed.

End QueueDemoFacts.

(** ** Time-outs *)

Section Timeouts.
Import PipeQueues QueueDemo.

Lemma get_result_retry name timeout : forall q env t2,
  (forall k, (k <= timeout)%nat -> buffer (elapse q env k) name = []) ->
  get_result q name (timeout + t2) env =
    let '(out, q2, waited, env2) :=
      get_result (elapse q env timeout) name t2 (drop timeout env) in
    (out, q2, (timeout + waited)%nat, env2).
Proof.
  induction timeout as [|timeout IH]; intros q env t2 Hnone.
  - simpl. rewrite drop_0.
    destruct (get_result q name t2 env) as [[[out q2] w] e2]. reflexivity.
  - assert (Hp : poll q name = None) by (apply poll_None, (Hnone 0%nat); lia).
    simpl. rewrite Hp, IH.
    + replace (drop timeout (tl env)) with (drop (S timeout) env)
        by (destruct env; simpl; rewrite ?drop_nil; reflexivity).
      destruct (get_result _ name t2 _) as [[[out q2] w] e2]. reflexivity.
    + intros k Hk. apply (Hnone (S k)). lia.
Qed.

(** C6.  A receive on a topic for which no result becomes available within
    the time-out returns the no-result outcome after exactly [timeout]
    ticks, with the queue as the backend left it.  No receive waits longer
    than its time-out.  The outcome is retryable: receiving again on the
    queue it returned is the same as having waited longer in the first
    place.  In the cell of the notebook the time-out on topic [infer] is
    caught and reported, and the receive on topic [simulate] that follows
    returns the result of the task. *)
Theorem receive_times_out (q : t) (name : string) (timeout : nat) (env : list tick) :
  (forall k, (k <= timeout)%nat -> buffer (elapse q env k) name = []) ->
  get_result q name timeout env =
    (NoResult, elapse q env timeout, timeout, drop timeout env) /\
  (forall q0 t0 env0,
     let '(_, _, waited, _) := get_result q0 name t0 env0 in (waited <= t0)%nat) /\
  (forall t2,
     get_result q name (timeout + t2) env =
       let '(out, q2, waited, env2) :=
         get_result (elapse q env timeout) name t2 (drop timeout env) in
       (out, q2, (timeout + waited)%nat, env2)) /\
  (forall names k rp more env',
     exists q3,
       cell (new names) (replicate k [] ++ ((0%nat, rp) :: more) :: env') =
         (["Timed out, as expected"%string], Done (result_of the_task rp), q3)).
Proof.
  intros Hnone. split; [apply get_result_timeout, Hnone|].
  split; [intros q0 t0 env0; apply get_result_waited|].
  split; [intros t2; apply get_result_retry, Hnone|].
  intros names k rp more env'. apply demo_cell.
Qed.

End Timeouts.

(** ** The methods of the thinker *)

Lemma pop_None {A} (l : list A) : pop l = None <-> l = [].
Proof.
  destruct l as [|x l]; simpl; [tauto|].
  split; [|discriminate]. destruct (pop l) as [[front y]|]; discriminate.
Qed.

Lemma pop_Some {A} (l front : list A) (x : A) :
  pop l = Some (front, x) <-> l = front ++ [x].
Proof.
  revert front. induction l as [|a l IH]; intros front; simpl.
  - split; [discriminate|]. destruct front; discriminate.
  - destruct (pop l) as [[front' y]|] eqn:Hp.
    + split.
      * intros [= <- <-]. simpl. f_equal. apply IH. reflexivity.
      * destruct front as [|b front]; simpl.
        -- intros [= -> ->]. discriminate.
        -- intros [= -> Hl]. apply IH in Hl. congruence.
    + apply pop_None in Hp. subst l. split.
      * intros [= <- <-]. reflexivity.
      * destruct front as [|b front]; simpl; [congruence|].
        intros [= _ Hl]. destruct front; discriminate.
Qed.

Section Calls.
Import RandomThinker.

Lemma submit_calc_pop st front mol :
  priority_list_lock st = false ->
  pop (priority_list st) = Some (front, mol) ->
  submit_calc st =
    (Done tt,
     mk (PipeQueues.send_inputs (queues st) [mol] "compute_vertical" "default")
        (rec st) (done st) (logger st) (molecule_list st) (n_to_evaluate st)
        (database st) (simulation_results st) front false
        (rec_progbar st + 1) (sent_progbar st)
        (history st ++ [EvPop mol; EvSend "compute_vertical" [mol] "default";
                        EvProgress "started" 1])).
Proof.
  intros Hl Hp. unfold submit_calc, bind, with_priority_list_lock, priority_list_pop.
  rewrite Hl. simpl. rewrite Hp. simpl.
  unfold queues_send_inputs, rec_progbar_update, note; simpl.
  rewrite <- !app_assoc. reflexivity.
Qed.

Lemma submit_calc_empty st :
  priority_list_lock st = false ->
  priority_list st = [] ->
  submit_calc st =
    (Raise (IndexError "pop from empty list"),
     set_priority_list_lock false (set_priority_list_lock true st)).
Proof.
  intros Hl Hp. unfold submit_calc, bind, with_priority_list_lock, priority_list_pop.
  rewrite Hl. simpl. rewrite Hp. reflexivity.
Qed.

Lemma receive_calc_fault st r e :
  ResourceCounter.release (rec st) "simulate" 1 = Raise e ->
  receive_calc r st = (Raise e, st).
Proof.
  intros Hr. unfold receive_calc, bind, rec_release, lift_rec. rewrite Hr. reflexivity.
Qed.

Lemma receive_calc_success st r rc key rest :
  ResourceCounter.release (rec st) "simulate" 1 = Done rc ->
  success r = true -> args r = key :: rest ->
  let db := <[key := value r]> (database st) in
  let reached := n_to_evaluate st <=? Z.of_nat (size db) in
  receive_calc r st =
    (Done tt,
     mk (queues st) rc (if reached then true else done st) (logger st)
        (molecule_list st) (n_to_evaluate st) db (simulation_results st ++ [r])
        (priority_list st) (priority_list_lock st) (rec_progbar st)
        (sent_progbar st + 1)
        (history st ++
           [EvRelease "simulate" 1; EvStore key (value r); EvProgress "successful" 1] ++
           (if reached then [EvSetDone] else []) ++ [EvAppend r])).
Proof.
  intros Hr Hs Ha db reached.
  unfold receive_calc, bind, rec_release, lift_rec. rewrite Hr, Hs. simpl.
  unfold result_arg0. rewrite Ha. simpl.
  fold db. fold reached. destruct reached; simpl;
    unfold simulation_results_append, note; simpl; rewrite <- !app_assoc; reflexivity.
Qed.

Lemma receive_calc_success_noarg st r rc :
  ResourceCounter.release (rec st) "simulate" 1 = Done rc ->
  success r = true -> args r = [] ->
  receive_calc r st =
    (Raise (IndexError "tuple index out of range"),
     note (EvRelease "simulate" 1) (set_rec rc st)).
Proof.
  intros Hr Hs Ha.
  unfold receive_calc, bind, rec_release, lift_rec. rewrite Hr, Hs. simpl.
  unfold result_arg0. rewrite Ha. reflexivity.
Qed.

Lemma receive_calc_failure st r rc :
  ResourceCounter.release (rec st) "simulate" 1 = Done rc ->
  success r = false ->
  let msg := "Simulation failure: " +:+ default "None" (failure_info r) in
  receive_calc r st =
    (Done tt,
     mk (queues st) rc (done st) (logger st ++ [msg])
        (molecule_list st) (n_to_evaluate st) (database st)
        (simulation_results st ++ [r])
        (priority_list st) (priority_list_lock st) (rec_progbar st)
        (sent_progbar st)
        (history st ++ [EvRelease "simulate" 1; EvWarning msg; EvAppend r])).
Proof.
  intros Hr Hs msg.
  unfold receive_calc, bind, rec_release, lift_rec. rewrite Hr, Hs. simpl.
  unfold simulation_results_append, note; simpl; rewrite <- !app_assoc; reflexivity.
Qed.

End Calls.

(** ** The thinker at its start *)

Section Start.
Import RandomThinker Agents.

Lemma reallocate_new (p : nat) :
  exists rc,
    ResourceCounter.reallocate
      (ResourceCounter.new p ["simulate"; "train"; "infer"]%string)
      None "simulate" p = Done rc /\
    ResourceCounter.allocated rc !! "simulate"%string = Some (Z.of_nat p) /\
    ResourceCounter.available rc !! "simulate"%string = Some (Z.of_nat p).
Proof.
  assert (Hz : gset_to_gmap 0 (list_to_set ["simulate"; "train"; "infer"]%string
                                 : gset string) !! "simulate"%string = Some 0).
  { apply lookup_gset_to_gmap_Some. split; [|reflexivity].
    apply elem_of_list_to_set. left. }
  unfold ResourceCounter.reallocate, ResourceCounter.new.
  cbn [ResourceCounter.allocated ResourceCounter.available
       ResourceCounter.unallocated ResourceCounter.total_slots].
  rewrite Hz, Z.leb_refl. eexists. split; [reflexivity|].
  cbn [ResourceCounter.allocated ResourceCounter.available].
  rewrite !lookup_insert_eq. split; reflexivity.
Qed.

Lemma init_spec shuffle q n p mols :
  exists rc,
    ResourceCounter.reallocate
      (ResourceCounter.new p ["simulate"; "train"; "infer"]%string)
      None "simulate" p = Done rc /\
    init shuffle q n p mols =
      (Done tt,
       RandomThinker.mk q rc false [] (list_to_set mols) n ∅ []
          (shuffle (elements (list_to_set mols : gset string))) false 0 0
          [EvReallocate None "simulate" p]).
Proof.
  destruct (reallocate_new p) as (rc & Hr & _). exists rc. split; [exact Hr|].
  unfold init, rec_reallocate, lift_rec. simpl. rewrite Hr. reflexivity.
Qed.

Lemma start_invariant shuffle names n p mols s0 :
  start shuffle names n p mols = Some s0 ->
  invariant p (shuffle (elements (list_to_set mols : gset string))) n s0 /\
  RandomThinker.molecule_list (thinker s0) = list_to_set mols /\
  RandomThinker.done (thinker s0) = false /\
  consumed s0 = [] /\ sent (thinker s0) = [] /\ submitter s0 = Waiting.
Proof.
  unfold start. destruct (init_spec shuffle (PipeQueues.new names) n p mols)
    as (rc & Hr & ->).
  intros [= <-]. destruct (reallocate_new p) as (rc' & Hr' & Ha & Hv).
  assert (rc' = rc) as -> by congruence.
  split; [|repeat split].
  split; simpl; try reflexivity.
  - eapply reallocate_invariant; [apply new_invariant|exact Hr].
  - exact Ha.
  - unfold ResourceCounter.in_use, task_type. rewrite Ha, Hv.
    unfold outstanding, PipeQueues.buffer, result_topic. cbn.
    rewrite lookup_empty. cbn. lia.
  - constructor.
  - apply app_nil_r.
  - discriminate.
  - intros Hn. rewrite bool_decide_eq_false_2; [reflexivity|].
    rewrite map_size_empty. lia.
  - intros Hn. rewrite map_size_empty. lia.
Qed.

Lemma start_Some shuffle names n p mols :
  is_Some (start shuffle names n p mols).
Proof.
  unfold start. destruct (init_spec shuffle (PipeQueues.new names) n p mols)
    as (rc & _ & ->). eauto.
Qed.

End Start.

(** ** The invariant is kept by every step *)

Section Preservation.
Import Agents.

Variables (p : nat) (pl0 : list string) (target : Z).

Lemma acquire_allocated rc l n rc' :
  ResourceCounter.acquire rc l n = Done rc' ->
  ResourceCounter.allocated rc' = ResourceCounter.allocated rc.
Proof.
  unfold ResourceCounter.acquire. repeat case_match; try discriminate.
  intros [= <-]. reflexivity.
Qed.

Lemma release_allocated rc l n rc' :
  ResourceCounter.release rc l n = Done rc' ->
  ResourceCounter.allocated rc' = ResourceCounter.allocated rc.
Proof.
  unfold ResourceCounter.release. repeat case_match; try discriminate.
  intros [= <-]. reflexivity.
Qed.

Lemma acquire_not_raise rc l n e :
  ResourceCounter.invariant rc -> is_Some (ResourceCounter.allocated rc !! l) ->
  ResourceCounter.acquire rc l n <> Raise e.
Proof.
  intros [_ _ Hd _] [held Ha]. unfold ResourceCounter.acquire. rewrite Ha.
  assert (is_Some (ResourceCounter.available rc !! l)) as [free ->].
  { apply elem_of_dom. rewrite Hd. apply elem_of_dom. eauto. }
  destruct (_ <=? _); discriminate.
Qed.

Lemma release_held rc l n :
  ResourceCounter.invariant rc -> is_Some (ResourceCounter.allocated rc !! l) ->
  Z.of_nat n <= ResourceCounter.in_use rc l ->
  exists rc', ResourceCounter.release rc l n = Done rc'.
Proof.
  intros [_ _ Hd _] [held Ha]. unfold ResourceCounter.release, ResourceCounter.in_use.
  rewrite Ha.
  assert (is_Some (ResourceCounter.available rc !! l)) as [free ->].
  { apply elem_of_dom. rewrite Hd. apply elem_of_dom. eauto. }
  simpl. intros Hle. destruct (Z.leb_spec (Z.of_nat n) (held - free)); [eauto|lia].
Qed.

Lemma sent_app st h :
  omap (fun e => match e with RandomThinker.EvPop mol => Some mol | _ => None end)
       (RandomThinker.history st ++ h) =
  sent st ++
  omap (fun e => match e with RandomThinker.EvPop mol => Some mol | _ => None end) h.
Proof. unfold sent. apply omap_app. Qed.

Lemma count_app f st h :
  length (List.filter f (RandomThinker.history st ++ h)) =
  (count f st + length (List.filter f h))%nat.
Proof. unfold count. rewrite List.filter_app, length_app. reflexivity. Qed.

Lemma outstanding_queues s st' sub pr cs :
  RandomThinker.queues st' = RandomThinker.queues (thinker s) ->
  outstanding (mk st' sub pr cs) = outstanding s.
Proof. unfold outstanding. simpl. intros ->. reflexivity. Qed.

Lemma sent_history st st' h :
  RandomThinker.history st' = RandomThinker.history st ++ h ->
  sent st' = sent st ++
    omap (fun e => match e with RandomThinker.EvPop mol => Some mol | _ => None end) h.
Proof. unfold sent. intros ->. apply omap_app. Qed.

Lemma count_history f st st' h :
  RandomThinker.history st' = RandomThinker.history st ++ h ->
  count f st' = (count f st + length (List.filter f h))%nat.
Proof. unfold count. intros ->. rewrite List.filter_app, length_app. reflexivity. Qed.

Lemma step_acquire s s' :
  invariant p pl0 target s -> step s SubmitterAcquire = Some s' ->
  invariant p pl0 target s'.
Proof.
  intros Hi. unfold step.
  destruct (submitter s) eqn:Hsub; try discriminate.
  destruct (RandomThinker.done (thinker s)) eqn:Hdone; [discriminate|].
  unfold RandomThinker.rec_acquire, RandomThinker.lift_rec.
  destruct (ResourceCounter.acquire _ _ _) as [rc'| |e] eqn:Hacq; try discriminate.
  2:{ exfalso. eapply acquire_not_raise; [apply Hi| |exact Hacq].
      rewrite (inv_pool _ _ _ _ Hi). eauto. }
  intros [= <-].
  destruct Hi. split; fields;
    rewrite ?(sent_history (thinker s) _ [RandomThinker.EvAcquire task_type n_slots])
      by reflexivity;
    rewrite ?(count_history _ (thinker s) _ [RandomThinker.EvAcquire task_type n_slots])
      by reflexivity;
    cbn [omap list_omap List.filter is_acquire is_send is_release is_set_done length];
    rewrite ?app_nil_r; try assumption.
  - eapply acquire_invariant; eassumption.
  - rewrite (acquire_allocated _ _ _ _ Hacq). assumption.
  - rewrite (outstanding_queues s) by reflexivity.
    rewrite (acquire_in_use _ _ _ _ Hacq), inv_in_use0, Hsub.
    unfold n_slots. simpl. lia.
  - discriminate.
  - rewrite inv_acquired0, Hsub. simpl. lia.
  - rewrite inv_sent0. lia.
  - rewrite inv_released0. lia.
  - rewrite inv_set_done0. lia.
Qed.

Lemma step_call s s' :
  invariant p pl0 target s -> step s SubmitterCall = Some s' ->
  invariant p pl0 target s'.
Proof.
  intros Hi. unfold step.
  destruct (submitter s) eqn:Hsub; try discriminate.
  destruct (pop (RandomThinker.priority_list (thinker s))) as [[front mol]|] eqn:Hp.
  - rewrite (submit_calc_pop _ front mol (inv_lock _ _ _ _ Hi) Hp).
    intros [= <-]. apply pop_Some in Hp.
    destruct Hi. split; fields;
      rewrite ?(sent_history (thinker s) _
                  [RandomThinker.EvPop mol;
                   RandomThinker.EvSend "compute_vertical" [mol] "default";
                   RandomThinker.EvProgress "started" 1]) by reflexivity;
      rewrite ?(count_history _ (thinker s) _
                  [RandomThinker.EvPop mol;
                   RandomThinker.EvSend "compute_vertical" [mol] "default";
                   RandomThinker.EvProgress "started" 1]) by reflexivity;
      cbn [omap list_omap List.filter is_acquire is_send is_release is_set_done
           length app];
      try assumption.
    + unfold outstanding. fields. rewrite inv_in_use0, Hsub. unfold outstanding.
      rewrite buffer_send.
      cbn [PipeQueues.send_inputs PipeQueues.active]. rewrite length_app.
      simpl. lia.
    + reflexivity.
    + cbn [PipeQueues.send_inputs PipeQueues.active].
      apply Forall_app. split; [assumption|]. constructor; [reflexivity|constructor].
    + rewrite buffer_send. cbn [PipeQueues.send_inputs PipeQueues.active].
      rewrite !fmap_app. rewrite <- inv_tasks0. simpl. solve_Permutation.
    + rewrite reverse_app. simpl. rewrite <- inv_priority0, Hp, <- app_assoc.
      reflexivity.
    + discriminate.
    + rewrite inv_acquired0, Hsub, length_app. simpl. lia.
    + rewrite inv_sent0, length_app. simpl. lia.
    + rewrite inv_released0. lia.
    + rewrite inv_set_done0. lia.
  - apply pop_None in Hp.
    rewrite (submit_calc_empty _ (inv_lock _ _ _ _ Hi) Hp).
    intros [= <-].
    destruct Hi. split; fields; try assumption.
    + rewrite (outstanding_queues s) by reflexivity.
      rewrite inv_in_use0, Hsub. reflexivity.
    + reflexivity.
    + intros e [= <-]. split; [reflexivity|exact Hp].
    + change (count is_acquire _) with (count is_acquire (thinker s)).
      change (sent _) with (sent (thinker s)).
      rewrite inv_acquired0, Hsub. reflexivity.
Qed.

Lemma complete_spec q i rp tk :
  PipeQueues.active q !! i = Some tk ->
  PipeQueues.active (PipeQueues.complete q i rp) = delete i (PipeQueues.active q) /\
  forall name,
    PipeQueues.buffer (PipeQueues.complete q i rp) name =
    if decide (PipeQueues.task_topic tk = name)
    then PipeQueues.buffer q name ++ [PipeQueues.result_of tk rp]
    else PipeQueues.buffer q name.
Proof.
  intros Hi. unfold PipeQueues.complete. rewrite Hi. split; [reflexivity|].
  intros name. rewrite buffer_deliver. reflexivity.
Qed.

Lemma step_complete s i rp s' :
  invariant p pl0 target s -> step s (BackendComplete i rp) = Some s' ->
  invariant p pl0 target s'.
Proof.
  intros Hi. unfold step. case_decide as Hlt; [|discriminate].
  intros [= <-].
  destruct (lookup_lt_is_Some_2 _ _ Hlt) as [tk Htk].
  destruct (complete_spec _ i rp tk Htk) as [Hact Hbuf].
  assert (Htop : PipeQueues.task_topic tk = result_topic).
  { apply (Forall_lookup_1 _ _ _ _ (inv_topics _ _ _ _ Hi) Htk). }
  specialize (Hbuf result_topic). rewrite decide_True in Hbuf by exact Htop.
  destruct Hi. split; fields; try assumption.
  - unfold outstanding. fields. rewrite Hact, Hbuf, inv_in_use0.
    unfold outstanding. rewrite length_delete by eauto. rewrite length_app.
    simpl. lia.
  - rewrite Hact. apply Forall_delete. assumption.
  - rewrite Hact, Hbuf, fmap_app. simpl.
    change (sent _) with (sent (thinker s)). rewrite <- inv_tasks0.
    rewrite (delete_Permutation _ _ _ Htk) at 2. simpl. solve_Permutation.
Qed.

Lemma stored_snoc rs r :
  stored (rs ++ [r]) =
  stored rs ++ (if success r then option_list (head (args r)) else []).
Proof.
  unfold stored. rewrite omap_app. simpl.
  destruct (success r); [destruct (head (args r))|]; reflexivity.
Qed.

Lemma step_result s s' :
  invariant p pl0 target s -> step s ProcessorResult = Some s' ->
  invariant p pl0 target s'.
Proof.
  intros Hi. unfold step.
  destruct (processor s) eqn:Hproc; try discriminate.
  destruct (RandomThinker.done (thinker s)) eqn:Hdone; [discriminate|].
  destruct (PipeQueues.poll _ _) as [[r q1]|] eqn:Hpoll; [|discriminate].
  destruct (poll_Some _ _ _ _ Hpoll) as (Hbuf & _ & Hact).
  set (st1 := RandomThinker.set_queues q1 (thinker s)).
  assert (Hout : outstanding s =
                 S (length (PipeQueues.active q1) +
                    length (PipeQueues.buffer q1 result_topic))).
  { unfold outstanding. rewrite Hbuf, Hact. simpl. lia. }
  destruct (release_held (RandomThinker.rec st1) "simulate" 1) as [rc Hrel].
  { apply Hi. }
  { exists (Z.of_nat p). apply (inv_pool _ _ _ _ Hi). }
  { change (ResourceCounter.in_use (RandomThinker.rec st1) "simulate")
      with (ResourceCounter.in_use (RandomThinker.rec (thinker s)) task_type).
    rewrite (inv_in_use _ _ _ _ Hi), Hout. lia. }
  assert (Hargs : exists mol, args r = [mol]).
  { assert (Hin : args r ∈ (fun mol => [mol]) <$> sent (thinker s)).
    { rewrite <- (inv_tasks _ _ _ _ Hi), Hbuf. simpl.
      apply elem_of_app. right. left. }
    apply list_elem_of_fmap in Hin as (mol & -> & _). eauto. }
  destruct Hargs as [mol Hargs].
  destruct (release_in_use _ _ _ _ Hrel) as [_ Huse].
  pose proof (release_allocated _ _ _ _ Hrel) as Hall.
  pose proof (release_invariant _ _ _ _ (inv_rec _ _ _ _ Hi) Hrel) as Hinv.
  change (RandomThinker.rec st1) with (RandomThinker.rec (thinker s)) in *.
  destruct (success r) eqn:Hsucc.
  - rewrite (receive_calc_success st1 r rc mol [] Hrel Hsucc Hargs).
    intros [= <-].
    set (db := <[mol := value r]> (RandomThinker.database st1)).
    set (reached := RandomThinker.n_to_evaluate st1 <=? Z.of_nat (size db)).
    set (h := [RandomThinker.EvRelease "simulate" 1;
               RandomThinker.EvStore mol (value r);
               RandomThinker.EvProgress "successful" 1] ++
              (if reached then [RandomThinker.EvSetDone] else []) ++
              [RandomThinker.EvAppend r]).
    assert (Hsent : omap (fun e => match e with
                                   | RandomThinker.EvPop m => Some m
                                   | _ => None end) h = []).
    { unfold h. destruct reached; reflexivity. }
    assert (Hc : forall f, length (List.filter f h) =
               ((if f (RandomThinker.EvRelease "simulate" 1) then 1 else 0) +
                (if f (RandomThinker.EvStore mol (value r)) then 1 else 0) +
                (if f (RandomThinker.EvProgress "successful" 1) then 1 else 0) +
                (if reached then if f RandomThinker.EvSetDone then 1 else 0 else 0) +
                (if f (RandomThinker.EvAppend r) then 1 else 0))%nat).
    { intros f. unfold h. destruct reached; simpl; repeat destruct (f _); reflexivity. }
    assert (Hsize : size db = size (RandomThinker.database (thinker s)) \/
                    size db = S (size (RandomThinker.database (thinker s)))).
    { unfold db. change (RandomThinker.database st1)
        with (RandomThinker.database (thinker s)).
      destruct (RandomThinker.database (thinker s) !! mol) eqn:Hl.
      - left. apply map_size_insert_Some. eauto.
      - right. apply map_size_insert_None. exact Hl. }
    destruct Hi. split; fields;
      rewrite ?(sent_history (thinker s) _ h) by reflexivity;
      rewrite ?(count_history _ (thinker s) _ h) by reflexivity;
      rewrite ?Hsent, ?Hc, ?app_nil_r;
      cbn [is_acquire is_send is_release is_set_done];
      try assumption.
    + rewrite Hall. assumption.
    + unfold outstanding. fields.
      change task_type with "simulate"%string in *.
      rewrite Huse, inv_in_use0, Hout. lia.
    + rewrite Hact. assumption.
    + rewrite fmap_app. rewrite <- inv_tasks0, Hbuf, Hact. simpl. solve_Permutation.
    + rewrite inv_log0. reflexivity.
    + reflexivity.
    + unfold db. rewrite dom_insert_L, stored_snoc, Hsucc, Hargs. simpl.
      rewrite list_to_set_app_L. simpl.
      change (RandomThinker.database st1) with (RandomThinker.database (thinker s)).
      rewrite inv_database0, (right_id_L ∅ (∪)). apply (comm_L (∪)).
    + intros Hpos. unfold reached, db, st1. fields. rewrite inv_target0.
      match goal with
      | |- context [target <=? ?x] => destruct (Z.leb_spec target x)
      end.
      * rewrite bool_decide_eq_true_2 by assumption. reflexivity.
      * rewrite bool_decide_eq_false_2 by lia. exact Hdone.
    + intros Hpos. specialize (inv_done0 Hpos). rewrite Hdone in inv_done0.
      symmetry in inv_done0. apply bool_decide_eq_false in inv_done0.
      unfold db, st1 in *. fields. lia.
    + rewrite inv_acquired0. destruct reached; lia.
    + rewrite inv_sent0. destruct reached; lia.
    + rewrite inv_released0, length_app. destruct reached; simpl; lia.
    + rewrite inv_set_done0, Hdone.
      change (RandomThinker.n_to_evaluate (thinker s) <=? _) with reached.
      destruct reached; reflexivity.
  - rewrite (receive_calc_failure st1 r rc Hrel Hsucc).
    intros [= <-].
    set (msg := ("Simulation failure: " +:+ default "None" (failure_info r))%string).
    set (h := [RandomThinker.EvRelease "simulate" 1; RandomThinker.EvWarning msg;
               RandomThinker.EvAppend r]).
    destruct Hi. split; fields;
      rewrite ?(sent_history (thinker s) _ h) by reflexivity;
      rewrite ?(count_history _ (thinker s) _ h) by reflexivity;
      cbn [omap list_omap List.filter is_acquire is_send is_release is_set_done
           length app h];
      rewrite ?app_nil_r;
      try assumption.
    + rewrite Hall. assumption.
    + unfold outstanding. fields.
      change task_type with "simulate"%string in *.
      rewrite Huse, inv_in_use0, Hout. lia.
    + rewrite Hact. assumption.
    + rewrite fmap_app. rewrite <- inv_tasks0, Hbuf, Hact. simpl. solve_Permutation.
    + rewrite inv_log0. reflexivity.
    + reflexivity.
    + rewrite stored_snoc, Hsucc, app_nil_r. assumption.
    + rewrite inv_acquired0. lia.
    + rewrite inv_sent0. lia.
    + rewrite inv_released0, length_app. simpl. lia.
    + rewrite inv_set_done0. lia.
Qed.

Lemma step_invariant s a s' :
  invariant p pl0 target s -> step s a = Some s' -> invariant p pl0 target s'.
Proof.
  destruct a.
  - apply step_acquire.
  - apply step_call.
  - apply step_complete.
  - apply step_result.
  - intros Hi. unfold step. repeat case_match; try discriminate.
    intros [= <-]. exact Hi.
Qed.

Lemma reachable_invariant s0 s :
  invariant p pl0 target s0 -> reachable s0 s -> invariant p pl0 target s.
Proof.
  intros H0. induction 1 as [|s a s' _ IH Hstep]; [exact H0|].
  eapply step_invariant; eassumption.
Qed.

End Preservation.

(** ** Runs of the thinker *)

Section Runs.
Import Agents.

Variables (shuffle : list string -> list string) (names : list string)
          (n : Z) (p : nat) (mols : list string) (s0 : t).
Hypothesis Hstart : start shuffle names n p mols = Some s0.

Local Abbreviation pl0 := (initial_priority_list shuffle mols).

Lemma run_invariant' s : reachable s0 s -> invariant p pl0 n s.
Proof.
  intros Hr. eapply reachable_invariant; [|exact Hr].
  apply (start_invariant _ _ _ _ _ _ Hstart).
Qed.

Lemma outstanding_sent s :
  invariant p pl0 n s ->
  (outstanding s + length (consumed s) = length (sent (thinker s)))%nat.
Proof.
  intros Hi. pose proof (Permutation_length (inv_tasks _ _ _ _ Hi)) as Hl.
  rewrite !length_app, !length_fmap in Hl. unfold outstanding. lia.
Qed.

Lemma in_use_bound s :
  invariant p pl0 n s -> (outstanding s + holding (submitter s) <= p)%nat.
Proof.
  intros Hi. destruct (inv_rec _ _ _ _ Hi) as [_ _ Hd Hf].
  pose proof (inv_pool _ _ _ _ Hi) as Ha.
  pose proof (inv_in_use _ _ _ _ Hi) as Hu.
  unfold ResourceCounter.in_use in Hu. rewrite Ha in Hu.
  assert (is_Some (ResourceCounter.available (RandomThinker.rec (thinker s))
                     !! task_type)) as [free Hv].
  { apply elem_of_dom. rewrite Hd. apply elem_of_dom. eauto. }
  rewrite Hv in Hu. simpl in Hu. specialize (Hf _ _ _ Ha Hv). lia.
Qed.

Lemma acquire_blocked s :
  invariant p pl0 n s -> (outstanding s + holding (submitter s))%nat = p ->
  step s SubmitterAcquire = None.
Proof.
  intros Hi Hfull. unfold step. destruct (submitter s); try reflexivity.
  destruct (RandomThinker.done (thinker s)); [reflexivity|].
  unfold RandomThinker.rec_acquire, RandomThinker.lift_rec, ResourceCounter.acquire.
  destruct (inv_rec _ _ _ _ Hi) as [_ _ Hd Hf].
  pose proof (inv_pool _ _ _ _ Hi) as Ha.
  pose proof (inv_in_use _ _ _ _ Hi) as Hu.
  unfold ResourceCounter.in_use in Hu. rewrite Ha in Hu. rewrite Ha.
  assert (is_Some (ResourceCounter.available (RandomThinker.rec (thinker s))
                     !! task_type)) as [free Hv].
  { apply elem_of_dom. rewrite Hd. apply elem_of_dom. eauto. }
  rewrite Hv in Hu. rewrite Hv. simpl in Hu.
  destruct (Z.leb_spec (Z.of_nat n_slots) free); [|reflexivity].
  unfold n_slots in *. simpl in *. lia.
Qed.

(** C4.  In every reachable state of the thinker the tasks submitted and
    not yet processed, plus the slot the submitting agent holds, are at
    most [n_parallel] and equal the [simulate] slots in use.  Every
    submission was preceded by its own acquire, every release belongs to a
    processed result, and when all slots are taken the submitting agent
    cannot acquire another one. *)
Theorem throttled_to_n_parallel s :
  reachable s0 s ->
  (outstanding s + holding (submitter s) <= p)%nat /\
  ResourceCounter.in_use (RandomThinker.rec (thinker s)) "simulate" =
    Z.of_nat (outstanding s + holding (submitter s)) /\
  count is_acquire (thinker s) =
    (count is_send (thinker s) + holding (submitter s))%nat /\
  count is_release (thinker s) = length (consumed s) /\
  (outstanding s + length (consumed s))%nat = count is_send (thinker s) /\
  ((outstanding s + holding (submitter s))%nat = p ->
   step s SubmitterAcquire = None).
Proof.
  intros Hr. pose proof (run_invariant' s Hr) as Hi.
  split; [apply in_use_bound, Hi|].
  split; [apply (inv_in_use _ _ _ _ Hi)|].
  split; [rewrite (inv_sent _ _ _ _ Hi); apply (inv_acquired _ _ _ _ Hi)|].
  split; [apply (inv_released _ _ _ _ Hi)|].
  split; [rewrite (inv_sent _ _ _ _ Hi); apply outstanding_sent, Hi|].
  apply acquire_blocked, Hi.
Qed.

Lemma receive_ready s r q1 :
  invariant p pl0 n s ->
  PipeQueues.poll (RandomThinker.queues (thinker s)) result_topic = Some (r, q1) ->
  exists rc mol,
    ResourceCounter.release (RandomThinker.rec (thinker s)) "simulate" 1 = Done rc /\
    args r = [mol] /\ mol ∈ sent (thinker s).
Proof.
  intros Hi Hpoll. destruct (poll_Some _ _ _ _ Hpoll) as (Hbuf & _ & Hact).
  destruct (release_held (RandomThinker.rec (thinker s)) "simulate" 1) as [rc Hrel].
  { apply Hi. }
  { exists (Z.of_nat p). apply (inv_pool _ _ _ _ Hi). }
  { change (ResourceCounter.in_use _ "simulate")
      with (ResourceCounter.in_use (RandomThinker.rec (thinker s)) task_type).
    rewrite (inv_in_use _ _ _ _ Hi). unfold outstanding. rewrite Hbuf. simpl. lia. }
  assert (Hin : args r ∈ (fun mol => [mol]) <$> sent (thinker s)).
  { rewrite <- (inv_tasks _ _ _ _ Hi), Hbuf. simpl.
    apply elem_of_app. right. left. }
  apply list_elem_of_fmap in Hin as (mol & Hm & Hs). eauto.
Qed.

(** What one step does to the list of consumed results. *)
Lemma step_consumed s a s' :
  step s a = Some s' ->
  (a <> ProcessorResult /\ consumed s' = consumed s) \/
  (a = ProcessorResult /\
   exists r q1,
     PipeQueues.poll (RandomThinker.queues (thinker s)) result_topic = Some (r, q1) /\
     consumed s' = consumed s ++ [r]).
Proof.
  intros Hstep. destruct a; unfold step in Hstep.
  - left. split; [discriminate|].
    repeat case_match; try discriminate; injection Hstep as <-; reflexivity.
  - left. split; [discriminate|].
    repeat case_match; try discriminate; injection Hstep as <-; reflexivity.
  - left. split; [discriminate|]. case_decide; [|discriminate].
    injection Hstep as <-. reflexivity.
  - right. split; [reflexivity|].
    destruct (processor s); try discriminate.
    destruct (RandomThinker.done (thinker s)); [discriminate|].
    destruct (PipeQueues.poll _ _) as [[r q1]|]; [|discriminate].
    exists r, q1. split; [reflexivity|].
    destruct (RandomThinker.receive_calc _ _) as [[| |] ?]; try discriminate;
      injection Hstep as <-; reflexivity.
  - left. split; [discriminate|].
    repeat case_match; try discriminate; injection Hstep as <-; reflexivity.
Qed.

(** C9.  In every reachable state the log [simulation_results] is the
    list of the results handed to [receive_calc] so far, in order.  A step
    never shortens or rewrites the log: any step other than the
    processing of a result leaves it as it is, and the processing of a
    result appends that result, once, at the end. *)
Theorem results_logged_once s :
  reachable s0 s ->
  RandomThinker.simulation_results (thinker s) = consumed s /\
  processor s = Listening /\
  forall a s', step s a = Some s' ->
    RandomThinker.simulation_results (thinker s)
      `prefix_of` RandomThinker.simulation_results (thinker s') /\
    (a <> ProcessorResult ->
     RandomThinker.simulation_results (thinker s') =
     RandomThinker.simulation_results (thinker s)) /\
    (a = ProcessorResult ->
     exists r q1,
       PipeQueues.poll (RandomThinker.queues (thinker s)) result_topic = Some (r, q1) /\
       RandomThinker.simulation_results (thinker s') =
       RandomThinker.simulation_results (thinker s) ++ [r]).
Proof.
  intros Hr. pose proof (run_invariant' s Hr) as Hi.
  split; [apply (inv_log _ _ _ _ Hi)|]. split; [apply (inv_processor _ _ _ _ Hi)|].
  intros a s' Hstep.
  assert (Hi' : invariant p pl0 n s') by (eapply step_invariant; eassumption).
  rewrite (inv_log _ _ _ _ Hi), (inv_log _ _ _ _ Hi').
  destruct (step_consumed _ _ _ Hstep) as [[Hne ->]|[-> (r & q1 & Hpoll & ->)]].
  - split; [reflexivity|]. split; [reflexivity|]. intros ->. contradiction.
  - split; [apply prefix_app_r; reflexivity|]. split; [intros []; reflexivity|].
    intros _. eauto.
Qed.

Lemma acquire_enabled s :
  invariant p pl0 n s -> submitter s = Waiting ->
  RandomThinker.done (thinker s) = false -> (outstanding s < p)%nat ->
  exists s1,
    step s SubmitterAcquire = Some s1 /\ submitter s1 = Holding /\
    RandomThinker.priority_list (thinker s1) = RandomThinker.priority_list (thinker s) /\
    sent (thinker s1) = sent (thinker s) /\ outstanding s1 = outstanding s.
Proof.
  intros Hi Hsub Hdone Hlt. unfold step. rewrite Hsub, Hdone.
  unfold RandomThinker.rec_acquire, RandomThinker.lift_rec, ResourceCounter.acquire.
  destruct (inv_rec _ _ _ _ Hi) as [_ _ Hd Hf].
  pose proof (inv_pool _ _ _ _ Hi) as Ha.
  pose proof (inv_in_use _ _ _ _ Hi) as Hu.
  unfold ResourceCounter.in_use in Hu. rewrite Ha in Hu. rewrite Ha.
  assert (is_Some (ResourceCounter.available (RandomThinker.rec (thinker s))
                     !! task_type)) as [free Hv].
  { apply elem_of_dom. rewrite Hd. apply elem_of_dom. eauto. }
  rewrite Hv in Hu. rewrite Hv. rewrite Hsub in Hu. simpl in Hu.
  destruct (Z.leb_spec (Z.of_nat n_slots) free) as [_|Hno].
  - eexists. split; [reflexivity|]. split; [reflexivity|]. split; [reflexivity|].
    split; [|reflexivity].
    unfold sent. cbn [thinker RandomThinker.history RandomThinker.note
                      RandomThinker.set_rec].
    rewrite omap_app. apply app_nil_r.
  - unfold n_slots in Hno. simpl in Hno. lia.
Qed.

Lemma call_submits s front mol :
  invariant p pl0 n s -> submitter s = Holding ->
  RandomThinker.priority_list (thinker s) = front ++ [mol] ->
  exists s2,
    step s SubmitterCall = Some s2 /\ submitter s2 = Waiting /\
    RandomThinker.priority_list (thinker s2) = front /\
    sent (thinker s2) = sent (thinker s) ++ [mol] /\
    outstanding s2 = S (outstanding s) /\
    PipeQueues.active (RandomThinker.queues (thinker s2)) =
      PipeQueues.active (RandomThinker.queues (thinker s)) ++
      [PipeQueues.mkTask "compute_vertical" [mol] "default"].
Proof.
  intros Hi Hsub Hpl. apply pop_Some in Hpl. unfold step. rewrite Hsub.
  rewrite (submit_calc_pop _ front mol (inv_lock _ _ _ _ Hi) Hpl).
  eexists. split; [reflexivity|]. split; [reflexivity|]. split; [reflexivity|].
  split; [|split; [|reflexivity]].
  - unfold sent. cbn [thinker RandomThinker.history]. rewrite omap_app. reflexivity.
  - unfold outstanding. cbn [thinker RandomThinker.queues]. rewrite buffer_send.
    cbn [PipeQueues.send_inputs PipeQueues.active]. rewrite length_app. simpl. lia.
Qed.

Lemma call_faults s :
  invariant p pl0 n s -> submitter s = Holding ->
  RandomThinker.priority_list (thinker s) = [] ->
  exists s2,
    step s SubmitterCall = Some s2 /\
    submitter s2 = SubmitterStopped (IndexError "pop from empty list") /\
    sent (thinker s2) = sent (thinker s) /\
    RandomThinker.queues (thinker s2) = RandomThinker.queues (thinker s) /\
    RandomThinker.history (thinker s2) = RandomThinker.history (thinker s).
Proof.
  intros Hi Hsub Hpl. unfold step. rewrite Hsub.
  rewrite (submit_calc_empty _ (inv_lock _ _ _ _ Hi) Hpl).
  eexists. split; [reflexivity|]. repeat split; reflexivity.
Qed.

Lemma sent_distinct s :
  (forall l, shuffle l ≡ₚ l) -> invariant p pl0 n s ->
  NoDup (sent (thinker s)) /\
  (forall mol, mol ∈ sent (thinker s) -> mol ∈ mols) /\
  (forall mol, mol ∈ RandomThinker.priority_list (thinker s) ->
               mol ∉ sent (thinker s)) /\
  (length (sent (thinker s)) + length (RandomThinker.priority_list (thinker s)))%nat
    = size (list_to_set mols : gset string).
Proof.
  intros Hperm Hi. pose proof (inv_priority _ _ _ _ Hi) as Hpl.
  assert (Hnd : NoDup pl0).
  { unfold initial_priority_list. rewrite Hperm. apply NoDup_elements. }
  rewrite <- Hpl in Hnd. apply NoDup_app in Hnd as (_ & Hdisj & Hrev).
  split; [rewrite reverse_Permutation in Hrev; exact Hrev|].
  split; [|split].
  - intros mol Hin.
    assert (Hin' : mol ∈ pl0).
    { rewrite <- Hpl. apply elem_of_app. right. apply elem_of_reverse. exact Hin. }
    unfold initial_priority_list in Hin'. rewrite Hperm in Hin'.
    apply elem_of_elements, elem_of_list_to_set in Hin'. exact Hin'.
  - intros mol Hin Hs. apply (Hdisj mol Hin). apply elem_of_reverse. exact Hs.
  - assert (Hlen : length pl0 = size (list_to_set mols : gset string)).
    { unfold initial_priority_list. rewrite Hperm. reflexivity. }
    rewrite <- Hlen, <- Hpl, length_app, length_reverse. lia.
Qed.

Lemma step_result_spec s r q1 :
  invariant p pl0 n s ->
  RandomThinker.done (thinker s) = false ->
  PipeQueues.poll (RandomThinker.queues (thinker s)) result_topic = Some (r, q1) ->
  exists s' mol,
    step s ProcessorResult = Some s' /\ args r = [mol] /\
    processor s' = Listening /\ submitter s' = submitter s /\
    consumed s' = consumed s ++ [r] /\
    RandomThinker.queues (thinker s') = q1 /\
    RandomThinker.priority_list (thinker s') = RandomThinker.priority_list (thinker s) /\
    ResourceCounter.in_use (RandomThinker.rec (thinker s')) "simulate" =
      ResourceCounter.in_use (RandomThinker.rec (thinker s)) "simulate" - 1 /\
    RandomThinker.history (thinker s') =
      RandomThinker.history (thinker s) ++
      RandomThinker.EvRelease "simulate" 1 ::
      after_release n (RandomThinker.database (thinker s)) mol r /\
    RandomThinker.database (thinker s') =
      (if success r then <[mol := value r]> (RandomThinker.database (thinker s))
       else RandomThinker.database (thinker s)) /\
    RandomThinker.done (thinker s') =
      (success r &&
       (n <=? Z.of_nat (size (<[mol := value r]> (RandomThinker.database (thinker s)))))) /\
    RandomThinker.logger (thinker s') =
      (if success r then RandomThinker.logger (thinker s)
       else RandomThinker.logger (thinker s) ++ [failure_message r]) /\
    RandomThinker.simulation_results (thinker s') =
      RandomThinker.simulation_results (thinker s) ++ [r].
Proof.
  intros Hi Hdone Hpoll.
  destruct (receive_ready s r q1 Hi Hpoll) as (rc & mol & Hrel & Hargs & _).
  destruct (release_in_use _ _ _ _ Hrel) as [_ Huse].
  pose proof (inv_target _ _ _ _ Hi) as Htarget.
  unfold step. rewrite (inv_processor _ _ _ _ Hi), Hdone, Hpoll.
  set (st1 := RandomThinker.set_queues q1 (thinker s)).
  change (RandomThinker.rec (thinker s)) with (RandomThinker.rec st1) in Hrel.
  unfold after_release. destruct (success r) eqn:Hsucc.
  - rewrite (receive_calc_success st1 r rc mol [] Hrel Hsucc Hargs).
    eexists _, mol. split; [reflexivity|]. split; [exact Hargs|].
    cbn [thinker submitter processor consumed RandomThinker.queues RandomThinker.rec
         RandomThinker.done RandomThinker.logger RandomThinker.database
         RandomThinker.simulation_results RandomThinker.priority_list
         RandomThinker.history RandomThinker.n_to_evaluate st1
         RandomThinker.set_queues andb].
    rewrite Htarget, Hdone.
    repeat (split; [first [reflexivity | exact Huse]|]).
    split; [|split; reflexivity].
    destruct (_ <=? _); reflexivity.
  - rewrite (receive_calc_failure st1 r rc Hrel Hsucc).
    eexists _, mol. split; [reflexivity|]. split; [exact Hargs|].
    cbn [thinker submitter processor consumed RandomThinker.queues RandomThinker.rec
         RandomThinker.done RandomThinker.logger RandomThinker.database
         RandomThinker.simulation_results RandomThinker.priority_list
         RandomThinker.history RandomThinker.n_to_evaluate st1
         RandomThinker.set_queues andb].
    repeat (split; [first [reflexivity | exact Huse | exact Hdone]|]).
    reflexivity.
Qed.

Lemma stored_successes (rs : list Result) :
  Forall (fun r => exists mol, args r = [mol]) rs ->
  args <$> List.filter success rs = (fun mol => [mol]) <$> stored rs.
Proof.
  induction 1 as [|r rs [mol Hr] _ IH]; [reflexivity|].
  unfold stored in *. simpl. destruct (success r); simpl; [|exact IH].
  rewrite Hr. simpl. f_equal. exact IH.
Qed.

Lemma database_counts_successes s :
  (forall l, shuffle l ≡ₚ l) -> invariant p pl0 n s ->
  size (RandomThinker.database (thinker s)) =
  length (List.filter success (consumed s)).
Proof.
  intros Hperm Hi. destruct (sent_distinct s Hperm Hi) as (Hnd & _).
  pose proof (inv_tasks _ _ _ _ Hi) as Ht.
  assert (Hnd' : NoDup (args <$> consumed s)).
  { apply (NoDup_fmap_2 (fun mol : string => [mol])) in Hnd.
    rewrite <- Ht in Hnd. apply NoDup_app in Hnd as (_ & _ & Hnd).
    apply NoDup_app in Hnd as (_ & _ & Hnd). exact Hnd. }
  assert (Hsingle : Forall (fun r => exists mol, args r = [mol]) (consumed s)).
  { apply Forall_forall. intros r Hin.
    assert (Hin' : args r ∈ (fun mol => [mol]) <$> sent (thinker s)).
    { rewrite <- Ht. apply elem_of_app. right. apply elem_of_app. right.
      apply list_elem_of_fmap_2. exact Hin. }
    apply list_elem_of_fmap in Hin' as (mol & -> & _). eauto. }
  assert (Hst : NoDup (stored (consumed s))).
  { apply (NoDup_fmap (fun mol : string => [mol])).
    rewrite <- stored_successes by exact Hsingle.
    eapply sublist_NoDup; [exact Hnd'|].
    clear. induction (consumed s) as [|r rs IH]; simpl.
    - constructor.
    - destruct (success r); [apply sublist_skip|apply sublist_cons]; exact IH. }
  rewrite <- size_dom, (inv_database _ _ _ _ Hi).
  rewrite size_list_to_set by exact Hst.
  rewrite <- (length_fmap (fun mol : string => [mol])).
  rewrite <- stored_successes by exact Hsingle. apply length_fmap.
Qed.

(** C3, amended.  In every reachable state of the thinker with
    termination unset, processing the result at the head of the buffer
    performs its effects in this order: the release of one [simulate]
    slot first, then (only on success) the store under the input of the
    task, then the termination signal, then the append to the log.  The
    database afterwards holds one entry per successful result consumed.
    The signal is set by this step exactly when the result is a success
    and the database then holds at least [n_to_evaluate] entries.  For a
    positive [n_to_evaluate] the database was below the target before and
    the signal is set exactly when the result is a success and the size
    now equals the target; for an [n_to_evaluate] of zero or less every
    success sets it, with at least one entry in the database.  It is set
    at most once. *)
Theorem release_then_store_then_signal s r q1 :
  (forall l, shuffle l ≡ₚ l) ->
  reachable s0 s ->
  RandomThinker.done (thinker s) = false ->
  PipeQueues.poll (RandomThinker.queues (thinker s)) result_topic = Some (r, q1) ->
  exists s' mol,
    step s ProcessorResult = Some s' /\ args r = [mol] /\
    RandomThinker.history (thinker s') =
      RandomThinker.history (thinker s) ++
      RandomThinker.EvRelease "simulate" 1 ::
      after_release n (RandomThinker.database (thinker s)) mol r /\
    ResourceCounter.in_use (RandomThinker.rec (thinker s')) "simulate" =
      ResourceCounter.in_use (RandomThinker.rec (thinker s)) "simulate" - 1 /\
    RandomThinker.database (thinker s') =
      (if success r then <[mol := value r]> (RandomThinker.database (thinker s))
       else RandomThinker.database (thinker s)) /\
    size (RandomThinker.database (thinker s')) =
      length (List.filter success (consumed s')) /\
    (RandomThinker.done (thinker s') = true <->
     success r = true /\
     n <= Z.of_nat (size (RandomThinker.database (thinker s')))) /\
    (0 < n ->
     Z.of_nat (size (RandomThinker.database (thinker s))) < n /\
     (RandomThinker.done (thinker s') = true <->
      success r = true /\
      Z.of_nat (size (RandomThinker.database (thinker s'))) = n)) /\
    (n <= 0 ->
     (RandomThinker.done (thinker s') = true <-> success r = true) /\
     (success r = true ->
      (1 <= size (RandomThinker.database (thinker s')))%nat)) /\
    count is_set_done (thinker s') =
      (if RandomThinker.done (thinker s') then 1%nat else 0%nat).
Proof.
  intros Hperm Hr Hdone Hpoll. pose proof (run_invariant' s Hr) as Hi.
  destruct (step_result_spec s r q1 Hi Hdone Hpoll)
    as (s' & mol & Hstep & Hargs & _ & _ & _ & _ & _ & Huse & Hhist & Hdb & Hd' & _).
  assert (Hi' : invariant p pl0 n s') by (eapply step_invariant; eassumption).
  assert (Hgen : RandomThinker.done (thinker s') = true <->
                 success r = true /\
                 n <= Z.of_nat (size (RandomThinker.database (thinker s')))).
  { rewrite Hd', Hdb. destruct (success r); simpl.
    - rewrite Z.leb_le. split; [intros ?; split; [reflexivity|assumption]|intros [_ ?]; assumption].
    - split; [discriminate|intros [? _]; discriminate]. }
  assert (Hone : success r = true ->
                 (1 <= size (RandomThinker.database (thinker s')))%nat).
  { intros Hs. rewrite Hdb, Hs.
    destruct (RandomThinker.database (thinker s) !! mol) eqn:Hm.
    - rewrite map_size_insert_Some by eauto.
      assert (size (RandomThinker.database (thinker s)) <> 0%nat); [|lia].
      intros Hz. apply map_size_empty_inv in Hz. rewrite Hz, lookup_empty in Hm.
      discriminate.
    - rewrite map_size_insert_None by exact Hm. lia. }
  exists s', mol. split; [exact Hstep|]. split; [exact Hargs|].
  split; [exact Hhist|]. split; [exact Huse|]. split; [exact Hdb|].
  split; [apply database_counts_successes; assumption|].
  split; [exact Hgen|]. split; [|split; [|apply (inv_set_done _ _ _ _ Hi')]].
  - intros Hpos.
    assert (Hlt : Z.of_nat (size (RandomThinker.database (thinker s))) < n).
    { pose proof (inv_done _ _ _ _ Hi Hpos) as Hb. rewrite Hdone in Hb.
      symmetry in Hb. apply bool_decide_eq_false in Hb. lia. }
    split; [exact Hlt|].
    pose proof (inv_size _ _ _ _ Hi' Hpos) as Hle.
    rewrite Hgen. split; intros [Hs Hn]; (split; [exact Hs|lia]).
  - intros Hneg. split; [|exact Hone].
    rewrite Hgen. split; [intros [Hs _]; exact Hs|].
    intros Hs. split; [exact Hs|]. specialize (Hone Hs). lia.
Qed.

(** What a step adds to the history: every pop comes with the send of
    its molecule, and nothing else pops or sends. *)
Lemma step_history s a s' :
  invariant p pl0 n s -> step s a = Some s' ->
  exists h,
    RandomThinker.history (thinker s') = RandomThinker.history (thinker s) ++ h /\
    omap (fun e => match e with
                   | RandomThinker.EvSend meth inputs name =>
                       Some (PipeQueues.mkTask meth inputs name)
                   | _ => None
                   end) h =
    simulation_task <$>
      omap (fun e => match e with RandomThinker.EvPop mol => Some mol | _ => None end) h.
Proof.
  intros Hi Hstep. destruct a.
  - unfold step in Hstep. destruct (submitter s); try discriminate.
    destruct (RandomThinker.done (thinker s)); [discriminate|].
    unfold RandomThinker.rec_acquire, RandomThinker.lift_rec in Hstep.
    destruct (ResourceCounter.acquire _ _ _); try discriminate; injection Hstep as <-.
    + exists [RandomThinker.EvAcquire task_type n_slots]. split; reflexivity.
    + exists []. split; [symmetry; apply app_nil_r|reflexivity].
  - destruct (submitter s) eqn:Hsub; try (unfold step in Hstep; rewrite Hsub in Hstep;
                                          discriminate).
    destruct (RandomThinker.priority_list (thinker s)) as [|mol front _] eqn:Hpl
      using rev_ind.
    + destruct (call_faults s Hi Hsub Hpl) as (s2 & Hs2 & _ & _ & _ & Hh).
      assert (s' = s2) as -> by congruence.
      exists []. split; [rewrite Hh; symmetry; apply app_nil_r|reflexivity].
    + apply pop_Some in Hpl. unfold step in Hstep. rewrite Hsub in Hstep.
      rewrite (submit_calc_pop _ front mol (inv_lock _ _ _ _ Hi) Hpl) in Hstep.
      injection Hstep as <-. eexists. split; reflexivity.
  - unfold step in Hstep. case_decide; [|discriminate]. injection Hstep as <-.
    exists []. split; [symmetry; apply app_nil_r|reflexivity].
  - assert (Hdone : RandomThinker.done (thinker s) = false).
    { unfold step in Hstep. destruct (processor s); try discriminate.
      destruct (RandomThinker.done (thinker s)); [discriminate|reflexivity]. }
    destruct (PipeQueues.poll (RandomThinker.queues (thinker s)) result_topic)
      as [[r q1]|] eqn:Hpoll.
    2:{ unfold step in Hstep. rewrite (inv_processor _ _ _ _ Hi), Hdone, Hpoll in Hstep.
        discriminate. }
    destruct (step_result_spec s r q1 Hi Hdone Hpoll)
      as (s2 & mol & Hs2 & _ & _ & _ & _ & _ & _ & _ & Hh & _).
    assert (s' = s2) as -> by congruence.
    eexists. split; [exact Hh|].
    unfold after_release. destruct (success r); [destruct (_ <=? _)|]; reflexivity.
  - unfold step in Hstep. destruct (processor s); try discriminate.
    destruct (RandomThinker.done (thinker s)); [discriminate|].
    destruct (PipeQueues.poll _ _); [discriminate|]. injection Hstep as <-.
    exists []. split; [symmetry; apply app_nil_r|reflexivity].
Qed.

(** The tasks sent are the tasks of the molecules popped, in order. *)
Lemma submitted_sent s :
  reachable s0 s -> submitted (thinker s) = simulation_task <$> sent (thinker s).
Proof.
  induction 1 as [|s a s' Hr IH Hstep].
  - unfold start in Hstart.
    destruct (init_spec shuffle (PipeQueues.new names) n p mols) as (rc & _ & Hinit).
    rewrite Hinit in Hstart. injection Hstart as <-. reflexivity.
  - destruct (step_history s a s' (run_invariant' s Hr) Hstep) as (h & Hh & Hsend).
    unfold submitted, sent in *. rewrite Hh, !omap_app, fmap_app, IH, Hsend.
    reflexivity.
Qed.

(** C10.  When the shuffle is a permutation, in every reachable state the
    tasks handed to the queue are the [compute_vertical] tasks of the
    molecules popped, in order, on the default topic; they are pairwise
    distinct, their molecules are among the candidates, and they are the
    tasks that are running, buffered or processed.  Tasks sent and
    molecules remaining together are as many as the distinct candidates.
    When the submitting agent holds a slot and fewer tasks were sent than
    there are distinct candidates, its call pops a candidate whose task
    was not sent before and hands that task to the queue; once as many
    tasks were sent as there are distinct candidates, the call stops on
    the [IndexError] of an empty-list pop and sends nothing. *)
Theorem pops_within_candidates s :
  (forall l, shuffle l ≡ₚ l) ->
  reachable s0 s ->
  submitted (thinker s) = simulation_task <$> sent (thinker s) /\
  NoDup (submitted (thinker s)) /\
  (PipeQueues.task_args <$> PipeQueues.active (RandomThinker.queues (thinker s)))
    ++ (args <$> PipeQueues.buffer (RandomThinker.queues (thinker s)) result_topic)
    ++ (args <$> consumed s)
    ≡ₚ PipeQueues.task_args <$> submitted (thinker s) /\
  NoDup (sent (thinker s)) /\
  (forall mol, mol ∈ sent (thinker s) -> mol ∈ mols) /\
  (length (submitted (thinker s)) +
   length (RandomThinker.priority_list (thinker s)))%nat
    = size (list_to_set mols : gset string) /\
  (submitter s = Holding ->
   ((length (submitted (thinker s)) < size (list_to_set mols : gset string))%nat ->
    exists s' mol,
      step s SubmitterCall = Some s' /\ submitter s' = Waiting /\
      mol ∈ mols /\ (simulation_task mol ∉ submitted (thinker s)) /\
      submitted (thinker s') = submitted (thinker s) ++ [simulation_task mol] /\
      PipeQueues.active (RandomThinker.queues (thinker s')) =
        PipeQueues.active (RandomThinker.queues (thinker s)) ++ [simulation_task mol] /\
      sent (thinker s') = sent (thinker s) ++ [mol] /\ mol ∉ sent (thinker s)) /\
   (length (submitted (thinker s)) = size (list_to_set mols : gset string) ->
    exists s',
      step s SubmitterCall = Some s' /\
      submitter s' = SubmitterStopped (IndexError "pop from empty list") /\
      submitted (thinker s') = submitted (thinker s) /\
      RandomThinker.queues (thinker s') = RandomThinker.queues (thinker s))).
Proof.
  intros Hperm Hr. pose proof (run_invariant' s Hr) as Hi.
  destruct (sent_distinct s Hperm Hi) as (Hnd & Hin & Hfresh & Hlen).
  pose proof (submitted_sent s Hr) as Hsub_sent.
  assert (Hinj : Inj (=) (=) simulation_task) by (intros a b [= ->]; reflexivity).
  split; [exact Hsub_sent|].
  split; [rewrite Hsub_sent; apply NoDup_fmap_2; [exact Hinj|exact Hnd]|].
  split.
  { rewrite Hsub_sent, <- list_fmap_compose. apply (inv_tasks _ _ _ _ Hi). }
  split; [exact Hnd|]. split; [exact Hin|].
  split; [rewrite Hsub_sent, length_fmap; exact Hlen|].
  intros Hsub. rewrite Hsub_sent, length_fmap. split.
  - intros Hlt.
    destruct (RandomThinker.priority_list (thinker s)) as [|a l] eqn:Hpl
      using rev_ind; [simpl in Hlen; lia|]. clear IHl.
    destruct (call_submits s l a Hi Hsub Hpl) as (s' & Hstep & Hw & _ & Hs & _ & Hact).
    assert (Hno : a ∉ sent (thinker s)).
    { apply Hfresh. apply elem_of_app. right. left. }
    assert (Hr' : reachable s0 s') by (eapply reach_step; eassumption).
    exists s', a. split; [exact Hstep|]. split; [exact Hw|].
    split.
    { pose proof (run_invariant' s' Hr') as Hi'.
      destruct (sent_distinct s' Hperm Hi') as (_ & Hin' & _).
      apply Hin'. rewrite Hs. apply elem_of_app. right. left. }
    split.
    { intros Hin'. apply Hno. apply list_elem_of_fmap in Hin' as (b & Hb & Hin').
      apply Hinj in Hb. subst b. exact Hin'. }
    split; [rewrite (submitted_sent s' Hr'), Hs, fmap_app; reflexivity|].
    split; [exact Hact|]. split; [exact Hs|exact Hno].
  - intros Heq.
    assert (Hpl : RandomThinker.priority_list (thinker s) = []).
    { apply length_zero_iff_nil. lia. }
    destruct (call_faults s Hi Hsub Hpl) as (s' & Hstep & Hstop & Hs & Hq & _).
    assert (Hr' : reachable s0 s') by (eapply reach_step; eassumption).
    exists s'. split; [exact Hstep|]. split; [exact Hstop|].
    split; [rewrite (submitted_sent s' Hr'), Hs; reflexivity|exact Hq].
Qed.

Lemma replacement_submitted search_space st tn fut why new_mol :
  ParslLoop.futures st !! ParslLoop.completes tn = Some fut ->
  ParslLoop.exception tn = Some why ->
  search_space !! ParslLoop.sampled tn = Some new_mol ->
  exists st',
    ParslLoop.iteration search_space st tn = Some st' /\
    ParslLoop.futures st' =
      delete (ParslLoop.completes tn) (ParslLoop.futures st) ++
      [ParslLoop.mkFuture (ParslLoop.launched st) new_mol] /\
    length (ParslLoop.futures st') = length (ParslLoop.futures st) /\
    ParslLoop.train_data st' = ParslLoop.train_data st.
Proof.
  intros Hfut Hexc Hsample. unfold ParslLoop.iteration.
  rewrite Hfut, Hexc, Hsample. eexists. split; [reflexivity|].
  split; [reflexivity|]. split; [|reflexivity]. simpl.
  rewrite length_app, length_delete by eauto. simpl.
  apply lookup_lt_Some in Hfut. lia.
Qed.

(** C7.  In every reachable state with termination unset, processing a
    failed result releases one [simulate] slot, logs the warning with the
    failure description, leaves the database and the termination signal
    unchanged, appends the result to the log and leaves the processing
    agent listening.  The freed slot lets the waiting submitting agent
    acquire and submit the next molecule of the priority list, so the
    number of outstanding tasks is restored.  In the loop of the Parsl
    notebook a future that raised is removed and a future for a newly
    sampled molecule is appended, so the number of futures is kept. *)
Theorem failed_result_released_and_logged s r q1 :
  reachable s0 s ->
  RandomThinker.done (thinker s) = false ->
  PipeQueues.poll (RandomThinker.queues (thinker s)) result_topic = Some (r, q1) ->
  success r = false ->
  (exists s',
    step s ProcessorResult = Some s' /\
    processor s' = Listening /\
    RandomThinker.done (thinker s') = false /\
    ResourceCounter.in_use (RandomThinker.rec (thinker s')) "simulate" =
      ResourceCounter.in_use (RandomThinker.rec (thinker s)) "simulate" - 1 /\
    RandomThinker.logger (thinker s') =
      RandomThinker.logger (thinker s) ++ [failure_message r] /\
    RandomThinker.database (thinker s') = RandomThinker.database (thinker s) /\
    RandomThinker.simulation_results (thinker s') =
      RandomThinker.simulation_results (thinker s) ++ [r] /\
    (submitter s = Waiting ->
     forall front mol,
       RandomThinker.priority_list (thinker s) = front ++ [mol] ->
       exists s1 s2,
         step s' SubmitterAcquire = Some s1 /\
         step s1 SubmitterCall = Some s2 /\
         sent (thinker s2) = sent (thinker s) ++ [mol] /\
         outstanding s2 = outstanding s)) /\
  (forall search_space st tn fut why new_mol,
     ParslLoop.futures st !! ParslLoop.completes tn = Some fut ->
     ParslLoop.exception tn = Some why ->
     search_space !! ParslLoop.sampled tn = Some new_mol ->
     exists st',
       ParslLoop.iteration search_space st tn = Some st' /\
       ParslLoop.futures st' =
         delete (ParslLoop.completes tn) (ParslLoop.futures st) ++
         [ParslLoop.mkFuture (ParslLoop.launched st) new_mol] /\
       length (ParslLoop.futures st') = length (ParslLoop.futures st) /\
       ParslLoop.train_data st' = ParslLoop.train_data st).
Proof.
  intros Hr Hdone Hpoll Hfail. split; [|apply replacement_submitted].
  pose proof (run_invariant' s Hr) as Hi.
  destruct (step_result_spec s r q1 Hi Hdone Hpoll)
    as (s' & mol0 & Hstep & _ & Hproc & Hsub' & _ & _ & Hpl' & Huse & Hhist &
        Hdb & Hd' & Hlog & Hres).
  rewrite Hfail in Hdb, Hd', Hlog. simpl in Hd'.
  assert (Hi' : invariant p pl0 n s') by (eapply step_invariant; eassumption).
  exists s'. repeat (split; [assumption|]).
  intros Hwait front mol Hpl.
  assert (Hsent : sent (thinker s') = sent (thinker s)).
  { unfold sent. rewrite Hhist, omap_app. unfold after_release. rewrite Hfail.
    apply app_nil_r. }
  assert (Hout : S (outstanding s') = outstanding s).
  { pose proof (inv_in_use _ _ _ _ Hi) as H1.
    pose proof (inv_in_use _ _ _ _ Hi') as H2.
    change task_type with "simulate"%string in H1, H2.
    rewrite Hsub', Hwait in H2. rewrite Hwait in H1.
    rewrite H1, H2 in Huse. simpl in Huse.
    destruct (poll_Some _ _ _ _ Hpoll) as (Hbuf & _ & _).
    assert (1 <= outstanding s)%nat by (unfold outstanding; rewrite Hbuf; simpl; lia).
    lia. }
  pose proof (in_use_bound s Hi) as Hb. rewrite Hwait in Hb. simpl in Hb.
  destruct (acquire_enabled s' Hi') as (s1 & Hs1 & Hhold & Hpl1 & Hsent1 & Hout1);
    [congruence|assumption|lia|].
  assert (Hi1 : invariant p pl0 n s1) by (eapply step_invariant; eassumption).
  destruct (call_submits s1 front mol Hi1 Hhold) as (s2 & Hs2 & _ & _ & Hsent2 & Hout2 & _);
    [congruence|].
  exists s1, s2. split; [exact Hs1|]. split; [exact Hs2|].
  split; [congruence|]. lia.
Qed.

End Runs.

(** ** JSON text *)

#[local] Arguments String.append !s1 s2 : simpl nomatch.

Section JsonFacts.
Import Json.

Lemma append_assoc (a b c : string) : (a +:+ b) +:+ c = a +:+ (b +:+ c).
Proof. induction a as [|x a IH]; simpl; [reflexivity|]. rewrite IH. reflexivity. Qed.

Lemma append_nil_r (a : string) : a +:+ EmptyString = a.
Proof. induction a as [|x a IH]; simpl; [reflexivity|]. rewrite IH. reflexivity. Qed.

Lemma expect_app lit rest : expect lit (lit +:+ rest) = Some rest.
Proof.
  induction lit as [|a lit IH]; simpl; [destruct rest; reflexivity|].
  rewrite Ascii.eqb_refl. exact IH.
Qed.

Lemma parse_body_escape s rest :
  parse_body (escape s +:+ String dquote rest) = Some (s, rest).
Proof.
  induction s as [|c s IH]; simpl; [reflexivity|].
  destruct (Ascii.eqb_spec c dquote) as [->|Hq]; [simpl; rewrite IH; reflexivity|].
  destruct (Ascii.eqb_spec c backslash) as [->|Hb]; [simpl; rewrite IH; reflexivity|].
  destruct (Ascii.eqb_spec c lf) as [->|Hl]; [simpl; rewrite IH; reflexivity|].
  destruct (Ascii.eqb_spec c cr) as [->|Hc]; [simpl; rewrite IH; reflexivity|].
  destruct (Ascii.eqb_spec c tab) as [->|Ht]; [simpl; rewrite IH; reflexivity|].
  simpl. apply Ascii.eqb_neq in Hq, Hb. rewrite Hq, Hb, IH. reflexivity.
Qed.

Lemma parse_string_dumps s rest :
  parse_string (dumps_string s +:+ rest) = Some (s, rest).
Proof.
  unfold dumps_string. simpl. rewrite append_assoc. simpl.
  apply parse_body_escape.
Qed.

(** Numbers *)

Lemma uint_all_number d : all_number (NilEmpty.string_of_uint d) = true.
Proof. induction d; simpl; try rewrite IHd; reflexivity. Qed.

Lemma dumps_Z_all_number z : all_number (dumps_Z z) = true.
Proof.
  unfold dumps_Z. destruct (Z.to_int z) as [d|d]; simpl; apply uint_all_number.
Qed.

Lemma dumps_Z_nonempty z : dumps_Z z <> EmptyString.
Proof.
  unfold dumps_Z. destruct z as [|q|q]; simpl; try discriminate.
  pose proof (DecimalPos.Unsigned.to_uint_nonnil q) as Hn.
  destruct (Pos.to_uint q); try discriminate. contradiction.
Qed.

Lemma span_number_app digits rest :
  all_number digits = true -> starts_number rest = false ->
  span_number (digits +:+ rest) = (digits, rest).
Proof.
  intros Hd Hr.
  induction digits as [|c digits IH];
    cbn [span_number String.append starts_number all_number] in *.
  - destruct rest as [|c rest]; [reflexivity|].
    cbn [span_number starts_number] in *. rewrite Hr. reflexivity.
  - apply andb_prop in Hd as [Hc Hd]. rewrite Hc, (IH Hd). reflexivity.
Qed.

Lemma parse_Z_dumps z rest :
  starts_number rest = false -> parse_Z (dumps_Z z +:+ rest) = Some (z, rest).
Proof.
  intros Hr. unfold parse_Z.
  rewrite (span_number_app _ _ (dumps_Z_all_number z) Hr).
  pose proof (dumps_Z_nonempty z) as Hne.
  destruct (dumps_Z z) eqn:Hz; [contradiction|]. rewrite <- Hz.
  unfold dumps_Z. rewrite NilEmpty.isi, DecimalZ.of_to. reflexivity.
Qed.

Lemma number_char_first c :
  number_char c = true ->
  Ascii.eqb c "n" = false /\ Ascii.eqb c "t" = false /\ Ascii.eqb c "f" = false /\
  Ascii.eqb c dquote = false /\ Ascii.eqb c "[" = false /\ Ascii.eqb c lf = false.
Proof.
  destruct c as [[] [] [] [] [] [] [] []]; cbv; intros H;
    try discriminate H; repeat split; reflexivity.
Qed.

Lemma length_append (a b : string) :
  String.length (a +:+ b) = (String.length a + String.length b)%nat.
Proof. induction a as [|x a IH]; simpl; [reflexivity|]. rewrite IH. reflexivity. Qed.

Lemma dumps_strings_cons x l :
  l <> [] -> dumps_strings (x :: l) = dumps_string x +:+ ", " +:+ dumps_strings l.
Proof. destruct l; [contradiction|reflexivity]. Qed.

Lemma dumps_string_length x : (1 <= String.length (dumps_string x))%nat.
Proof. unfold dumps_string. simpl. lia. Qed.

Lemma dumps_strings_length l : (length l <= String.length (dumps_strings l))%nat.
Proof.
  induction l as [|x l IH]; [simpl; lia|].
  pose proof (dumps_string_length x).
  destruct l as [|y l]; [cbn [dumps_strings length]; lia|].
  rewrite dumps_strings_cons by discriminate.
  rewrite !length_append. cbn [length] in *. lia.
Qed.

Lemma parse_strings_dumps l : forall fuel rest,
  l <> [] -> (length l <= fuel)%nat -> expect ", " rest = None ->
  parse_strings fuel (dumps_strings l +:+ rest) = Some (l, rest).
Proof.
  induction l as [|x l IH]; intros fuel rest Hne Hfuel Hrest; [contradiction|].
  destruct fuel as [|fuel]; [simpl in Hfuel; lia|].
  destruct l as [|y l].
  - cbn [dumps_strings parse_strings]. rewrite parse_string_dumps, Hrest. reflexivity.
  - rewrite dumps_strings_cons by discriminate.
    rewrite !append_assoc. cbn [parse_strings].
    rewrite parse_string_dumps, expect_app.
    rewrite IH; [reflexivity|discriminate|simpl in *; lia|exact Hrest].
Qed.

Lemma parse_inputs_dumps args rest :
  parse_inputs ("[[" +:+ dumps_strings args +:+ "], {}]" +:+ rest) = Some (args, rest).
Proof.
  unfold parse_inputs. rewrite expect_app.
  destruct args as [|x l].
  - change (dumps_strings [] +:+ "], {}]" +:+ rest) with ("], {}]" +:+ rest).
    rewrite expect_app. reflexivity.
  - assert (Hno : expect "], {}]" (dumps_strings (x :: l) +:+ "], {}]" +:+ rest) = None).
    { destruct l; [|rewrite dumps_strings_cons by discriminate]; reflexivity. }
    rewrite Hno.
    rewrite parse_strings_dumps; [|discriminate| |reflexivity].
    + rewrite expect_app. reflexivity.
    + rewrite length_append.
      pose proof (dumps_strings_length (x :: l)). lia.
Qed.

Lemma parse_value_dumps v rest :
  starts_number rest = false ->
  parse_value (dumps_value v +:+ rest) = Some (v, rest).
Proof.
  intros Hr. destruct v as [|[]|z|s|args]; cbn [dumps_value].
  - destruct rest; reflexivity.
  - destruct rest; reflexivity.
  - destruct rest; reflexivity.
  - pose proof (dumps_Z_nonempty z) as Hne.
    pose proof (dumps_Z_all_number z) as Hall.
    pose proof (parse_Z_dumps z rest Hr) as Hp.
    destruct (dumps_Z z) as [|c d]; [contradiction|].
    cbn [all_number] in Hall. apply andb_prop in Hall as [Hc _].
    destruct (number_char_first c Hc) as (H1 & H2 & H3 & H4 & H5 & _).
    cbn [String.append parse_value] in *. rewrite H1, H2, H3, H4, H5, Hp. reflexivity.
  - pose proof (parse_string_dumps s rest) as Hp.
    unfold dumps_string in *. cbn [String.append parse_value] in *.
    replace (Ascii.eqb dquote "n") with false by reflexivity.
    replace (Ascii.eqb dquote "t") with false by reflexivity.
    replace (Ascii.eqb dquote "f") with false by reflexivity.
    rewrite Ascii.eqb_refl, Hp. reflexivity.
  - pose proof (parse_inputs_dumps args rest) as Hp.
    rewrite !append_assoc.
    cbn [String.append parse_value] in *.
    replace (Ascii.eqb "[" "n") with false by reflexivity.
    replace (Ascii.eqb "[" "t") with false by reflexivity.
    replace (Ascii.eqb "[" "f") with false by reflexivity.
    replace (Ascii.eqb "[" dquote) with false by reflexivity.
    rewrite Ascii.eqb_refl, Hp. reflexivity.
Qed.

Lemma parse_member_dumps kv rest :
  starts_number rest = false ->
  parse_member (dumps_member kv +:+ rest) = Some (kv, rest).
Proof.
  intros Hr. destruct kv as [k v]. unfold parse_member, dumps_member. simpl fst. simpl snd.
  rewrite !append_assoc, parse_string_dumps, expect_app, parse_value_dumps by exact Hr.
  reflexivity.
Qed.

Lemma dumps_members_cons kv o :
  o <> [] -> dumps_members (kv :: o) = dumps_member kv +:+ ", " +:+ dumps_members o.
Proof. destruct o; [contradiction|reflexivity]. Qed.

Lemma dumps_member_length kv : (1 <= String.length (dumps_member kv))%nat.
Proof.
  unfold dumps_member. rewrite length_append.
  pose proof (dumps_string_length (fst kv)). lia.
Qed.

Lemma dumps_members_length o : (length o <= String.length (dumps_members o))%nat.
Proof.
  induction o as [|kv o IH]; [simpl; lia|].
  pose proof (dumps_member_length kv).
  destruct o as [|kv' o]; [cbn [dumps_members length]; lia|].
  rewrite dumps_members_cons by discriminate.
  rewrite !length_append. cbn [length] in *. lia.
Qed.

Lemma parse_members_dumps o : forall fuel rest,
  o <> [] -> (length o <= fuel)%nat ->
  parse_members fuel (dumps_members o +:+ String "}" rest) = Some (o, String "}" rest).
Proof.
  induction o as [|kv o IH]; intros fuel rest Hne Hfuel; [contradiction|].
  destruct fuel as [|fuel]; [simpl in Hfuel; lia|].
  destruct o as [|kv' o].
  - cbn [dumps_members parse_members].
    rewrite parse_member_dumps by reflexivity. reflexivity.
  - rewrite dumps_members_cons by discriminate.
    rewrite !append_assoc. cbn [parse_members].
    rewrite parse_member_dumps by reflexivity. rewrite expect_app.
    rewrite IH; [reflexivity|discriminate|simpl in *; lia].
Qed.

Lemma loads_dumps o : loads (dumps o) = Some o.
Proof.
  unfold loads, dumps. rewrite expect_app.
  destruct o as [|kv o]; [reflexivity|].
  assert (Hno : expect "}" (dumps_members (kv :: o) +:+ "}") = None).
  { destruct o; [|rewrite dumps_members_cons by discriminate];
      destruct kv as [k v]; reflexivity. }
  rewrite Hno, parse_members_dumps; [reflexivity|discriminate|].
  rewrite length_append. pose proof (dumps_members_length (kv :: o)). lia.
Qed.

End JsonFacts.

(** ** Saved results *)

Section PersistFacts.
Import Json Persist.

Lemma has_lf_append a b : has_lf (a +:+ b) = has_lf a || has_lf b.
Proof.
  induction a as [|c a IH]; simpl; [reflexivity|].
  rewrite IH. apply orb_assoc.
Qed.

Lemma has_lf_escape s : has_lf (escape s) = false.
Proof.
  induction s as [|c s IH]; simpl; [reflexivity|].
  destruct (Ascii.eqb_spec c dquote); [simpl; exact IH|].
  destruct (Ascii.eqb_spec c backslash); [simpl; exact IH|].
  destruct (Ascii.eqb_spec c lf) as [|Hl]; [simpl; exact IH|].
  destruct (Ascii.eqb_spec c cr); [simpl; exact IH|].
  destruct (Ascii.eqb_spec c tab); [simpl; exact IH|].
  simpl. apply Ascii.eqb_neq in Hl. rewrite Hl. exact IH.
Qed.

Lemma has_lf_dumps_string s : has_lf (dumps_string s) = false.
Proof.
  unfold dumps_string. simpl. rewrite has_lf_append, has_lf_escape. reflexivity.
Qed.

Lemma has_lf_number s : all_number s = true -> has_lf s = false.
Proof.
  induction s as [|c s IH]; simpl; [reflexivity|].
  intros [Hc Hs]%andb_prop.
  destruct (number_char_first c Hc) as (_ & _ & _ & _ & _ & ->). apply IH, Hs.
Qed.

Lemma has_lf_dumps_strings l : has_lf (dumps_strings l) = false.
Proof.
  induction l as [|x l IH]; [reflexivity|].
  destruct l as [|y l]; [apply has_lf_dumps_string|].
  rewrite dumps_strings_cons by discriminate.
  rewrite !has_lf_append, has_lf_dumps_string, IH. reflexivity.
Qed.

Lemma has_lf_dumps_value v : has_lf (dumps_value v) = false.
Proof.
  destruct v as [|[]|z|s|args]; cbn [dumps_value]; try reflexivity.
  - apply has_lf_number, dumps_Z_all_number.
  - apply has_lf_dumps_string.
  - rewrite !has_lf_append, has_lf_dumps_strings. reflexivity.
Qed.

Lemma has_lf_dumps_members o : has_lf (dumps_members o) = false.
Proof.
  assert (Hm : forall kv, has_lf (dumps_member kv) = false).
  { intros kv. unfold dumps_member.
    rewrite !has_lf_append, has_lf_dumps_string, has_lf_dumps_value. reflexivity. }
  induction o as [|kv o IH]; [reflexivity|].
  destruct o as [|kv' o]; [apply Hm|].
  rewrite dumps_members_cons by discriminate.
  rewrite !has_lf_append, Hm, IH. reflexivity.
Qed.

Lemma has_lf_dumps o : has_lf (dumps o) = false.
Proof. unfold dumps. rewrite !has_lf_append, has_lf_dumps_members. reflexivity. Qed.

Lemma split_lines_line l rest :
  has_lf l = false -> split_lines (l +:+ String lf rest) = l :: split_lines rest.
Proof.
  induction l as [|c l IH]; simpl.
  - intros _. reflexivity.
  - intros [Hc Hl]%orb_false_elim. rewrite Hc, (IH Hl). reflexivity.
Qed.

Lemma split_lines_text ls :
  Forall (fun l => has_lf l = false) ls -> split_lines (lines_text ls) = ls.
Proof.
  induction 1 as [|l ls Hl _ IH]; [reflexivity|].
  change (lines_text (l :: ls)) with (l +:+ String lf (lines_text ls)).
  rewrite split_lines_line by exact Hl. f_equal. exact IH.
Qed.

Lemma lines_text_app ls1 ls2 :
  lines_text (ls1 ++ ls2) = lines_text ls1 +:+ lines_text ls2.
Proof.
  induction ls1 as [|l ls1 IH]; [reflexivity|].
  change (lines_text ((l :: ls1) ++ ls2))
    with (l +:+ String lf (lines_text (ls1 ++ ls2))).
  change (lines_text (l :: ls1)) with (l +:+ String lf (lines_text ls1)).
  rewrite IH, append_assoc. reflexivity.
Qed.

Lemma fold_print (f : Result -> string) rs : forall fp,
  fold_left (fun fp r => print_to fp (f r)) rs fp = fp +:+ lines_text (f <$> rs).
Proof.
  induction rs as [|r rs IH]; intros fp; simpl.
  - symmetry. apply append_nil_r.
  - rewrite IH. unfold print_to. rewrite !append_assoc. reflexivity.
Qed.

Lemma save_random_text rs : save_random rs = lines_text (json ∅ <$> rs).
Proof. unfold save_random. rewrite fold_print. reflexivity. Qed.

Lemma save_batched_text sims learns :
  save_batched sims learns =
  lines_text ((json ∅ <$> sims) ++ (json learning_exclude <$> learns)).
Proof.
  unfold save_batched. rewrite !fold_print, lines_text_app. reflexivity.
Qed.

Lemma without_empty o : without ∅ o = o.
Proof.
  unfold without. induction o as [|kv o IH]; [reflexivity|].
  simpl. rewrite IH. reflexivity.
Qed.

Lemma without_learning r :
  without learning_exclude (fields r) =
  [("method"%string, Str (method r));
   ("success"%string, Bool (success r));
   ("failure_info"%string, optional Str (failure_info r));
   ("topic"%string, Str (topic r));
   ("time_created"%string, Num (time_created r));
   ("time_compute_started"%string, Num (time_compute_started r));
   ("time_compute_ended"%string, Num (time_compute_ended r));
   ("time_result_received"%string, Num (time_result_received r))].
Proof. reflexivity. Qed.

Lemma read_lines (f : Result -> object) rs :
  mapM loads ((fun r => dumps (f r)) <$> rs) = Some (f <$> rs).
Proof.
  apply mapM_Some_2.
  induction rs as [|r rs IH]; constructor; [apply loads_dumps|exact IH].
Qed.

Lemma result_of_fields r : result_of (fields r) = Some r.
Proof. destruct r as [m a tp ok [v|] [f|] t1 t2 t3 t4]; reflexivity. Qed.

Lemma carries_fields r : carries required (fields r) = true.
Proof. reflexivity. Qed.

(** C8, counterexample.  The file of the batched run holds a record
    without the members [inputs] and [value]: the record of a learning
    result, which the cell writes with these two excluded. *)
Lemma learning_record_lacks_inputs : ~ every_record_complete.
Proof.
  intros Hall. destruct (Hall [] [a_learning_result]) as (records & Hread & Hc).
  vm_compute in Hread. injection Hread as <-.
  apply Forall_inv in Hc. vm_compute in Hc. discriminate Hc.
Qed.

(** C8, amended.  The saved file holds one line per result, in order, and
    no line holds a line feed; reading it back line by line gives the
    members that were written.  Every simulation result carries all
    members of the record schema; a learning result carries the method,
    the success flag, the failure description and the times, and neither
    its inputs nor its value.  The file of the random run, which holds
    simulation results only, reads back as the results that were
    saved. *)
Theorem saved_results_round_trip (sims learns : list Result) :
  let lines := (json ∅ <$> sims) ++ (json learning_exclude <$> learns) in
  split_lines (save_batched sims learns) = lines /\
  Forall (fun l => has_lf l = false) lines /\
  read_json (save_batched sims learns) =
    Some ((fields <$> sims) ++
          ((fun r => without learning_exclude (fields r)) <$> learns)) /\
  Forall (fun r => carries required (fields r) = true) sims /\
  Forall (fun r =>
            let o := without learning_exclude (fields r) in
            carries learning_keys o = true /\
            lookup_member "inputs" o = None /\ lookup_member "value" o = None)
         learns /\
  read_json (save_random sims) ≫= mapM result_of = Some sims.
Proof.
  intros lines.
  assert (Hlf : Forall (fun l => has_lf l = false) lines).
  { apply Forall_app. split; apply Forall_fmap, Forall_true; intros r; apply has_lf_dumps. }
  assert (Hsplit : split_lines (save_batched sims learns) = lines).
  { rewrite save_batched_text. apply split_lines_text, Hlf. }
  split; [exact Hsplit|]. split; [exact Hlf|]. split; [|split; [|split]].
  - unfold read_json. rewrite Hsplit. unfold lines. apply mapM_Some_2.
    apply Forall2_app.
    + clear. induction sims as [|r rs IH]; constructor; [|exact IH].
      unfold json. rewrite without_empty. apply loads_dumps.
    + clear. induction learns as [|r rs IH]; constructor; [|exact IH].
      apply loads_dumps.
  - apply Forall_true. intros r. apply carries_fields.
  - apply Forall_true. intros r. rewrite without_learning. repeat split; reflexivity.
  - unfold read_json. rewrite save_random_text, split_lines_text.
    2:{ apply Forall_fmap, Forall_true. intros r. apply has_lf_dumps. }
    assert (Hread : mapM loads (json ∅ <$> sims) = Some (fields <$> sims)).
    { apply mapM_Some_2. clear. induction sims as [|r rs IH]; constructor; [|exact IH].
      unfold json. rewrite without_empty. apply loads_dumps. }
    rewrite Hread. simpl. apply mapM_Some_2.
    clear. induction sims as [|r rs IH]; constructor; [apply result_of_fields|exact IH].
Qed.

End PersistFacts.

(** ** Example runs *)

Section Witnesses.
Import Agents Example.

Lemma run_reachable s0 sched : forall s, reachable s0 s -> reachable s0 (run s sched).
Proof.
  induction sched as [|a sched IH]; intros s Hr; [exact Hr|].
  simpl. apply IH. destruct (step s a) as [s'|] eqn:Hstep; simpl; [|exact Hr].
  eapply reach_step; eassumption.
Qed.

Lemma both_sent_reachable : reachable thinker0 both_sent.
Proof. exact (run_reachable thinker0 _ thinker0 (reach_start _)). Qed.

Lemma one_succeeded_reachable : reachable thinker0 one_succeeded.
Proof. exact (run_reachable thinker0 _ both_sent both_sent_reachable). Qed.

Lemma second_succeeded_reachable : reachable thinker0 second_succeeded.
Proof. exact (run_reachable thinker0 _ one_succeeded one_succeeded_reachable). Qed.

Lemma one_failed_reachable : reachable thinker0 one_failed.
Proof. exact (run_reachable thinker0 _ both_sent both_sent_reachable). Qed.

Lemma single_exhausted_reachable : reachable single0 single_exhausted.
Proof. exact (run_reachable single0 _ single0 (reach_start _)). Qed.

Lemma keep_Permutation l : keep l ≡ₚ l.
Proof. reflexivity. Qed.

Lemma thinker0_start : start keep names 2 2 molecules = Some thinker0.
Proof. vm_compute. reflexivity. Qed.

Lemma single0_start : start keep names 2 2 ["C"%string] = Some single0.
Proof. vm_compute. reflexivity. Qed.

(** C5, witness: a counter with one of two [simulate] slots in use refuses
    the release of two. *)
Lemma release_beyond_held_witness :
  let rc := ResourceCounter.run (ResourceCounter.new 2 names) counter_ops in
  ResourceCounter.in_use rc "simulate" = 1 /\
  ResourceCounter.after rc (ResourceCounter.Release "simulate" 2) = rc.
Proof.
  split; [vm_compute; reflexivity|].
  apply (release_beyond_held_raises 2 names counter_ops "simulate" 2).
  right. vm_compute. reflexivity.
Defined.

(** C2, witness: with a result buffered on each of two topics, the receive
    on [simulate] returns the [simulate] result and keeps the other; and
    the result of a task sent on [train] and completed while an agent
    receives on [simulate] is what the next receive on [train] returns. *)
Lemma topic_isolation_witness :
  let q := PipeQueues.run (PipeQueues.new names) queue_ops in
  let r := PipeQueues.result_of (PipeQueues.mkTask "compute_vertical" ["C"%string] "simulate")
                                (ok 9) in
  let q' := snd (fst (fst (PipeQueues.get_result q "simulate" 3 idle))) in
  PipeQueues.get_result q "simulate" 3 idle = (PipeQueues.Got r, q', 0%nat, idle) /\
  topic r = "simulate"%string /\
  PipeQueues.buffer q "infer" `prefix_of` PipeQueues.buffer q' "infer" /\
  exists q3,
    PipeQueues.get_result
      (PipeQueues.run
         (PipeQueues.complete
            (PipeQueues.send_inputs q ["training set"%string] "train_model" "train")
            (length (PipeQueues.active q)) (ok 1))
         [PipeQueues.Receive "simulate" 3 idle])
      "train" 3 idle =
    (PipeQueues.Got
       (PipeQueues.result_of
          (PipeQueues.mkTask "train_model" ["training set"%string] "train") (ok 1)),
     q3, 0%nat, idle).
Proof.
  intros q r q'.
  assert (Hget : PipeQueues.get_result q "simulate" 3 idle = (PipeQueues.Got r, q', 0%nat, idle))
    by (vm_compute; reflexivity).
  split; [exact Hget|].
  destruct (topic_isolation names queue_ops "simulate" 3 idle _ _ _ _ Hget)
    as (Htopic & Hkeep & _ & _ & _ & Hsent).
  split; [apply Htopic; reflexivity|]. split; [apply Hkeep; discriminate|].
  destruct (Hsent ["training set"%string] "train_model" "train"%string (ok 1)
                  [PipeQueues.Receive "simulate" 3 idle]) as [_ Hnext].
  - vm_compute. reflexivity.
  - apply Hnext. vm_compute. reflexivity.
Defined.

(** C6, witness: the receive on [infer] times out while the only task is
    on [simulate] and the backend is idle. *)
Lemma receive_times_out_witness :
  PipeQueues.get_result sent_queue "infer" 3 idle =
    (PipeQueues.NoResult, PipeQueues.elapse sent_queue idle 3, 3%nat, drop 3 idle).
Proof.
  apply (receive_times_out sent_queue "infer" 3 idle).
  intros k Hk. do 4 (destruct k as [|k]; [vm_compute; reflexivity|]). lia.
Defined.

(** C4, witness: with both slots taken the submitting agent cannot
    acquire. *)
Lemma throttled_witness :
  (outstanding both_sent + holding (submitter both_sent))%nat = 2%nat /\
  step both_sent SubmitterAcquire = None.
Proof.
  split; [vm_compute; reflexivity|].
  apply (throttled_to_n_parallel keep names 2 2 molecules thinker0 thinker0_start both_sent).
  - exact both_sent_reachable.
  - vm_compute. reflexivity.
Defined.

(** C9, witness: processing the buffered result appends it to the log. *)
Lemma results_logged_witness :
  exists r q1,
    PipeQueues.poll (RandomThinker.queues (thinker one_succeeded)) result_topic = Some (r, q1) /\
    RandomThinker.simulation_results (thinker (run one_succeeded [ProcessorResult])) =
    RandomThinker.simulation_results (thinker one_succeeded) ++ [r].
Proof.
  destruct (results_logged_once keep names 2 2 molecules thinker0 thinker0_start one_succeeded
              one_succeeded_reachable) as (_ & _ & Hstep).
  apply (Hstep ProcessorResult (run one_succeeded [ProcessorResult])).
  - vm_compute. reflexivity.
  - reflexivity.
Defined.

(** C10, witness: with one molecule and two slots, the second call of the
    submitting agent stops on the empty-list pop. *)
Lemma pops_witness :
  submitter single_exhausted = Holding /\
  exists s',
    step single_exhausted SubmitterCall = Some s' /\
    submitter s' = SubmitterStopped (IndexError "pop from empty list").
Proof.
  split; [vm_compute; reflexivity|].
  destruct (pops_within_candidates keep names 2 2 ["C"%string] single0 single0_start
              single_exhausted keep_Permutation single_exhausted_reachable)
    as (_ & _ & _ & _ & _ & _ & Hcall).
  destruct (Hcall ltac:(vm_compute; reflexivity)) as [_ Hstop].
  destruct (Hstop ltac:(vm_compute; reflexivity)) as (s' & Hstep & Hsub & _).
  exists s'. split; [exact Hstep|exact Hsub].
Defined.

Lemma target_zero0_start : start keep names 0 2 molecules = Some target_zero0.
Proof. vm_compute. reflexivity. Qed.

Lemma target_zero_ready_reachable : reachable target_zero0 target_zero_ready.
Proof. exact (run_reachable target_zero0 _ target_zero0 (reach_start _)). Qed.

(** C3, counterexample.  A thinker created with [n_to_evaluate = 0] sets
    the termination signal when it processes its first successful result:
    the database then holds one entry, not zero. *)
Lemma zero_target_signals_at_first_success : ~ signal_exactly_at_target.
Proof.
  intros Hall.
  destruct (Hall keep names 0 2%nat molecules target_zero0 target_zero_ready
              first_result (polled target_zero_ready) keep_Permutation
              target_zero0_start target_zero_ready_reachable)
    as (s' & Hstep & Hiff).
  - vm_compute. reflexivity.
  - vm_compute. reflexivity.
  - assert (Hd : (fun s => RandomThinker.done (thinker s)) <$>
                   step target_zero_ready ProcessorResult = Some true)
      by (vm_compute; reflexivity).
    assert (Hn : (fun s => size (RandomThinker.database (thinker s))) <$>
                   step target_zero_ready ProcessorResult = Some 1%nat)
      by (vm_compute; reflexivity).
    rewrite Hstep in Hd, Hn. cbn [fmap option_fmap option_map] in Hd, Hn.
    injection Hd as Hd. injection Hn as Hn.
    destruct Hiff as [Hsize _]. destruct (Hsize Hd) as [_ Hzero].
    rewrite Hn in Hzero. discriminate Hzero.
Qed.

(** C3, witness: the second success reaches the target of two and sets
    the termination signal. *)
Lemma release_then_store_witness :
  PipeQueues.poll (RandomThinker.queues (thinker second_succeeded)) result_topic =
    Some (second_result, polled second_succeeded) /\
  exists s' mol,
    step second_succeeded ProcessorResult = Some s' /\
    args second_result = [mol] /\
    RandomThinker.done (thinker s') = true /\
    size (RandomThinker.database (thinker s')) = 2%nat.
Proof.
  assert (Hpoll : PipeQueues.poll (RandomThinker.queues (thinker second_succeeded))
                    result_topic = Some (second_result, polled second_succeeded))
    by (vm_compute; reflexivity).
  split; [exact Hpoll|].
  destruct (release_then_store_then_signal keep names 2 2 molecules thinker0 thinker0_start
              second_succeeded second_result (polled second_succeeded) keep_Permutation)
    as (s' & mol & Hstep & Hargs & _ & _ & Hdb & _ & _ & Hpos & _).
  - exact second_succeeded_reachable.
  - vm_compute. reflexivity.
  - exact Hpoll.
  - exists s', mol. split; [exact Hstep|]. split; [exact Hargs|].
    assert (Hsize : size (RandomThinker.database (thinker s')) = 2%nat).
    { rewrite Hdb. injection Hargs as <-. vm_compute. reflexivity. }
    split; [|exact Hsize]. apply Hpos; [lia|]. split; [reflexivity|].
    rewrite Hsize. reflexivity.
Defined.

(** C7, witness: a failed result is released, logged and leaves the agent
    listening. *)
Lemma failed_result_witness :
  PipeQueues.poll (RandomThinker.queues (thinker one_failed)) result_topic =
    Some (failed_result, polled one_failed) /\
  exists s',
    step one_failed ProcessorResult = Some s' /\
    processor s' = Listening /\
    RandomThinker.done (thinker s') = false /\
    RandomThinker.logger (thinker s') =
      RandomThinker.logger (thinker one_failed) ++ [failure_message failed_result] /\
    RandomThinker.database (thinker s') = RandomThinker.database (thinker one_failed).
Proof.
  assert (Hpoll : PipeQueues.poll (RandomThinker.queues (thinker one_failed))
                    result_topic = Some (failed_result, polled one_failed))
    by (vm_compute; reflexivity).
  split; [exact Hpoll|].
  destruct (failed_result_released_and_logged keep names 2 2 molecules thinker0 thinker0_start
              one_failed failed_result (polled one_failed) one_failed_reachable)
    as [(s' & Hstep & Hproc & Hdone & _ & Hlog & Hdb & _) _].
  - vm_compute. reflexivity.
  - exact Hpoll.
  - reflexivity.
  - exists s'. repeat (split; [assumption|]). assumption.
Defined.

End Witnesses.

(** ** The methods of the thinker, case by case *)

Section ThinkerMethods.
Import RandomThinker.

Lemma new_lookup (label : string) :
  label ∈ ["simulate"; "train"; "infer"]%string ->
  gset_to_gmap 0 (list_to_set ["simulate"; "train"; "infer"]%string : gset string)
    !! label = Some 0.
Proof.
  intros Hin. apply lookup_gset_to_gmap_Some. split; [|reflexivity].
  apply elem_of_list_to_set. exact Hin.
Qed.

(** X1.  [RandomThinker.__init__] never fails.  It leaves every one of the
    [n_parallel] slots allocated to [simulate] and free, none unallocated
    and none for [train] or [infer]; the database and the log are empty
    and termination is unset; and, when the shuffle is a permutation, the
    priority list holds every given molecule exactly once. *)
Theorem init_allocates_every_slot (shuffle : list string -> list string)
    (q : PipeQueues.t) (n : Z) (p : nat) (mols : list string) :
  (forall l, shuffle l ≡ₚ l) ->
  exists st,
    init shuffle q n p mols = (Done tt, st) /\
    ResourceCounter.allocated_to (rec st) "simulate" = Z.of_nat p /\
    ResourceCounter.in_use (rec st) "simulate" = 0 /\
    ResourceCounter.unallocated (rec st) = 0 /\
    ResourceCounter.allocated_to (rec st) "train" = 0 /\
    ResourceCounter.allocated_to (rec st) "infer" = 0 /\
    queues st = q /\ n_to_evaluate st = n /\
    database st = ∅ /\ simulation_results st = [] /\ done st = false /\
    priority_list_lock st = false /\
    NoDup (priority_list st) /\
    (forall mol, mol ∈ priority_list st <-> mol ∈ mols).
Proof.
  intros Hperm.
  assert (Hs := new_lookup "simulate" ltac:(set_solver)).
  assert (Ht := new_lookup "train" ltac:(set_solver)).
  assert (Hi := new_lookup "infer" ltac:(set_solver)).
  unfold init, rec_reallocate, lift_rec, ResourceCounter.reallocate, ResourceCounter.new.
  cbn [rec ResourceCounter.allocated ResourceCounter.available
       ResourceCounter.unallocated ResourceCounter.total_slots].
  rewrite Hs, Z.leb_refl. eexists. split; [reflexivity|].
  unfold ResourceCounter.allocated_to, ResourceCounter.in_use.
  cbn [rec note set_rec ResourceCounter.allocated ResourceCounter.available
       ResourceCounter.unallocated queues n_to_evaluate database simulation_results
       done priority_list_lock priority_list].
  rewrite !lookup_insert_eq, !lookup_insert_ne, Ht, Hi by discriminate.
  cbn [default]. repeat (split; [first [reflexivity | lia]|]).
  split.
  - rewrite Hperm. apply NoDup_elements.
  - intros mol. rewrite Hperm, elem_of_elements, elem_of_list_to_set. reflexivity.
Qed.

(** X2.  [submit_calc] leaves the lock of the priority list as it found
    it, also when the pop raises.  With the lock held elsewhere it waits
    and changes nothing.  On an empty priority list it raises [IndexError],
    sends nothing and does not touch the progress bar.  Otherwise it
    removes the last molecule of the list, sends it alone, with method
    [compute_vertical], on the default topic, and advances the progress
    bar by one; it never touches the resource counter. *)
Theorem submit_calc_keeps_lock (st : t) :
  priority_list_lock (snd (submit_calc st)) = priority_list_lock st /\
  rec (snd (submit_calc st)) = rec st /\
  (priority_list_lock st = true -> submit_calc st = (Blocked, st)) /\
  (priority_list_lock st = false -> priority_list st = [] ->
   fst (submit_calc st) = Raise (IndexError "pop from empty list") /\
   queues (snd (submit_calc st)) = queues st /\
   rec_progbar (snd (submit_calc st)) = rec_progbar st) /\
  (priority_list_lock st = false -> forall front mol,
   priority_list st = front ++ [mol] ->
   fst (submit_calc st) = Done tt /\
   priority_list (snd (submit_calc st)) = front /\
   queues (snd (submit_calc st)) =
     PipeQueues.send_inputs (queues st) [mol] "compute_vertical" "default" /\
   rec_progbar (snd (submit_calc st)) = rec_progbar st + 1).
Proof.
  assert (Hheld : priority_list_lock st = true -> submit_calc st = (Blocked, st)).
  { intros Hl. unfold submit_calc, bind, with_priority_list_lock. rewrite Hl. reflexivity. }
  destruct (priority_list_lock st) eqn:Hl.
  - rewrite (Hheld eq_refl). simpl. rewrite Hl.
    repeat split; try reflexivity; discriminate.
  - destruct (pop (priority_list st)) as [[front mol]|] eqn:Hp.
    + rewrite (submit_calc_pop st front mol Hl Hp). simpl.
      split; [reflexivity|]. split; [reflexivity|]. split; [discriminate|].
      split.
      * intros _ Hnil. rewrite Hnil in Hp. discriminate.
      * intros _ front' mol' Hpl. apply pop_Some in Hpl. rewrite Hpl in Hp.
        injection Hp as -> ->. repeat split; reflexivity.
    + apply pop_None in Hp. rewrite (submit_calc_empty st Hl Hp). simpl.
      split; [reflexivity|]. split; [reflexivity|]. split; [discriminate|].
      split.
      * intros _ _. repeat split; reflexivity.
      * intros _ front mol Hpl. rewrite Hp in Hpl. destruct front; discriminate.
Qed.

(** X3.  [receive_calc] records nothing when it fails.  When the release
    of the slot raises, the exception leaves the method with the thinker
    unchanged.  When a successful result has no positional argument, the
    slot is released and [IndexError] is raised before the database, the
    termination signal or the log of results are touched. *)
Theorem receive_calc_fails_before_recording (st : t) (r : Result) :
  (forall e, ResourceCounter.release (rec st) "simulate" 1 = Raise e ->
     receive_calc r st = (Raise e, st)) /\
  (forall rc, ResourceCounter.release (rec st) "simulate" 1 = Done rc ->
     success r = true -> args r = [] ->
     fst (receive_calc r st) = Raise (IndexError "tuple index out of range") /\
     rec (snd (receive_calc r st)) = rc /\
     database (snd (receive_calc r st)) = database st /\
     done (snd (receive_calc r st)) = done st /\
     simulation_results (snd (receive_calc r st)) = simulation_results st).
Proof.
  split.
  - intros e He. apply receive_calc_fault, He.
  - intros rc Hrc Hs Ha. rewrite (receive_calc_success_noarg st r rc Hrc Hs Ha).
    repeat split; reflexivity.
Qed.

(** X4.  On a successful result [receive_calc] stores the value under the
    first argument and leaves every other entry alone; a molecule that is
    already in the database is overwritten, so the size grows only for a
    new molecule.  The termination signal is never cleared: it is set
    afterwards exactly when it was set before or the size has reached
    [n_to_evaluate].  The result is appended to the log and nothing is
    written to the logger. *)
Theorem receive_calc_stores_success (st : t) (r : Result) (rc : ResourceCounter.t)
    (key : string) (rest : list string) :
  ResourceCounter.release (rec st) "simulate" 1 = Done rc ->
  success r = true -> args r = key :: rest ->
  exists st',
    receive_calc r st = (Done tt, st') /\
    rec st' = rc /\
    database st' !! key = Some (value r) /\
    (forall k, k <> key -> database st' !! k = database st !! k) /\
    size (database st') =
      (if decide (is_Some (database st !! key)) then size (database st)
       else S (size (database st))) /\
    done st' = (done st || (n_to_evaluate st <=? Z.of_nat (size (database st')))) /\
    simulation_results st' = simulation_results st ++ [r] /\
    sent_progbar st' = sent_progbar st + 1 /\
    logger st' = logger st.
Proof.
  intros Hrc Hs Ha. rewrite (receive_calc_success st r rc key rest Hrc Hs Ha).
  eexists. split; [reflexivity|].
  cbn [rec database done simulation_results sent_progbar logger].
  split; [reflexivity|]. split; [apply lookup_insert_eq|].
  split; [intros k Hk; apply lookup_insert_ne; congruence|].
  split.
  - case_decide as Hin.
    + apply map_size_insert_Some. exact Hin.
    + apply map_size_insert_None. apply eq_None_not_Some. exact Hin.
  - split; [|repeat split; reflexivity].
    destruct (_ <=? _), (done st); reflexivity.
Qed.

End ThinkerMethods.

(** ** More about the runs of the thinker *)

Section RunsOfTheThinker.
Import Agents.

Variables (shuffle : list string -> list string) (names : list string)
          (n : Z) (p : nat) (mols : list string) (s0 : t).
Hypothesis Hstart : start shuffle names n p mols = Some s0.

Lemma stored_consumed (rs : list Result) (mol : string) :
  mol ∈ stored rs -> exists r, r ∈ rs /\ success r = true /\ head (args r) = Some mol.
Proof.
  unfold stored. intros Hin. apply list_elem_of_omap in Hin as (r & Hr & Hm).
  exists r. split; [exact Hr|]. destruct (success r); [|discriminate]. split; [reflexivity|exact Hm].
Qed.

(** X5.  In every run of the thinker, with a shuffle that is a
    permutation, every key of the database is one of the given molecules,
    its task was handed to the queue, and it is the input of a successful
    result in the log of results; and the database holds exactly one
    entry for every successful result in the log. *)
Theorem database_within_candidates (s : t) :
  (forall l, shuffle l ≡ₚ l) ->
  reachable s0 s ->
  (forall mol, is_Some (RandomThinker.database (thinker s) !! mol) ->
     mol ∈ mols /\
     simulation_task mol ∈ submitted (thinker s) /\
     exists r, r ∈ RandomThinker.simulation_results (thinker s) /\
               success r = true /\ args r = [mol]) /\
  size (RandomThinker.database (thinker s)) =
    length (List.filter success (RandomThinker.simulation_results (thinker s))).
Proof.
  intros Hperm Hr.
  pose proof (run_invariant' shuffle names n p mols s0 Hstart s Hr) as Hi.
  destruct (sent_distinct shuffle n p mols s Hperm Hi) as (_ & Hin & _).
  pose proof (inv_tasks _ _ _ _ Hi) as Ht.
  rewrite (inv_log _ _ _ _ Hi). split.
  - intros mol Hsome. apply elem_of_dom in Hsome.
    rewrite (inv_database _ _ _ _ Hi), elem_of_list_to_set in Hsome.
    destruct (stored_consumed _ _ Hsome) as (r & Hrin & Hs & Hhead).
    assert (Hargs : args r ∈ (fun mol => [mol]) <$> sent (thinker s)).
    { rewrite <- Ht. apply elem_of_app. right. apply elem_of_app. right.
      apply list_elem_of_fmap_2. exact Hrin. }
    apply list_elem_of_fmap in Hargs as (mol' & Hargs & Hsent).
    rewrite Hargs in Hhead. injection Hhead as <-.
    split; [apply Hin, Hsent|]. split; [|eauto].
    rewrite (submitted_sent shuffle names n p mols s0 Hstart s Hr).
    apply list_elem_of_fmap_2, Hsent.
  - apply (database_counts_successes shuffle n p mols s Hperm Hi).
Qed.

End RunsOfTheThinker.

(** ** The loops of the Parsl notebook *)

Section ReplacementLoop.
Import ParslLoop.

Lemma iteration_count ss st tn st' :
  iteration ss st tn = Some st' ->
  (length (futures st') + length (train_data st') =
   length (futures st) + length (train_data st))%nat /\
  (exists rows, train_data st' = train_data st ++ rows /\
                Forall (fun r => batch r = 0) rows) /\
  length (printed st') = S (length (printed st)) /\
  (length (printed st') + launched st + length (train_data st) =
   length (printed st) + launched st' + length (train_data st'))%nat.
Proof.
  unfold iteration. destruct (futures st !! completes tn) as [fut|] eqn:Hfut; [|discriminate].
  pose proof (lookup_lt_Some _ _ _ Hfut) as Hlt.
  assert (Hdel : length (delete (completes tn) (futures st)) = pred (length (futures st))).
  { rewrite length_delete by eauto. lia. }
  destruct (exception tn).
  - destruct (ss !! sampled tn); [|discriminate]. intros [= <-]. simpl.
    rewrite !length_app, Hdel. simpl. split; [lia|]. split; [|split; lia].
    exists []. rewrite app_nil_r. split; [reflexivity|constructor].
  - intros [= <-]. simpl. rewrite !length_app, Hdel. simpl. split; [lia|].
    split; [|split; lia]. eexists. split; [reflexivity|]. repeat constructor.
Qed.

(** X7.  The replacement loop of the Parsl notebook keeps the number of
    computations: futures still running plus rows stored stay what they
    were, so a loop that ends with no future left has stored as many rows
    as there were futures at its start.  Rows are only appended, each with
    batch 0, and every turn prints one line and either launches one
    replacement or stores one row. *)
Theorem replacement_loop_keeps_count (search_space : list string)
    (turns : list turn) (st st' : t) :
  loop search_space st turns = Some st' ->
  (length (futures st') + length (train_data st') =
   length (futures st) + length (train_data st))%nat /\
  (exists rows, train_data st' = train_data st ++ rows /\
                Forall (fun r => batch r = 0) rows) /\
  (length (printed st') + launched st + length (train_data st) =
   length (printed st) + launched st' + length (train_data st'))%nat /\
  (length (printed st') <= length (printed st) + length turns)%nat /\
  (futures st' = [] ->
   length (train_data st') = (length (futures st) + length (train_data st))%nat).
Proof.
  revert st. induction turns as [|tn turns IH]; intros st Hloop.
  - assert (st' = st) as ->.
    { simpl in Hloop. destruct (futures st); congruence. }
    split; [reflexivity|]. split; [exists []; rewrite app_nil_r; split; [reflexivity|constructor]|].
    split; [lia|]. split; [lia|]. intros ->. reflexivity.
  - simpl in Hloop. destruct (futures st) as [|f fs] eqn:Hf.
    + injection Hloop as <-. rewrite Hf.
      split; [reflexivity|]. split; [exists []; rewrite app_nil_r; split; [reflexivity|constructor]|].
      split; [lia|]. split; [lia|]. intros _. reflexivity.
    + destruct (iteration search_space st tn) as [st1|] eqn:Hit; [|discriminate].
      destruct (iteration_count _ _ _ _ Hit) as (Hc & (rows1 & Ht1 & Hb1) & Hp & Hl).
      destruct (IH st1 Hloop) as (Hc' & (rows2 & Ht2 & Hb2) & Hl' & Hp' & _).
      rewrite Hf in Hc. simpl in *.
      assert (Hsum : (length (futures st') + length (train_data st') =
                      S (length fs + length (train_data st)))%nat) by lia.
      split; [exact Hsum|]. split.
      { exists (rows1 ++ rows2). rewrite Ht2, Ht1, app_assoc. split; [reflexivity|].
        apply Forall_app. split; assumption. }
      split; [lia|]. split; [lia|]. intros Hnil. rewrite Hnil in Hsum. simpl in Hsum. lia.
Qed.

End ReplacementLoop.

Section InitialSet.
Import ParslLoop ParslSearch.

Lemma initial_iteration_spec ss t0 st tn st' :
  initial_iteration ss t0 st tn = Some st' ->
  (length (sim_futures st') + length (ParslSearch.train_data st') =
   length (sim_futures st) + length (ParslSearch.train_data st))%nat /\
  already_ran st ⊆ already_ran st' /\
  (forall mol, mol ∈ molecules (sim_futures st) ->
     mol ∈ already_ran st' \/ mol ∈ molecules (sim_futures st')) /\
  (exists rows, ParslSearch.train_data st' = ParslSearch.train_data st ++ rows /\
     Forall (fun r => ParslLoop.batch r = 0 /\ smiles r ∈ already_ran st') rows /\
     prog_bar st' = prog_bar st + Z.of_nat (length rows)) /\
  ParslSearch.batch st' = ParslSearch.batch st.
Proof.
  unfold initial_iteration.
  destruct (sim_futures st !! completes tn) as [fut|] eqn:Hfut; [|discriminate].
  pose proof (lookup_lt_Some _ _ _ Hfut) as Hlt.
  assert (Hdel : length (delete (completes tn) (sim_futures st)) =
                 pred (length (sim_futures st))).
  { rewrite length_delete by eauto. lia. }
  assert (Hmol : forall mol, mol ∈ molecules (sim_futures st) ->
            mol = fut_smiles fut \/
            mol ∈ molecules (delete (completes tn) (sim_futures st))).
  { intros mol Hin. unfold molecules in *.
    apply list_elem_of_fmap in Hin as (f & -> & Hin).
    apply list_elem_of_lookup in Hin as (i & Hi).
    destruct (decide (i = completes tn)) as [->|Hne].
    - left. congruence.
    - right. apply list_elem_of_fmap_2.
      apply list_elem_of_lookup.
      destruct (decide (i < completes tn)%nat).
      + exists i. rewrite list_lookup_delete_lt by assumption. exact Hi.
      + exists (pred i). rewrite list_lookup_delete_ge by lia.
        replace (S (pred i)) with i by lia. exact Hi. }
  destruct (exception tn).
  - destruct (ss !! sampled tn); [|discriminate]. intros [= <-]. simpl.
    rewrite !length_app, Hdel. simpl. split; [lia|]. split; [set_solver|].
    split.
    { intros mol Hin. destruct (Hmol mol Hin) as [->|Hin']; [left; set_solver|].
      right. unfold molecules. rewrite fmap_app. apply elem_of_app. left. exact Hin'. }
    split; [|reflexivity].
    exists []. rewrite app_nil_r. split; [reflexivity|]. split; [constructor|simpl; lia].
  - intros [= <-]. simpl. rewrite !length_app, Hdel. simpl. split; [lia|].
    split; [set_solver|]. split.
    { intros mol Hin. destruct (Hmol mol Hin) as [->|Hin']; [left; set_solver|].
      right. exact Hin'. }
    split; [|reflexivity].
    eexists. split; [reflexivity|]. split; [|simpl; lia].
    constructor; [|constructor]. simpl. split; [reflexivity|set_solver].
Qed.

(** X8.  The loop that populates the initial set in the model-in-the-loop
    cell keeps the number of computations like the first loop, and marks
    every molecule whose computation completed as already run, failed or
    not: [already_ran] only grows, every row it stores has batch 0 and a
    molecule of [already_ran], the progress bar advances by the rows
    stored, and a molecule of a future of the start is afterwards either
    marked or the molecule of a future still running. *)
Theorem initial_loop_marks_every_completion (search_space : list string)
    (start_time : Z) (turns : list turn) (st st' : ParslSearch.t) :
  initial_loop search_space start_time st turns = Some st' ->
  (length (sim_futures st') + length (ParslSearch.train_data st') =
   length (sim_futures st) + length (ParslSearch.train_data st))%nat /\
  already_ran st ⊆ already_ran st' /\
  (forall mol, mol ∈ molecules (sim_futures st) ->
     mol ∈ already_ran st' \/ mol ∈ molecules (sim_futures st')) /\
  (exists rows, ParslSearch.train_data st' = ParslSearch.train_data st ++ rows /\
     Forall (fun r => ParslLoop.batch r = 0 /\ smiles r ∈ already_ran st') rows /\
     prog_bar st' = prog_bar st + Z.of_nat (length rows)) /\
  ParslSearch.batch st' = ParslSearch.batch st.
Proof.
  revert st. induction turns as [|tn turns IH]; intros st Hloop.
  - assert (st' = st) as ->.
    { simpl in Hloop. destruct (sim_futures st); congruence. }
    split; [reflexivity|]. split; [reflexivity|]. split; [intros mol Hin; right; exact Hin|].
    split; [|reflexivity]. exists []. rewrite app_nil_r.
    split; [reflexivity|]. split; [constructor|simpl; lia].
  - simpl in Hloop. destruct (sim_futures st) as [|f fs] eqn:Hf.
    + injection Hloop as <-. rewrite Hf.
      split; [reflexivity|]. split; [reflexivity|]. split; [intros mol Hin; right; exact Hin|].
      split; [|reflexivity]. exists []. rewrite app_nil_r.
      split; [reflexivity|]. split; [constructor|simpl; lia].
    + destruct (initial_iteration search_space start_time st tn) as [st1|] eqn:Hit;
        [|discriminate].
      destruct (initial_iteration_spec _ _ _ _ _ Hit)
        as (Hc & Hsub & Hmol & (rows1 & Ht1 & Hr1 & Hp1) & Hb).
      destruct (IH st1 Hloop) as (Hc' & Hsub' & Hmol' & (rows2 & Ht2 & Hr2 & Hp2) & Hb').
      rewrite Hf in Hc, Hmol. split; [lia|]. split; [set_solver|]. split.
      { intros mol Hin. destruct (Hmol mol Hin) as [Hin'|Hin']; [left; set_solver|].
        apply Hmol', Hin'. }
      split; [|congruence].
      exists (rows1 ++ rows2). rewrite Ht2, Ht1, app_assoc. split; [reflexivity|].
      split.
      * apply Forall_app. split; [|exact Hr2].
        eapply Forall_impl; [exact Hr1|]. simpl. intros r [? ?]. split; [assumption|set_solver].
      * rewrite length_app. lia.
Qed.

End InitialSet.

(** ** The model-in-the-loop search *)

Section BatchSelection.
Import ParslLoop ParslSearch.

Lemma select_spec (batch_size : Z) (predictions : list string) :
  forall futures ran count futures' ran' count',
  select batch_size predictions futures ran count = (futures', ran', count') ->
  exists new,
    futures' = futures ++ new /\
    molecules new `sublist_of` predictions /\
    NoDup (molecules new) /\
    (forall mol, mol ∈ molecules new -> mol ∉ ran) /\
    ran' = list_to_set (molecules new) ∪ ran /\
    count' = (count + length new)%nat /\
    fut_id <$> new = seq count (length new) /\
    (length new <= Z.to_nat (Z.max 1 (batch_size - Z.of_nat (length futures))))%nat /\
    (Z.of_nat (length futures') < batch_size ->
     forall mol, mol ∈ predictions -> mol ∈ ran') /\
    (forall mol, mol ∈ predictions -> mol ∉ ran -> new <> []).
Proof.
  induction predictions as [|smiles predictions IH];
    intros futures ran count futures' ran' count'; simpl.
  - intros [= <- <- <-]. exists []. rewrite app_nil_r. simpl.
    split; [reflexivity|]. split; [reflexivity|]. split; [constructor|].
    split; [intros mol Hin; inversion Hin|]. split; [set_solver|].
    split; [lia|]. split; [reflexivity|]. split; [lia|].
    split; intros; exfalso; eapply not_elem_of_nil; eassumption.
  - destruct (decide (smiles ∈ ran)) as [Hran|Hran].
    + intros Hsel.
      destruct (IH _ _ _ _ _ _ Hsel)
        as (new & Hf & Hsub & Hnd & Hfresh & Hr & Hc & Hid & Hlen & Hall & Hne).
      exists new. split; [exact Hf|]. split; [apply sublist_cons, Hsub|].
      split; [exact Hnd|]. split; [exact Hfresh|]. split; [exact Hr|].
      split; [exact Hc|]. split; [exact Hid|]. split; [exact Hlen|]. split.
      * intros Hlt mol Hin. apply elem_of_cons in Hin as [->|Hin].
        -- rewrite Hr. set_solver.
        -- apply Hall; assumption.
      * intros mol Hin Hno. apply elem_of_cons in Hin as [->|Hin]; [contradiction|].
        apply (Hne mol Hin Hno).
    + set (fut := mkFuture count smiles).
      rewrite length_app. simpl.
      destruct (Z.leb_spec batch_size (Z.of_nat (length futures + 1))) as [Hfull|Hmore].
      * intros [= <- <- <-]. exists [fut]. simpl.
        split; [reflexivity|]. split; [apply sublist_skip, sublist_nil_l|].
        split; [apply NoDup_singleton|].
        split; [intros mol Hin; apply list_elem_of_singleton in Hin as ->; exact Hran|].
        split; [set_solver|]. split; [lia|]. split; [reflexivity|]. split; [lia|].
        split.
        -- rewrite length_app. simpl. lia.
        -- intros _ _ _. discriminate.
      * intros Hsel.
        destruct (IH _ _ _ _ _ _ Hsel)
          as (new & Hf & Hsub & Hnd & Hfresh & Hr & Hc & Hid & Hlen & Hall & Hne).
        exists (fut :: new).
        split; [rewrite Hf, <- app_assoc; reflexivity|]. simpl.
        split; [apply sublist_skip, Hsub|].
        split.
        { apply NoDup_cons. split; [|exact Hnd].
          intros Hin. apply (Hfresh smiles Hin). set_solver. }
        split.
        { intros mol Hin. apply elem_of_cons in Hin as [->|Hin]; [exact Hran|].
          intros Hin'. apply (Hfresh mol Hin). set_solver. }
        split; [rewrite Hr; set_solver|]. split; [lia|].
        split; [f_equal; exact Hid|].
        split; [rewrite length_app in Hlen; simpl in Hlen; lia|].
        split.
        -- intros Hlt mol Hin. apply elem_of_cons in Hin as [->|Hin].
           ++ rewrite Hr. set_solver.
           ++ apply Hall; assumption.
        -- intros _ _ _. discriminate.
Qed.

Lemma select_from_empty (batch_size : Z) (predictions : list string)
    (ran : gset string) (count : nat) :
  exists new,
    select batch_size predictions [] ran count =
      (new, list_to_set (molecules new) ∪ ran, (count + length new)%nat) /\
    molecules new `sublist_of` predictions /\
    NoDup (molecules new) /\
    (forall mol, mol ∈ molecules new -> mol ∉ ran) /\
    fut_id <$> new = seq count (length new) /\
    (length new <= Z.to_nat (Z.max 1 batch_size))%nat /\
    ((exists mol, mol ∈ predictions /\ mol ∉ ran) -> (1 <= length new)%nat).
Proof.
  destruct (select batch_size predictions [] ran count) as [[new ran'] count'] eqn:Hsel.
  destruct (select_spec _ _ _ _ _ _ _ _ Hsel)
    as (new' & Hf & Hsub & Hnd & Hfresh & Hr & Hc & Hid & Hlen & _ & Hne).
  simpl in Hf. subst new' ran' count'. exists new.
  split; [reflexivity|]. split; [exact Hsub|]. split; [exact Hnd|].
  split; [exact Hfresh|]. split; [exact Hid|]. split.
  - simpl in Hlen. rewrite Z.sub_0_r in Hlen. exact Hlen.
  - intros (mol & Hin & Hno). specialize (Hne mol Hin Hno).
    destruct new; [contradiction|simpl; lia].
Qed.

(** X9.  The batch selection of the model-in-the-loop cell submits, in
    the order of the predictions, molecules that are pairwise distinct and
    did not run before, marks exactly these as run, and numbers the
    futures it launches consecutively.  It holds at most [batch_size]
    futures, but never fewer than one when some predicted molecule did not
    run yet, because the test of the size comes after the append: a
    [batch_size] of zero or less still submits one molecule. *)
Theorem select_submits_fresh_molecules (batch_size : Z) (predictions : list string)
    (ran : gset string) (count : nat) :
  exists new,
    select batch_size predictions [] ran count =
      (new, list_to_set (molecules new) ∪ ran, (count + length new)%nat) /\
    molecules new `sublist_of` predictions /\
    NoDup (molecules new) /\
    (forall mol, mol ∈ molecules new -> mol ∉ ran) /\
    fut_id <$> new = seq count (length new) /\
    (length new <= Z.to_nat (Z.max 1 batch_size))%nat /\
    ((exists mol, mol ∈ predictions /\ mol ∉ ran) -> (1 <= length new)%nat).
Proof. apply select_from_empty. Qed.

(** X10.  The batch selection is greedy and exhaustive: when it returns
    fewer than [batch_size] futures, every predicted molecule has run or
    was just submitted, so a short batch means that the predictions are
    used up. *)
Theorem select_short_batch_exhausts_predictions (batch_size : Z)
    (predictions : list string) (ran : gset string) (count : nat) :
  Z.of_nat (length (fst (fst (select batch_size predictions [] ran count)))) < batch_size ->
  forall mol, mol ∈ predictions ->
    mol ∈ snd (fst (select batch_size predictions [] ran count)).
Proof.
  destruct (select batch_size predictions [] ran count) as [[new ran'] count'] eqn:Hsel.
  destruct (select_spec _ _ _ _ _ _ _ _ Hsel) as (new' & _ & _ & _ & _ & _ & _ & _ & _ & Hall & _).
  simpl. exact Hall.
Qed.

Lemma filter_length_Permutation {A} (f : A -> bool) (l1 l2 : list A) :
  l1 ≡ₚ l2 -> length (List.filter f l1) = length (List.filter f l2).
Proof.
  induction 1 as [|x l1 l2 _ IH|x y l|l1 l2 l3 _ IH1 _ IH2]; simpl.
  - reflexivity.
  - destruct (f x); simpl; congruence.
  - destruct (f x), (f y); reflexivity.
  - congruence.
Qed.

Lemma collect_spec outcome clock start_time batch completed :
  smiles <$> collect outcome clock start_time batch completed
    `sublist_of` molecules completed /\
  Forall (fun r => ParslLoop.batch r = batch)
         (collect outcome clock start_time batch completed) /\
  length (collect outcome clock start_time batch completed) =
    length (List.filter (fun fut => bool_decide (is_Some (outcome fut))) completed).
Proof.
  unfold collect, molecules. induction completed as [|fut completed (IH1 & IH2 & IH3)]; simpl.
  - split; [reflexivity|]. split; [constructor|reflexivity].
  - destruct (outcome fut) as [ie|]; simpl.
    + split; [apply sublist_skip, IH1|]. split; [constructor; [reflexivity|exact IH2]|].
      f_equal. exact IH3.
    + split; [apply sublist_cons, IH1|]. split; [exact IH2|exact IH3].
Qed.

Lemma round_spec (w : world) (batch_size start_time : Z) (st : ParslSearch.t) :
  (forall l, as_completed w l ≡ₚ l) ->
  exists rows,
    ParslSearch.train_data (round w batch_size start_time st) =
      ParslSearch.train_data st ++ rows /\
    Forall (fun r => ParslLoop.batch r = ParslSearch.batch st) rows /\
    NoDup (smiles <$> rows) /\
    (forall mol, mol ∈ (smiles <$> rows) ->
       (mol ∉ already_ran st) /\
       mol ∈ already_ran (round w batch_size start_time st) /\
       mol ∈ ranked w (ParslSearch.train_data st)) /\
    (length rows <= Z.to_nat (Z.max 1 batch_size))%nat /\
    length rows =
      length (List.filter (fun fut => bool_decide (is_Some (outcome w fut)))
                          (sim_futures (round w batch_size start_time st))) /\
    already_ran st ⊆ already_ran (round w batch_size start_time st) /\
    ParslSearch.batch (round w batch_size start_time st) = ParslSearch.batch st + 1 /\
    prog_bar (round w batch_size start_time st) = prog_bar st + Z.of_nat (length rows).
Proof.
  intros Hperm. unfold round.
  destruct (select_from_empty batch_size (ranked w (ParslSearch.train_data st))
              (already_ran st) (ParslSearch.launched st))
    as (new & -> & Hsub & Hnd & Hfresh & _ & Hlen & _).
  destruct (collect_spec (outcome w) (clock w) start_time (ParslSearch.batch st)
              (as_completed w new)) as (Hs & Hb & Hl).
  set (rows := collect _ _ _ _ _) in *.
  assert (Hmols : molecules (as_completed w new) ≡ₚ molecules new).
  { unfold molecules. rewrite Hperm. reflexivity. }
  exists rows. cbn [ParslSearch.train_data already_ran ParslSearch.batch prog_bar sim_futures].
  split; [reflexivity|]. split; [exact Hb|].
  split; [eapply sublist_NoDup; [|exact Hs]; rewrite Hmols; exact Hnd|].
  split.
  { intros mol Hin.
    assert (Hin' : mol ∈ molecules new).
    { rewrite <- Hmols. eapply elem_of_sublist; eassumption. }
    split; [apply Hfresh, Hin'|]. split; [set_solver|].
    eapply elem_of_sublist; eassumption. }
  split.
  { apply sublist_length in Hs. rewrite length_fmap in Hs.
    unfold molecules in Hs. rewrite length_fmap, Hperm in Hs. lia. }
  split.
  { rewrite Hl. apply filter_length_Permutation, Hperm. }
  split; [set_solver|]. split; reflexivity.
Qed.

(** X11.  One round of the model-in-the-loop search, when every submitted
    future completes once: the rows it appends carry the number of the
    batch, their molecules are pairwise distinct, were predicted and had
    not run before, and are marked as run afterwards; there is one row per
    future of the batch that raised no exception, a failed future is
    dropped without a replacement; at most [batch_size] rows (one when
    [batch_size] is below one) are appended, the progress bar advances by
    their number and the batch number by one. *)
Theorem round_appends_fresh_rows (w : world) (batch_size start_time : Z)
    (st : ParslSearch.t) :
  (forall l, as_completed w l ≡ₚ l) ->
  exists rows,
    ParslSearch.train_data (round w batch_size start_time st) =
      ParslSearch.train_data st ++ rows /\
    Forall (fun r => ParslLoop.batch r = ParslSearch.batch st) rows /\
    NoDup (smiles <$> rows) /\
    (forall mol, mol ∈ (smiles <$> rows) ->
       (mol ∉ already_ran st) /\
       mol ∈ already_ran (round w batch_size start_time st) /\
       mol ∈ ranked w (ParslSearch.train_data st)) /\
    (length rows <= Z.to_nat (Z.max 1 batch_size))%nat /\
    length rows =
      length (List.filter (fun fut => bool_decide (is_Some (outcome w fut)))
                          (sim_futures (round w batch_size start_time st))) /\
    already_ran st ⊆ already_ran (round w batch_size start_time st) /\
    ParslSearch.batch (round w batch_size start_time st) = ParslSearch.batch st + 1 /\
    prog_bar (round w batch_size start_time st) = prog_bar st + Z.of_nat (length rows).
Proof. apply round_spec. Qed.

(** X12.  When the search loop ends, with every future completing once,
    the training data holds at least [search_count] rows and, if the loop
    ran at all, fewer than [search_count] plus the size of a batch.  The
    rows it added carry the batch numbers of the rounds, and their
    molecules are pairwise distinct and had not run before the loop: no
    molecule is simulated twice by the search. *)
Theorem search_never_repeats_a_molecule (w : world)
    (search_count batch_size start_time : Z) :
  (forall l, as_completed w l ≡ₚ l) ->
  forall fuel st st',
  search w search_count batch_size start_time fuel st = Some st' ->
  search_count <= Z.of_nat (length (ParslSearch.train_data st')) /\
  (Z.of_nat (length (ParslSearch.train_data st)) < search_count ->
   Z.of_nat (length (ParslSearch.train_data st')) < search_count + Z.max 1 batch_size) /\
  already_ran st ⊆ already_ran st' /\
  ParslSearch.batch st <= ParslSearch.batch st' /\
  exists rows,
    ParslSearch.train_data st' = ParslSearch.train_data st ++ rows /\
    NoDup (smiles <$> rows) /\
    Forall (fun r => (ParslSearch.batch st <= ParslLoop.batch r < ParslSearch.batch st') /\
                     (smiles r ∉ already_ran st) /\ smiles r ∈ already_ran st') rows.
Proof.
  intros Hperm. induction fuel as [|fuel IH]; intros st st'; simpl;
    destruct (Z.leb_spec search_count (Z.of_nat (length (ParslSearch.train_data st))))
      as [Hge|Hlt]; try discriminate.
  1,2: intros [= <-]; split; [exact Hge|]; split; [lia|]; split; [reflexivity|];
       split; [lia|]; exists []; rewrite app_nil_r; split; [reflexivity|];
       split; constructor.
  intros Hs. destruct (IH _ _ Hs) as (Hge' & Hbound & Hsub & Hb & rows2 & Ht2 & Hnd2 & Hr2).
  destruct (round_spec w batch_size start_time st Hperm)
    as (rows1 & Ht1 & Hb1 & Hnd1 & Hfresh1 & Hlen1 & _ & Hsub1 & Hbatch1 & _).
  split; [exact Hge'|]. split.
  { intros _.
    destruct (Z.leb_spec search_count
                (Z.of_nat (length (ParslSearch.train_data (round w batch_size start_time st)))))
      as [Hdone|Hmore].
    - destruct fuel; simpl in Hs;
        (destruct (Z.leb_spec search_count
           (Z.of_nat (length (ParslSearch.train_data (round w batch_size start_time st)))));
         [|lia]); injection Hs as <-; rewrite Ht1, length_app; lia.
    - apply Hbound, Hmore. }
  split; [set_solver|]. split; [lia|].
  exists (rows1 ++ rows2). split; [rewrite Ht2, Ht1, app_assoc; reflexivity|].
  split.
  { rewrite fmap_app. apply NoDup_app. split; [exact Hnd1|]. split; [|exact Hnd2].
    intros mol Hin1 Hin2. apply list_elem_of_fmap in Hin2 as (r & -> & Hr).
    rewrite Forall_forall in Hr2. destruct (Hr2 r Hr) as (_ & Hno & _).
    apply Hno. apply (Hfresh1 _ Hin1). }
  apply Forall_app. split.
  - rewrite Forall_forall. intros r Hr. rewrite Forall_forall in Hb1.
    rewrite (Hb1 r Hr). split; [lia|].
    destruct (Hfresh1 (smiles r)) as (Hno & Hin & _); [apply list_elem_of_fmap_2, Hr|].
    split; [exact Hno|]. apply Hsub, Hin.
  - eapply Forall_impl; [exact Hr2|]. simpl. intros r (Hbr & Hno & Hin).
    split; [lia|]. split; [|exact Hin]. intros Hran. apply Hno, Hsub1, Hran.
Qed.

Lemma select_nothing (batch_size : Z) (predictions : list string) :
  forall futures ran count,
  (forall mol, mol ∈ predictions -> mol ∈ ran) ->
  select batch_size predictions futures ran count = (futures, ran, count).
Proof.
  induction predictions as [|smiles predictions IH]; intros futures ran count Hall; simpl.
  - reflexivity.
  - rewrite decide_True by (apply Hall; left). apply IH.
    intros mol Hin. apply Hall. right. exact Hin.
Qed.

(** X13.  The search loop has no exit for a search space that is used up:
    when fewer than [search_count] rows are stored and every molecule the
    model can rank has already run, a round submits nothing and stores
    nothing, so no number of rounds ends the loop. *)
Theorem search_spins_when_exhausted (w : world)
    (search_count batch_size start_time : Z) (st : ParslSearch.t) :
  (forall l, as_completed w l ≡ₚ l) ->
  (forall data mol, mol ∈ ranked w data -> mol ∈ already_ran st) ->
  Z.of_nat (length (ParslSearch.train_data st)) < search_count ->
  forall fuel, search w search_count batch_size start_time fuel st = None.
Proof.
  intros Hperm Hall Hlt fuel. revert st Hall Hlt.
  induction fuel as [|fuel IH]; intros st Hall Hlt; simpl;
    (destruct (Z.leb_spec search_count (Z.of_nat (length (ParslSearch.train_data st))));
     [lia|]); [reflexivity|].
  assert (Hround : ParslSearch.train_data (round w batch_size start_time st) =
                     ParslSearch.train_data st /\
                   already_ran (round w batch_size start_time st) = already_ran st).
  { unfold round. rewrite select_nothing by (intros mol; apply Hall).
    assert (Hnil : as_completed w [] = []) by (apply Permutation_nil_r, Hperm).
    rewrite Hnil. simpl. rewrite app_nil_r. split; reflexivity. }
  destruct Hround as [Ht Hr]. apply IH.
  - intros data mol Hin. rewrite Hr. apply (Hall data mol Hin).
  - rewrite Ht. exact Hlt.
Qed.

End BatchSelection.

(** ** The comparison of the runs *)

Section ContrastFacts.
Import Json Persist Contrast.

Lemma insert_sorted_Permutation x l : insert_sorted x l ≡ₚ x :: l.
Proof.
  induction l as [|y l IH]; simpl; [reflexivity|].
  destruct (String.leb x y); [reflexivity|].
  rewrite IH. apply Permutation_swap.
Qed.

Lemma sorted_Permutation l : sorted l ≡ₚ l.
Proof.
  induction l as [|x l IH]; simpl; [reflexivity|].
  rewrite insert_sorted_Permutation, IH. reflexivity.
Qed.

Lemma insert_sorted_Sorted x l :
  Sorted (fun a b => String.leb a b = true) l ->
  Sorted (fun a b => String.leb a b = true) (insert_sorted x l).
Proof.
  induction 1 as [|y l Hs IH Hhd]; simpl; [repeat constructor|].
  destruct (String.leb x y) eqn:Hxy.
  - constructor; [constructor; assumption|]. constructor. exact Hxy.
  - constructor; [exact IH|].
    assert (Hyx : String.leb y x = true).
    { destruct (String.leb_total x y) as [Hc|Hc]; [congruence|exact Hc]. }
    destruct Hhd as [|z l Hyz]; simpl; [constructor; exact Hyx|].
    destruct (String.leb x z); constructor; assumption.
Qed.

Lemma sorted_Sorted l : Sorted (fun a b => String.leb a b = true) (sorted l).
Proof.
  induction l as [|x l IH]; simpl; [constructor|]. apply insert_sorted_Sorted, IH.
Qed.

Lemma index_lookup l x i : index l x = Some i -> l !! i = Some x.
Proof.
  revert i. induction l as [|y l IH]; intros i; simpl; [discriminate|].
  destruct (String.eqb_spec y x) as [->|Hne].
  - intros [= <-]. reflexivity.
  - destruct (index l x) as [j|]; [|discriminate]. intros [= <-]. simpl. apply IH. reflexivity.
Qed.

Lemma index_elem_of l x : x ∈ l -> is_Some (index l x).
Proof.
  induction l as [|y l IH]; simpl; [inversion 1|].
  intros Hin. destruct (String.eqb_spec y x) as [->|Hne]; [eauto|].
  apply elem_of_cons in Hin as [->|Hin]; [congruence|].
  destruct (IH Hin) as [i ->]. simpl. eauto.
Qed.

Lemma index_NoDup l i x : NoDup l -> l !! i = Some x -> index l x = Some i.
Proof.
  intros Hnd Hl. destruct (index_elem_of l x) as [j Hj].
  { apply list_elem_of_lookup. eauto. }
  rewrite Hj. f_equal. apply index_lookup in Hj.
  eapply NoDup_lookup; eassumption.
Qed.

(** X14.  The worker table of the comparison notebook: [unique_workers]
    holds every worker name once, in ascending order; every row gets an
    id, the id is below [n_workers] and is the position of the row's name
    in the table, so two rows have the same id exactly when they have the
    same name; and every id below [n_workers] is the id of some row. *)
Theorem worker_ids_number_the_workers (worker_name : list string) :
  NoDup (unique_workers worker_name) /\
  Sorted (fun a b => String.leb a b = true) (unique_workers worker_name) /\
  (forall name, name ∈ unique_workers worker_name <-> name ∈ worker_name) /\
  Forall2 (fun name id =>
             exists i, id = Some i /\ (i < n_workers worker_name)%nat /\
                       unique_workers worker_name !! i = Some name)
          worker_name (Contrast.worker_id worker_name) /\
  (forall i, (i < n_workers worker_name)%nat -> Some i ∈ Contrast.worker_id worker_name).
Proof.
  assert (Hnd : NoDup (unique_workers worker_name)).
  { unfold unique_workers. rewrite sorted_Permutation. apply NoDup_elements. }
  assert (Hin : forall name, name ∈ unique_workers worker_name <-> name ∈ worker_name).
  { intros name. unfold unique_workers.
    rewrite sorted_Permutation, elem_of_elements, elem_of_list_to_set. reflexivity. }
  split; [exact Hnd|]. split; [apply sorted_Sorted|]. split; [exact Hin|]. split.
  - unfold Contrast.worker_id. apply Forall2_fmap_r, Forall2_same_length_lookup.
    split; [reflexivity|]. intros k name name' Hk Hk'. assert (name' = name) as -> by congruence.
    destruct (index_elem_of (unique_workers worker_name) name) as [i Hi].
    { apply Hin. apply list_elem_of_lookup. eauto. }
    exists i. split; [exact Hi|]. apply index_lookup in Hi.
    split; [apply lookup_lt_Some in Hi; exact Hi|exact Hi].
  - intros i Hlt. destruct (lookup_lt_is_Some_2 _ _ Hlt) as [name Hname].
    unfold Contrast.worker_id. apply list_elem_of_fmap. exists name.
    split; [symmetry; apply index_NoDup; assumption|].
    apply Hin. apply list_elem_of_lookup. eauto.
Qed.

End ContrastFacts.

Section WalltimeFacts.
Import Contrast.

Variable number : Type.
Variable leb : number -> number -> bool.
Variables (sub add : number -> number -> number).
Variable zero : number.

(** What is asked of the numbers: the comparison is a total preorder, a
    number minus itself is zero, and a number minus a smaller one is not
    below zero.  Finite floating-point numbers have these properties, and
    so have the integers. *)
Hypothesis leb_total : forall a b, leb a b = true \/ leb b a = true.
Hypothesis leb_trans : forall a b c, leb a b = true -> leb b c = true -> leb a c = true.
Hypothesis sub_self : forall a, sub a a = zero.
Hypothesis sub_leb : forall m a, leb m a = true -> leb zero (sub a m) = true.

Lemma column_min_spec x column :
  foldr (smaller leb) x column ∈ x :: column /\
  Forall (fun y => leb (foldr (smaller leb) x column) y = true) (x :: column).
Proof.
  assert (Hrefl : forall a, leb a a = true).
  { intros a. destruct (leb_total a a); assumption. }
  induction column as [|y column [IHin IHle]]; simpl.
  - split; [left|]. constructor; [apply Hrefl|constructor].
  - set (m := foldr (smaller leb) x column) in *. unfold smaller.
    apply Forall_cons in IHle as [Hx Hc].
    destruct (leb y m) eqn:Hym.
    + split; [right; left|].
      constructor; [eapply leb_trans; eassumption|]. constructor; [apply Hrefl|].
      eapply Forall_impl; [exact Hc|]. simpl. intros z Hz. eapply leb_trans; eassumption.
    + split.
      * apply elem_of_cons in IHin as [->|IHin]; [left|right; right; exact IHin].
      * constructor; [exact Hx|]. constructor; [|exact Hc].
        destruct (leb_total y m) as [Hc'|Hc']; [congruence|exact Hc'].
Qed.

(** X15.  The wall times of the comparison notebook are measured from the
    earliest start of a computation: every row gets its wall times, no
    start is below zero, the earliest row starts at zero, and a row
    finishes its running time after its start.  This holds for every kind
    of number whose comparison is a total preorder and whose subtraction
    gives zero for equal numbers and nothing below zero for a number minus
    a smaller one. *)
Theorem walltimes_start_at_zero (results : list (timing number)) :
  Forall2 (fun r w =>
             walltime_finish w = add (walltime_start w) (time_running r) /\
             leb zero (walltime_start w) = true)
          results (walltimes leb sub add results) /\
  (results = [] \/
   Exists (fun w => walltime_start w = zero) (walltimes leb sub add results)).
Proof.
  unfold walltimes. destruct results as [|r results]; [split; [constructor|left; reflexivity]|].
  rewrite fmap_cons. cbn [column_min].
  destruct (column_min_spec (time_compute_started r) (time_compute_started <$> results))
    as [Hin Hle].
  set (m := foldr _ _ _) in *.
  change (time_compute_started r :: (time_compute_started <$> results))
    with (time_compute_started <$> r :: results) in Hin, Hle.
  split.
  - apply Forall2_fmap_r, Forall_Forall2_diag.
    rewrite Forall_fmap in Hle. eapply Forall_impl; [exact Hle|].
    simpl. intros x Hx. split; [reflexivity|]. apply sub_leb, Hx.
  - right. apply list_elem_of_fmap in Hin as (x & Hm & Hx).
    apply Exists_exists. eexists. split; [apply list_elem_of_fmap_2, Hx|]. simpl.
    rewrite <- Hm. apply sub_self.
Qed.

End WalltimeFacts.

Section MoreContrastFacts.
Import Json Persist Contrast.

Lemma cumsum_closed (flags : list bool) : forall acc,
  cumsum acc flags =
  (fun i => acc + Z.of_nat (length (List.filter id (take (S i) flags))))
    <$> seq 0 (length flags).
Proof.
  induction flags as [|b flags IH]; intros acc; [reflexivity|].
  cbn [cumsum length seq fmap list_fmap]. f_equal.
  - destruct b; simpl; lia.
  - rewrite IH, <- fmap_S_seq, <- list_fmap_compose. apply list_fmap_ext.
    intros _ i _. simpl. destruct b; simpl; lia.
Qed.

Lemma filter_id_fmap {A} (f : A -> bool) (l : list A) :
  length (List.filter id (f <$> l)) = length (List.filter f l).
Proof.
  induction l as [|x l IH]; [reflexivity|].
  rewrite fmap_cons. cbn [List.filter]. change (id (f x)) with (f x).
  destruct (f x); cbn [length]; rewrite IH; reflexivity.
Qed.

(** X16.  [best_found] of the comparison notebook counts: its entry for a
    row is the number of molecules above the threshold among the rows up
    to and including that row, so the column is as long as the data,
    never decreases, grows by at most one per row and ends at the total
    number of molecules above the threshold. *)
Theorem best_found_counts_top_molecules (thr : Z) (ie : list Z) :
  best_found thr ie =
  (fun i => Z.of_nat (length (List.filter (fun x => thr <? x) (take (S i) ie))))
    <$> seq 0 (length ie).
Proof.
  unfold best_found. rewrite cumsum_closed, length_fmap. apply list_fmap_ext.
  intros _ i _. cbn beta. rewrite <- fmap_take, filter_id_fmap. apply Z.add_0_l.
Qed.

Lemma read_json_save_batched sims learns :
  read_json (save_batched sims learns) =
    Some ((fields <$> sims) ++
          ((fun r => without learning_exclude (fields r)) <$> learns)).
Proof.
  unfold read_json. rewrite save_batched_text, split_lines_text.
  2:{ apply Forall_app. split; apply Forall_fmap, Forall_true; intros r; apply has_lf_dumps. }
  apply mapM_Some_2, Forall2_app.
  - induction sims as [|r rs IH]; constructor; [|exact IH].
    unfold json. rewrite without_empty. apply loads_dumps.
  - induction learns as [|r rs IH]; constructor; [|exact IH]. apply loads_dumps.
Qed.

Lemma is_simulation_fields r : is_simulation (fields r) = simulated r.
Proof. reflexivity. Qed.

Lemma is_simulation_learning r :
  is_simulation (without learning_exclude (fields r)) = simulated r.
Proof. rewrite without_learning. reflexivity. Qed.

(** X17.  The rows the comparison notebook draws from the file of the
    batched run: when no learning result has the method
    [compute_vertical], the query selects exactly the records of the
    successful simulations, in the order they were saved, and each of
    them still has its inputs, so the molecule read from it is the first
    argument of the simulation; the records saved without inputs are
    never asked for one. *)
Theorem query_selects_saved_simulations (sims learns : list Result) :
  Forall (fun r => method r <> "compute_vertical"%string) learns ->
  exists records,
    read_json (save_batched sims learns) = Some records /\
    colmena_mols records = fields <$> List.filter simulated sims /\
    smiles_of <$> colmena_mols records =
      (fun r => head (args r)) <$> List.filter simulated sims.
Proof.
  intros Hlearn. eexists. split; [apply read_json_save_batched|].
  assert (Hsel : colmena_mols ((fields <$> sims) ++
                   ((fun r => without learning_exclude (fields r)) <$> learns)) =
                 fields <$> List.filter simulated sims).
  { unfold colmena_mols. rewrite List.filter_app.
    assert (Hnone : List.filter is_simulation
                      ((fun r => without learning_exclude (fields r)) <$> learns) = []).
    { induction Hlearn as [|r rs Hr _ IH]; [reflexivity|].
      rewrite fmap_cons. cbn [List.filter]. rewrite is_simulation_learning.
      unfold simulated. apply String.eqb_neq in Hr. rewrite Hr. exact IH. }
    rewrite Hnone, app_nil_r. clear.
    induction sims as [|r rs IH]; [reflexivity|].
    rewrite fmap_cons. cbn [List.filter]. rewrite is_simulation_fields.
    destruct (simulated r); [rewrite fmap_cons|]; rewrite IH; reflexivity. }
  split; [exact Hsel|]. rewrite Hsel, <- list_fmap_compose. apply list_fmap_ext.
  intros _ r _. simpl. destruct r as [m a tp ok v f t1 t2 t3 t4]. destruct a; reflexivity.
Qed.

End MoreContrastFacts.

(** ** More example runs *)

Section MoreWitnesses.
Import Agents Example.

Lemma same_order_Permutation (futures : list ParslLoop.future) : futures ≡ₚ futures.
Proof. reflexivity. Qed.

(** X1, witness: the thinker of the example runs starts with its two
    slots allocated to [simulate]. *)
Lemma init_witness :
  exists st,
    RandomThinker.init keep (PipeQueues.new names) 2 2 molecules = (Done tt, st) /\
    ResourceCounter.allocated_to (RandomThinker.rec st) "simulate" = 2 /\
    NoDup (RandomThinker.priority_list st).
Proof.
  destruct (init_allocates_every_slot keep (PipeQueues.new names) 2 2 molecules
              keep_Permutation)
    as (st & Hinit & Halloc & _ & _ & _ & _ & _ & _ & _ & _ & _ & _ & Hnd & _).
  exists st. split; [exact Hinit|]. split; [exact Halloc|exact Hnd].
Defined.

(** X4, witness: the first result of the example run is stored under its
    molecule. *)
Lemma receive_calc_stores_witness :
  exists st',
    RandomThinker.receive_calc first_result (thinker both_sent) = (Done tt, st') /\
    RandomThinker.database st' !! "C"%string = Some (Some 11).
Proof.
  destruct (receive_calc_stores_success (thinker both_sent) first_result released
              "C" []) as (st' & Hcall & _ & Hkey & _).
  - vm_compute. reflexivity.
  - reflexivity.
  - reflexivity.
  - exists st'. split; [exact Hcall|exact Hkey].
Defined.

(** X5, witness: after one success the database of the example run holds
    one entry, for the one successful result in the log. *)
Lemma database_witness :
  size (RandomThinker.database (thinker second_succeeded)) =
    length (List.filter success
              (RandomThinker.simulation_results (thinker second_succeeded))).
Proof.
  apply (database_within_candidates keep names 2 2 molecules thinker0 thinker0_start
           second_succeeded keep_Permutation second_succeeded_reachable).
Defined.

(** X7, witness: two futures, one failure and its replacement, two rows. *)
Lemma replacement_loop_witness :
  ParslLoop.futures loop_end = [] /\
  length (ParslLoop.train_data loop_end) = 2%nat.
Proof.
  assert (Hnone : ParslLoop.futures loop_end = []) by (vm_compute; reflexivity).
  split; [exact Hnone|].
  apply (replacement_loop_keeps_count search_space loop_turns loop_start loop_end).
  - vm_compute. reflexivity.
  - exact Hnone.
Defined.

(** X8, witness: the failed molecule [CC] is marked as run. *)
Lemma initial_loop_witness :
  "CC"%string ∈ ParslSearch.already_ran initial_end \/
  "CC"%string ∈ ParslSearch.molecules (ParslSearch.sim_futures initial_end).
Proof.
  apply (initial_loop_marks_every_completion search_space 0 loop_turns
           initial_start initial_end).
  - vm_compute. reflexivity.
  - right. left.
Defined.

(** X10, witness: a batch of one future where three were asked for. *)
Lemma select_short_batch_witness :
  "CC"%string ∈
    snd (fst (ParslSearch.select 3 ["C"; "CC"]%string [] {["C"%string]} 0)).
Proof.
  apply (select_short_batch_exhausts_predictions 3 ["C"; "CC"]%string {["C"%string]} 0).
  - vm_compute. reflexivity.
  - right. left.
Defined.

(** X11, witness: a round in the world of the example. *)
Lemma round_witness :
  exists rows,
    ParslSearch.train_data (ParslSearch.round world0 2 0 search0) =
      ParslSearch.train_data search0 ++ rows /\
    (length rows <= 2)%nat.
Proof.
  destruct (round_appends_fresh_rows world0 2 0 search0 same_order_Permutation)
    as (rows & Hdata & _ & _ & _ & Hlen & _).
  exists rows. split; [exact Hdata|exact Hlen].
Defined.

(** X12, witness: the search of the example ends with two rows. *)
Lemma search_witness :
  2 <= Z.of_nat (length (ParslSearch.train_data search_end)) /\
  Z.of_nat (length (ParslSearch.train_data search_end)) < 2 + Z.max 1 2.
Proof.
  destruct (search_never_repeats_a_molecule world0 2 2 0 same_order_Permutation
              3%nat search0 search_end) as (Hge & Hlt & _).
  - vm_compute. reflexivity.
  - split; [exact Hge|]. apply Hlt. vm_compute. reflexivity.
Defined.

(** X13, witness: ten rounds do not end the search when the only ranked
    molecule has run. *)
Lemma search_spins_witness : ParslSearch.search world1 5 2 0 10 search0 = None.
Proof.
  apply (search_spins_when_exhausted world1 5 2 0 search0 same_order_Permutation).
  - intros data mol Hin. apply list_elem_of_singleton in Hin as ->.
    vm_compute. reflexivity.
  - vm_compute. reflexivity.
Defined.

(** X17, witness: a file with a success, a failure and a learning
    result. *)
Lemma query_witness :
  exists records,
    Persist.read_json
      (Persist.save_batched [first_result; failed_result] [Persist.a_learning_result]) =
      Some records /\
    Contrast.smiles_of <$> Contrast.colmena_mols records = [Some "C"%string].
Proof.
  destruct (query_selects_saved_simulations [first_result; failed_result]
              [Persist.a_learning_result]) as (records & Hread & _ & Hmols).
  - constructor; [discriminate|constructor].
  - exists records. split; [exact Hread|]. rewrite Hmols. vm_compute. reflexivity.
Defined.

Lemma Z_leb_total (a b : Z) : (a <=? b) = true \/ (b <=? a) = true.
Proof. rewrite !Z.leb_le. lia. Qed.

Lemma Z_leb_trans (a b c : Z) : (a <=? b) = true -> (b <=? c) = true -> (a <=? c) = true.
Proof. rewrite !Z.leb_le. lia. Qed.

Lemma Z_sub_leb (m a : Z) : (m <=? a) = true -> (0 <=? a - m) = true.
Proof. rewrite !Z.leb_le. lia. Qed.

(** X15, witness: the wall times of three rows with times in whole
    seconds. *)
Lemma walltimes_witness :
  Exists (fun w => Contrast.walltime_start w = 0)
         (Contrast.walltimes Z.leb Z.sub Z.add timings).
Proof.
  destruct (walltimes_start_at_zero Z Z.leb Z.sub Z.add 0 Z_leb_total Z_leb_trans
              Z.sub_diag Z_sub_leb timings) as [_ [Hnil|Hzero]].
  - discriminate Hnil.
  - exact Hzero.
Defined.

End MoreWitnesses.
